(** * pixl-toastr: command synthesis, sanitising and resilient execution

    A shallow embedding of [command_executor.py], [command_generator.py]
    and [app/command_generator.py], and the properties of their
    specification checked against it.

    Conventions of the embedding.
    - A Python [str] is a list of characters; a character is a code point
      in the range 0..255 (the type [ascii]), classified as Python
      classifies the first 256 code points of Unicode.
    - A Python exception is a value of [exn]; a call that may raise
      returns a [result].
    - The operating system (search path, process launching, sleeping),
      the functions of [os.path] and the language model are parameters of
      the functions that use them.
    - Calls of [logging] are left out: they change nothing that the
      functions return. *)

From Stdlib Require Import ZArith List Ascii String Bool Lia DecimalString.
From stdpp Require Import base strings list gmap.
Import ListNotations.
Open Scope Z_scope.

(* ================================================================== *)
(** * Python values shared by the three source files *)

Module Py.

Definition pystr := list ascii.

(** A string literal of the source. *)
Definition py (s : string) : pystr := list_ascii_of_string s.
Arguments py : simpl never.

Definition LF : ascii := "010"%char.
Definition DQUOTE : ascii := "034"%char.
Definition SQUOTE : ascii := "039"%char.
Definition BACKSLASH : ascii := "092"%char.

(** Exceptions raised along the modelled paths; the argument is [str(e)]
    (for [KeyError], the missing key). *)
Inductive exn :=
| IndexError
| ValueError (msg : pystr)
| KeyError (key : pystr)
| AttributeError
| TypeError
| FileNotFoundError (msg : pystr)
| TimeoutExpired
| re_error (msg : pystr)
| OtherException (msg : pystr).

Inductive result (A : Type) :=
| Ok (a : A)
| Raise (e : exn).
Arguments Ok {A} a.
Arguments Raise {A} e.

Definition bind {A B} (r : result A) (k : A -> result B) : result B :=
  match r with
  | Ok a => k a
  | Raise e => Raise e
  end.

Notation "'let*' x ':=' r 'in' k" := (bind r (fun x => k))
  (at level 10, x name, r at level 100, k at level 200).

(** ** Character classes on code points 0..255 *)

Definition code (c : ascii) : N := N_of_ascii c.

Definition in_range (lo hi : N) (c : ascii) : bool :=
  ((lo <=? code c) && (code c <=? hi))%N.

(** [str.isspace] on one character. *)
Definition isspace (c : ascii) : bool :=
  in_range 9 13 c || in_range 28 32 c
  || (code c =? 133)%N || (code c =? 160)%N.

Definition is_ascii_upper (c : ascii) : bool := in_range 65 90 c.
Definition is_ascii_lower (c : ascii) : bool := in_range 97 122 c.
Definition is_ascii_digit (c : ascii) : bool := in_range 48 57 c.

(** [str.isalnum] on one character: letters, decimal digits, and the
    Latin-1 letters, superscript digits and vulgar fractions. *)
Definition isalnum_char (c : ascii) : bool :=
  is_ascii_upper c || is_ascii_lower c || is_ascii_digit c
  || (code c =? 170)%N || (code c =? 181)%N || (code c =? 186)%N
  || in_range 192 214 c || in_range 216 246 c || in_range 248 255 c
  || (code c =? 178)%N || (code c =? 179)%N || (code c =? 185)%N
  || in_range 188 190 c.

(** [str.isalnum]: non-empty and every character alphanumeric. *)
Definition isalnum (s : pystr) : bool :=
  match s with
  | [] => false
  | _ => forallb isalnum_char s
  end.

Definition lower_char (c : ascii) : ascii :=
  if is_ascii_upper c || in_range 192 214 c || in_range 216 222 c
  then ascii_of_N (code c + 32)
  else c.

(** [str.lower]. *)
Definition lower (s : pystr) : pystr := map lower_char s.

(** ** Searching and slicing *)

Fixpoint str_eqb (a b : pystr) : bool :=
  match a, b with
  | [], [] => true
  | x :: a', y :: b' => Ascii.eqb x y && str_eqb a' b'
  | _, _ => false
  end.

(** [s.startswith(p)]. *)
Fixpoint startswith (p s : pystr) : bool :=
  match p, s with
  | [], _ => true
  | x :: p', y :: s' => Ascii.eqb x y && startswith p' s'
  | _ :: _, [] => false
  end.

(** [s.endswith(p)]. *)
Definition endswith (p s : pystr) : bool := startswith (rev p) (rev s).

(** [p in s]. *)
Fixpoint contains (p s : pystr) : bool :=
  startswith p s ||
  match s with
  | [] => false
  | _ :: s' => contains p s'
  end.

(** [s.lstrip()], [s.rstrip()], [s.strip()]. *)
Fixpoint lstrip (s : pystr) : pystr :=
  match s with
  | c :: s' => if isspace c then lstrip s' else s
  | [] => []
  end.

Definition rstrip (s : pystr) : pystr := rev (lstrip (rev s)).

Definition strip (s : pystr) : pystr := rstrip (lstrip s).

(** [s.split(sep)] for a separator of one character: the pieces between
    the occurrences, one more than there are occurrences. *)
Fixpoint split_char_acc (sep : ascii) (piece : pystr) (s : pystr) : list pystr :=
  match s with
  | [] => [piece]
  | c :: s' =>
      if Ascii.eqb c sep then piece :: split_char_acc sep [] s'
      else split_char_acc sep (piece ++ [c]) s'
  end.

Definition split_char (sep : ascii) (s : pystr) : list pystr :=
  split_char_acc sep [] s.

(** [s.split()]: the maximal runs of non-whitespace characters. *)
Fixpoint split_ws_acc (word : pystr) (s : pystr) : list pystr :=
  match s with
  | [] => match word with [] => [] | _ => [word] end
  | c :: s' =>
      if isspace c
      then match word with
           | [] => split_ws_acc [] s'
           | _ => word :: split_ws_acc [] s'
           end
      else split_ws_acc (word ++ [c]) s'
  end.

Definition split_ws (s : pystr) : list pystr := split_ws_acc [] s.

(** [sep.join(l)]. *)
Fixpoint join (sep : pystr) (l : list pystr) : pystr :=
  match l with
  | [] => []
  | [x] => x
  | x :: l' => x ++ sep ++ join sep l'
  end.

(** [s.index(c)]: position of the first occurrence. *)
Fixpoint index (c : ascii) (s : pystr) : option nat :=
  match s with
  | [] => None
  | x :: s' => if Ascii.eqb x c then Some 0%nat
               else option_map S (index c s')
  end.

(** [s.rindex(c)]: position of the last occurrence. *)
Fixpoint rindex (c : ascii) (s : pystr) : option nat :=
  match s with
  | [] => None
  | x :: s' =>
      match rindex c s' with
      | Some i => Some (S i)
      | None => if Ascii.eqb x c then Some 0%nat else None
      end
  end.

(** [s.replace(c, '')] for one character [c]. *)
Definition remove_char (c : ascii) (s : pystr) : pystr :=
  List.filter (fun x => negb (Ascii.eqb x c)) s.

(** [s[start:stop]] for non-negative bounds. *)
Definition slice (start stop : nat) (s : pystr) : pystr :=
  take (stop - start) (drop start s).

(** [str(n)] for an integer. *)
Definition str_of_Z (n : Z) : pystr :=
  py (NilZero.string_of_int (Z.to_int n)).

(** ** [shlex] *)

(** The lexer states of [shlex.shlex.read_token] that [shlex.split]
    reaches ([posix=True], [whitespace_split=True], no commenters, no
    punctuation characters): [' '], ['a'], inside a quote, and after an
    escape character, which remembers the state to go back to
    ([escapedstate]: ['a'], or the quote it was read in). *)
Inductive shlex_state :=
| InWhitespace
| InWord
| InQuote (q : ascii)
| InEscape (escapedstate : option ascii).

Definition shlex_whitespace (c : ascii) : bool :=
  existsb (Ascii.eqb c) [" "%char; "009"%char; "013"%char; "010"%char].

Definition shlex_quotes (c : ascii) : bool :=
  Ascii.eqb c SQUOTE || Ascii.eqb c DQUOTE.

Definition shlex_escape (c : ascii) : bool := Ascii.eqb c BACKSLASH.

(** Only the double quote allows escapes inside it. *)
Definition shlex_escapedquotes (c : ascii) : bool := Ascii.eqb c DQUOTE.

(** All the tokens of the rest [s] of the input, from lexer state [state]
    with [token] read so far. A token is emitted at the whitespace or the
    end of input that ends a word; in state ['a'] the token is non-empty
    or was quoted, so it is always emitted. *)
Fixpoint shlex_read (state : shlex_state) (token : pystr) (s : pystr)
  : result (list pystr) :=
  match s with
  | [] =>
      match state with
      | InWhitespace => Ok []
      | InWord => Ok [token]
      | InQuote _ => Raise (ValueError (py "No closing quotation"))
      | InEscape _ => Raise (ValueError (py "No escaped character"))
      end
  | nextchar :: rest =>
      match state with
      | InWhitespace =>
          if shlex_whitespace nextchar then shlex_read InWhitespace [] rest
          else if shlex_escape nextchar then shlex_read (InEscape None) [] rest
          else if shlex_quotes nextchar then shlex_read (InQuote nextchar) [] rest
          else shlex_read InWord [nextchar] rest
      | InWord =>
          if shlex_whitespace nextchar then
            let* tokens := shlex_read InWhitespace [] rest in
            Ok (token :: tokens)
          else if shlex_quotes nextchar then shlex_read (InQuote nextchar) token rest
          else if shlex_escape nextchar then shlex_read (InEscape None) token rest
          else shlex_read InWord (token ++ [nextchar]) rest
      | InQuote q =>
          if Ascii.eqb nextchar q then shlex_read InWord token rest
          else if shlex_escape nextchar && shlex_escapedquotes q
          then shlex_read (InEscape (Some q)) token rest
          else shlex_read (InQuote q) (token ++ [nextchar]) rest
      | InEscape None =>
          shlex_read InWord (token ++ [nextchar]) rest
      | InEscape (Some q) =>
          let token :=
            if negb (shlex_escape nextchar) && negb (Ascii.eqb nextchar q)
            then token ++ [BACKSLASH] else token in
          shlex_read (InQuote q) (token ++ [nextchar]) rest
      end
  end.

(** [shlex.split(s)]. *)
Definition shlex_split (s : pystr) : result (list pystr) :=
  shlex_read InWhitespace [] s.

(** The characters [shlex.quote] leaves bare: ASCII letters, digits,
    the underscore and [@%+=:,./-]. *)
Definition shlex_safe_char (c : ascii) : bool :=
  is_ascii_upper c || is_ascii_lower c || is_ascii_digit c
  || existsb (Ascii.eqb c)
       ["_"%char; "@"%char; "%"%char; "+"%char; "="%char; ":"%char;
        ","%char; "."%char; "/"%char; "-"%char].

(** The replacement of every single quote by the five characters
    single, double, single, double, single quote, as [shlex.quote] does
    with [str.replace]. *)
Fixpoint escape_single_quotes (s : pystr) : pystr :=
  match s with
  | [] => []
  | c :: s' =>
      if Ascii.eqb c SQUOTE
      then [SQUOTE; DQUOTE; SQUOTE; DQUOTE; SQUOTE] ++ escape_single_quotes s'
      else c :: escape_single_quotes s'
  end.

(** [shlex.quote(s)]. *)
Definition shlex_quote (s : pystr) : pystr :=
  match s with
  | [] => [SQUOTE; SQUOTE]
  | _ => if forallb shlex_safe_char s then s
         else [SQUOTE] ++ escape_single_quotes s ++ [SQUOTE]
  end.

(** [shlex.join(tokens)]. *)
Definition shlex_join (tokens : list pystr) : pystr :=
  join (py " ") (map shlex_quote tokens).

End Py.
Export Py.

(* ================================================================== *)
(** * [command_executor.py] *)

Module CommandExecutor.

(** What [subprocess.run] is called with: the whole line ([shell=True])
    or the argument vector ([shell=False]). *)
Inductive run_arg :=
| ShellLine (command : pystr)
| Argv (tokens : list pystr).

(** What one call of [subprocess.run(..., check=False, timeout=300)]
    does: it returns a completed process or raises. [RaisesException]
    stands for every other subclass of [Exception] ([PermissionError],
    [OSError], ...), with its [str(e)]. *)
Inductive proc_outcome :=
| Completed (returncode : Z) (stdout stderr : pystr)
| RaisesFileNotFoundError (e : pystr)
| RaisesValueError (e : pystr)
| RaisesTimeoutExpired
| RaisesException (e : pystr).

(** The host the executor runs on. The state of the world is threaded
    through the calls, so that successive attempts may differ. *)
Record Host (World : Type) := {
  platform_system : pystr;
  shutil_which : World -> pystr -> option pystr;
  subprocess_run : World -> run_arg -> proc_outcome * World;
  time_sleep : World -> Z -> World
}.
Arguments platform_system {World} h.
Arguments shutil_which {World} h w cmd.
Arguments subprocess_run {World} h w arg.
Arguments time_sleep {World} h w secs.

(** [CommandExecutor._looks_like_shell_script]. *)
Definition _looks_like_shell_script (platform_system : pystr) (command : pystr)
  : result bool :=
  let command_lower := strip (lower command) in
  if existsb (fun kw => startswith kw command_lower)
       [py "for "; py "while "; py "if "; py "case "]
  then Ok true
  else if existsb (fun op => contains op command)
            [py ";"; py "&&"; py "||"; py "|"; py ">"; py "<"; py "`"]
  then Ok true
  else
    let* expansion :=
      (if contains (py "$") command then
         if contains (py "{") command then Ok true
         else match split_ws (List.last (split_char "$" command) []) with
              | [] => Raise IndexError
              | word :: _ => Ok (isalnum word)
              end
       else Ok false) in
    if expansion then Ok true
    else if contains (py "%") command && str_eqb platform_system (py "Windows")
    then
      let parts := split_char "%" command in
      if (2 <? length parts)%nat && isalnum (nth 1 parts [])
      then Ok true
      else Ok false
    else Ok false.

Section WithHost.

Context {World : Type} (host : Host World).

(** The body of the [try] of [run_command] after the command to run is
    known: launch, combine the output, check the return code. *)
Definition launch (command_to_run : run_arg) (error_prefix : pystr) (w : World)
  : result (bool * pystr) * World :=
  match subprocess_run host w command_to_run with
  | (Completed returncode stdout stderr, w') =>
      let combined_output := [] in
      let combined_output :=
        match stdout with
        | [] => combined_output
        | _ => combined_output ++ py "Stdout:" ++ [LF] ++ strip stdout ++ [LF]
        end in
      let combined_output :=
        match stderr with
        | [] => combined_output
        | _ => combined_output ++ py "Stderr:" ++ [LF] ++ strip stderr
        end in
      let combined_output := strip combined_output in
      if returncode =? 0 then (Ok (true, combined_output), w')
      else
        let error_message :=
          py "Command failed with exit code " ++ str_of_Z returncode ++ py "." in
        let error_message :=
          match error_prefix with
          | [] => error_message
          | _ => error_prefix ++ [LF] ++ error_message
          end in
        (Ok (false, error_message ++ [LF] ++ combined_output), w')
  | (RaisesFileNotFoundError e, w') => (Raise (FileNotFoundError e), w')
  | (RaisesValueError e, w') => (Raise (ValueError e), w')
  | (RaisesTimeoutExpired, w') => (Raise TimeoutExpired, w')
  | (RaisesException e, w') => (Raise (OtherException e), w')
  end.

(** The [try] block of [run_command]. *)
Definition run_command_try (use_shell : bool) (command : pystr) (w : World)
  : result (bool * pystr) * World :=
  if use_shell then launch (ShellLine command) [] w
  else
    match shlex_split command with
    | Raise e => (Raise e, w)
    | Ok [] => (Ok (false, py "Empty command after shlex.split"), w)
    | Ok ((executable :: _) as command_to_run) =>
        let error_prefix :=
          match shutil_which host w executable with
          | None => py "Error: Command executable '" ++ executable
                    ++ py "' not found in PATH."
          | Some _ => []
          end in
        launch (Argv command_to_run) error_prefix w
    end.

(** [str(e)] for the exceptions the last handler of [run_command] can
    see. *)
Definition exn_str (e : exn) : pystr :=
  match e with
  | ValueError msg | FileNotFoundError msg | re_error msg
  | OtherException msg => msg
  | KeyError key => [SQUOTE] ++ key ++ [SQUOTE]
  | IndexError => py "list index out of range"
  | AttributeError | TypeError | TimeoutExpired => []
  end.

(** [CommandExecutor.run_command]. The classifier is called before the
    [try], so what it raises is not handled here. *)
Definition run_command (command : pystr) (w : World)
  : result ((bool * pystr) * World) :=
  let* use_shell := _looks_like_shell_script (platform_system host) command in
  match run_command_try use_shell command w with
  | (Ok r, w') => Ok (r, w')
  | (Raise (FileNotFoundError e), w') =>
      Ok ((false,
           py "Error: FileNotFoundError during command execution. Command or shell not found? Details: "
           ++ e), w')
  | (Raise (ValueError e), w') =>
      Ok ((false,
           py "Error splitting command string (check quoting): " ++ e
           ++ [LF] ++ py "Command: " ++ command), w')
  | (Raise TimeoutExpired, w') =>
      Ok ((false,
           py "Error: Command timed out after 300 seconds." ++ [LF]
           ++ py "Command: " ++ command), w')
  | (Raise e, w') =>
      Ok ((false, py "Subprocess execution error: " ++ exn_str e), w')
  end.

(** What [execute_with_retries] does that the caller can observe besides
    its result. *)
Inductive event :=
| Attempt (number : Z)
| Sleep (seconds : Z).

Definition no_retry_errors : list pystr :=
  [py "Error splitting command string";
   py "executable not found";
   py "FileNotFoundError";
   py "no matches found";
   py "timed out"].

Definition is_no_retry_error (output : pystr) : bool :=
  existsb (fun err_text => contains err_text output) no_retry_errors.

(** The [while] loop of [execute_with_retries] and the [return] after
    it; [fuel] bounds the number of iterations, [None] is running out of
    it. *)
Fixpoint retry_loop (fuel : nat) (max_exec_retries : Z) (command : pystr)
    (attempt : Z) (last_error_output : pystr) (w : World) (trace : list event)
  : option (result ((bool * pystr) * World * list event)) :=
  match fuel with
  | O => None
  | S fuel =>
      if attempt <? max_exec_retries then
        let attempt := attempt + 1 in
        let trace := trace ++ [Attempt attempt] in
        match run_command command w with
        | Raise e => Some (Raise e)
        | Ok ((success, output), w) =>
            if success then Some (Ok ((true, output), w, trace))
            else
              let last_error_output := output in
              if is_no_retry_error output
              then Some (Ok ((false, last_error_output), w, trace))
              else if attempt <? max_exec_retries then
                let sleep_time := 2 ^ attempt in
                retry_loop fuel max_exec_retries command attempt
                  last_error_output (time_sleep host w sleep_time)
                  (trace ++ [Sleep sleep_time])
              else
                retry_loop fuel max_exec_retries command attempt
                  last_error_output w trace
        end
      else Some (Ok ((false, last_error_output), w, trace))
  end.

(** [CommandExecutor.execute_with_retries], for an executor built with
    [max_retries]. The loop runs at most [max_retries] times and then
    fails its test once. *)
Definition execute_with_retries_fuel (max_retries : Z) : nat :=
  S (Z.to_nat max_retries).

Definition execute_with_retries (max_retries : Z) (command : pystr) (w : World)
  : option (result ((bool * pystr) * World * list event)) :=
  retry_loop (execute_with_retries_fuel max_retries) max_retries command
    0 (py "No error output captured.") w [].

End WithHost.

End CommandExecutor.

(* ================================================================== *)
(** * Regular expressions of the generators

    The three patterns of the source, each compiled by hand into a
    matcher that follows the pattern element by element. Where the
    pattern is greedy the matcher takes the longest run; the comments
    say why backtracking into a shorter run cannot succeed. *)

Module Regex.

(** The longest prefix of [s] whose characters satisfy [p], and the rest. *)
Fixpoint span (p : ascii -> bool) (s : pystr) : pystr * pystr :=
  match s with
  | c :: s' =>
      if p c then let (run, rest) := span p s' in (c :: run, rest)
      else ([], s)
  | [] => ([], [])
  end.

(** The lazy group followed by the back-reference to the quote [q],
    without [DOTALL]: the shortest run of characters other than the line feed
    that ends at a [q]. The first [q] ends it; a line feed before the
    first [q] cannot be matched, so no later [q] can be reached. *)
Fixpoint lazy_until (q : ascii) (s : pystr) : option (pystr * pystr) :=
  match s with
  | [] => None
  | c :: s' =>
      if Ascii.eqb c q then Some ([], s')
      else if Ascii.eqb c LF then None
      else match lazy_until q s' with
           | Some (body, rest) => Some (c :: body, rest)
           | None => None
           end
  end.

(** A match of the pattern of [fix_command_quotes]: group 1 is [-vf]
    and at least one whitespace character, group 2 a single or double
    quote, group 3 a lazy run of characters other than the line feed,
    and the same quote again ends the match. The record holds the three
    groups and what follows the match. *)
Record vf_match := {
  vf_prefix : pystr;    (* group 1 *)
  vf_quote : ascii;     (* group 2 *)
  vf_filters : pystr;   (* group 3 *)
  vf_rest : pystr
}.

(** The pattern anchored at the start of [s]. The whitespace is taken
    whole: after a shorter run the next character is whitespace,
    which is no quote. *)
Definition match_vf_here (s : pystr) : option vf_match :=
  if startswith (py "-vf") s then
    let (ws, after) := span isspace (drop 3 s) in
    match ws, after with
    | _ :: _, q :: body =>
        if shlex_quotes q then
          match lazy_until q body with
          | Some (filters, rest) =>
              Some {| vf_prefix := py "-vf" ++ ws; vf_quote := q;
                      vf_filters := filters; vf_rest := rest |}
          | None => None
          end
        else None
    | _, _ => None
    end
  else None.

(** [re.search]: the leftmost position at which the pattern matches,
    with the text before it. *)
Fixpoint search_vf (before : pystr) (s : pystr) : option (pystr * vf_match) :=
  match match_vf_here s with
  | Some m => Some (before, m)
  | None =>
      match s with
      | [] => None
      | c :: s' => search_vf (before ++ [c]) s'
      end
  end.

(** A literal under [IGNORECASE]. *)
Definition startswith_ci (p s : pystr) : bool :=
  startswith (lower p) (lower (take (length p) s)).

(** The scale pattern under [IGNORECASE], anchored at the start of [s]:
    the word [scale], whitespace, [=], whitespace, the word [min], an
    opening parenthesis, group 1 (at least one character other than the
    closing parenthesis, greedy), a closing parenthesis. The result is
    group 1 and what follows the match. Each run of whitespace is taken
    whole (what must follow is no whitespace) and group 1 takes every
    character up to the first closing parenthesis (which must follow). *)
Definition match_scale_here (s : pystr) : option (pystr * pystr) :=
  if startswith_ci (py "scale") s then
    let (_, s1) := span isspace (drop 5 s) in
    match s1 with
    | "="%char :: s2 =>
        let (_, s3) := span isspace s2 in
        if startswith_ci (py "min") s3 then
          match drop 3 s3 with
          | "("%char :: s4 =>
              let (args, s5) := span (fun c => negb (Ascii.eqb c ")")) s4 in
              match args, s5 with
              | _ :: _, ")"%char :: rest => Some (args, rest)
              | _, _ => None
              end
          | _ => None
          end
        else None
    | _ => None
    end
  else None.

(** [re.sub] of the scale pattern with the function that formats
    group 1 into [scale='min(...)']: every match, left to right, without
    overlap. [fuel] bounds the number of characters still to scan. *)
Fixpoint sub_scale (fuel : nat) (s : pystr) : pystr :=
  match fuel with
  | O => s
  | S fuel =>
      match match_scale_here s with
      | Some (args, rest) =>
          py "scale='min(" ++ args ++ py ")'" ++ sub_scale fuel rest
      | None =>
          match s with
          | [] => []
          | c :: s' => c :: sub_scale fuel s'
          end
      end
  end.

(** ** Replacement templates

    [re.sub] with a string as replacement expands the escapes of the
    string against the groups of the match. *)

Definition is_octdigit (c : ascii) : bool := in_range 48 55 c.
Definition digit_value (c : ascii) : N := (code c - 48)%N.

(** Where the expansion is in the template. *)
Inductive template_state :=
| TLiteral
| TBackslash                       (* after a backslash *)
| TGroupOpen                       (* after \g *)
| TGroupName (name : pystr)       (* inside \g<...> *)
| TOctalZero (digits : list ascii)  (* after \0 and its octal digits *)
| TDigit (d : ascii)               (* after \d, d in 1..9 *)
| TDigits (d1 d2 : ascii).         (* after \d1d2, both octal *)

Definition is_identifier (name : pystr) : bool :=
  match name with
  | [] => false
  | c :: _ =>
      negb (is_ascii_digit c)
      && forallb (fun c => isalnum_char c || Ascii.eqb c "_") name
  end.

Definition decimal_value (digits : pystr) : N :=
  fold_left (fun n c => (10 * n + digit_value c)%N) digits 0%N.

Definition octal_value (digits : pystr) : N :=
  fold_left (fun n c => (8 * n + digit_value c)%N) digits 0%N.

Section Template.

(** The groups of the match, group 0 first. *)
Variable groups : list pystr.

Definition group_ref (index : N) : result pystr :=
  match nth_error groups (N.to_nat index) with
  | Some g => Ok g
  | None => Raise (re_error (py "invalid group reference"))
  end.

(** What is pending in state [st] when the template ends or when the
    next character does not continue it. *)
Definition template_flush (st : template_state) : result pystr :=
  match st with
  | TLiteral => Ok []
  | TBackslash => Raise (re_error (py "bad escape (end of pattern)"))
  | TGroupOpen => Raise (re_error (py "missing <"))
  | TGroupName _ => Raise (re_error (py "missing >, unterminated name"))
  | TOctalZero digits => Ok [ascii_of_N (octal_value digits)]
  | TDigit d => group_ref (digit_value d)
  | TDigits d1 d2 => group_ref (decimal_value [d1; d2])
  end.

Fixpoint expand_from (st : template_state) (s : pystr) : result pystr :=
  match s with
  | [] => template_flush st
  | c :: s' =>
      let continue_literal :=
        (* [c] read in state [TLiteral] *)
        if Ascii.eqb c BACKSLASH then expand_from TBackslash s'
        else let* tail := expand_from TLiteral s' in Ok (c :: tail) in
      let flush_then_literal :=
        let* pending := template_flush st in
        let* tail := continue_literal in
        Ok (pending ++ tail) in
      match st with
      | TLiteral => continue_literal
      | TBackslash =>
          if Ascii.eqb c "g" then expand_from TGroupOpen s'
          else if Ascii.eqb c "0" then expand_from (TOctalZero []) s'
          else if is_ascii_digit c then expand_from (TDigit c) s'
          else
            let literal (x : ascii) :=
              let* tail := expand_from TLiteral s' in Ok (x :: tail) in
            if Ascii.eqb c "a" then literal "007"%char
            else if Ascii.eqb c "b" then literal "008"%char
            else if Ascii.eqb c "f" then literal "012"%char
            else if Ascii.eqb c "n" then literal "010"%char
            else if Ascii.eqb c "r" then literal "013"%char
            else if Ascii.eqb c "t" then literal "009"%char
            else if Ascii.eqb c "v" then literal "011"%char
            else if Ascii.eqb c BACKSLASH then literal BACKSLASH
            else if is_ascii_upper c || is_ascii_lower c
            then Raise (re_error (py "bad escape"))
            else let* tail := expand_from TLiteral s' in
                 Ok (BACKSLASH :: c :: tail)
      | TGroupOpen =>
          if Ascii.eqb c "<" then expand_from (TGroupName []) s'
          else Raise (re_error (py "missing <"))
      | TGroupName name =>
          if Ascii.eqb c ">" then
            if is_identifier name then Raise IndexError
            else
              match name with
              | [] => Raise (re_error (py "missing group name"))
              | _ =>
                  if forallb is_ascii_digit name then
                    let* g := group_ref (decimal_value name) in
                    let* tail := expand_from TLiteral s' in
                    Ok (g ++ tail)
                  else Raise (re_error (py "bad character in group name"))
              end
          else expand_from (TGroupName (name ++ [c])) s'
      | TOctalZero digits =>
          if is_octdigit c && (length digits <? 2)%nat
          then expand_from (TOctalZero (digits ++ [c])) s'
          else flush_then_literal
      | TDigit d =>
          if is_ascii_digit c then
            if is_octdigit d && is_octdigit c then expand_from (TDigits d c) s'
            else
              let* g := group_ref (decimal_value [d; c]) in
              let* tail := expand_from TLiteral s' in
              Ok (g ++ tail)
          else flush_then_literal
      | TDigits d1 d2 =>
          if is_octdigit c then
            let value := octal_value [d1; d2; c] in
            if (255 <? value)%N
            then Raise (re_error (py "octal escape value outside of range 0-0o377"))
            else let* tail := expand_from TLiteral s' in
                 Ok (ascii_of_N value :: tail)
          else flush_then_literal
      end
  end.

(** The expansion of the replacement string [template]. *)
Definition expand_template (template : pystr) : result pystr :=
  expand_from TLiteral template.

End Template.

(** ** The fence pattern of the context-aware generator *)

(** [re.match] of the fence pattern under [DOTALL] and [IGNORECASE],
    returning group 1 of the match. The pattern is: start of the string,
    whitespace, three backquotes, an optional tag [json], whitespace,
    group 1 (a greedy run of any characters), whitespace, three
    backquotes, whitespace, end of the string. Neither the whitespace
    nor the tag contains a backquote, so taking all the leading
    whitespace and the tag succeeds whenever a shorter choice does.
    Group 1 is greedy: it ends at the last fence that only whitespace
    follows, and takes the whitespace before that fence. *)
Definition match_fence (s : pystr) : option pystr :=
  let s := lstrip s in
  if startswith (py "```") s then
    let s := drop 3 s in
    let s := if startswith_ci (py "json") s then drop 4 s else s in
    let s := lstrip s in
    let s := rstrip s in
    if endswith (py "```") s then Some (take (length s - 3) s)
    else None
  else None.

End Regex.

(* ================================================================== *)
(** * Python objects and [os.path] *)

Module PyObj.

(** The values a caller can hand to a function that expects a string. *)
Inductive pyobj :=
| PyStr (s : pystr)
| PyNone
| PyBool (b : bool)
| PyInt (n : Z)
| PyBytes (b : list ascii)
| PyList (l : list pystr).

Definition is_str (o : pyobj) : bool :=
  match o with
  | PyStr _ => true
  | _ => false
  end.

(** The functions of [os.path] and the constant of [file_manager] that
    [update_output_filename] uses. *)
Record OsPath := {
  splitext : pystr -> pystr * pystr;
  basename : pystr -> pystr;
  IMAGE_EXTENSIONS : list pystr
}.

(** [posixpath.basename]. *)
Definition posix_basename (p : pystr) : pystr :=
  match rindex "/" p with
  | Some i => drop (S i) p
  | None => p
  end.

(** [posixpath.splitext]: the extension starts at the last dot of the
    last component, unless only dots come before it there. *)
Definition posix_splitext (p : pystr) : pystr * pystr :=
  let filename_index :=
    match rindex "/" p with
    | Some i => S i
    | None => 0%nat
    end in
  match rindex "." (drop filename_index p) with
  | Some d =>
      if forallb (Ascii.eqb ".") (take d (drop filename_index p))
      then (p, [])
      else (take (filename_index + d) p, drop (filename_index + d) p)
  | None => (p, [])
  end.

(** [s in l] for a list of strings. *)
Definition str_in (s : pystr) (l : list pystr) : bool :=
  existsb (str_eqb s) l.

End PyObj.
Export PyObj.

(* ================================================================== *)
(** * [command_generator.py] *)

Module CommandGenerator.

Import Regex.

(** The line boundaries of [str.splitlines] in the range 0..255, the
    carriage return apart. *)
Definition is_linebreak (c : ascii) : bool :=
  in_range 10 12 c || in_range 28 30 c || (code c =? 133)%N.

(** [s.splitlines()]. *)
Fixpoint splitlines_acc (line : pystr) (s : pystr) : list pystr :=
  match s with
  | [] => match line with [] => [] | _ => [line] end
  | c :: s' =>
      if Ascii.eqb c "013" then
        match s' with
        | c' :: s'' =>
            if Ascii.eqb c' LF then line :: splitlines_acc [] s''
            else line :: splitlines_acc [] s'
        | [] => line :: splitlines_acc [] s'
        end
      else if is_linebreak c then line :: splitlines_acc [] s'
      else splitlines_acc (line ++ [c]) s'
  end.

Definition splitlines (s : pystr) : list pystr := splitlines_acc [] s.

(** [s.strip(chars)]. *)
Fixpoint lstrip_chars (chars : pystr) (s : pystr) : pystr :=
  match s with
  | c :: s' => if existsb (Ascii.eqb c) chars then lstrip_chars chars s' else s
  | [] => []
  end.

Definition strip_chars (chars : pystr) (s : pystr) : pystr :=
  rev (lstrip_chars chars (rev (lstrip_chars chars s))).

(** [s.index(c)] and [s.rindex(c)], which raise when [c] is absent. *)
Definition str_index (c : ascii) (s : pystr) : result nat :=
  match index c s with
  | Some i => Ok i
  | None => Raise (ValueError (py "substring not found"))
  end.

Definition str_rindex (c : ascii) (s : pystr) : result nat :=
  match rindex c s with
  | Some i => Ok i
  | None => Raise (ValueError (py "substring not found"))
  end.

(** The [try] of [clean_json_response] and its [except ValueError]. *)
Definition slice_json_object (response_str : pystr) : result pystr :=
  match
    (let* start := str_index "{" response_str in
     let* end_ := str_rindex "}" response_str in
     Ok (slice start (end_ + 1) response_str))
  with
  | Ok sliced => Ok sliced
  | Raise (ValueError _) => Ok response_str
  | Raise e => Raise e
  end.

(** The removal of the fence in [clean_json_response]. *)
Definition strip_fence (response_str : pystr) : pystr :=
  if startswith (py "```") response_str && endswith (py "```") response_str
  then
    let lines := splitlines response_str in
    if (3 <=? length lines)%nat
    then join [LF] (take (length lines - 2) (drop 1 lines))
    else strip_chars (py "```") response_str
  else response_str.

(** [CommandGenerator.clean_json_response]. A value without a method
    [strip] raises on the first line; [bytes] has one, and raises at
    [startswith] with a string argument. *)
Definition clean_json_response (response_str : pyobj) : result pystr :=
  match response_str with
  | PyStr response_str =>
      let response_str := strip response_str in
      let response_str := strip_fence response_str in
      slice_json_object response_str
  | PyBytes _ => Raise TypeError
  | _ => Raise AttributeError
  end.

(** [CommandGenerator.fix_command_quotes]. *)
Definition fix_command_quotes (command : pystr) : result pystr :=
  match search_vf [] command with
  | Some (before, m) =>
      let prefix := vf_prefix m in
      let filters := vf_filters m in
      let filters_fixed := sub_scale (S (length filters)) filters in
      let filters_fixed := remove_char DQUOTE filters_fixed in
      let new_vf := prefix ++ [DQUOTE] ++ filters_fixed ++ [DQUOTE] in
      let whole := prefix ++ [vf_quote m] ++ filters ++ [vf_quote m] in
      let* replacement :=
        expand_template [whole; prefix; [vf_quote m]; filters] new_vf in
      Ok (before ++ replacement ++ vf_rest m)
  | None => Ok command
  end.

(** The tokens of a command: [shlex.split], and [str.split] when that
    raises. *)
Definition tokenize (command : pystr) : list pystr :=
  match shlex_split command with
  | Ok tokens => tokens
  | Raise _ => split_ws command
  end.

(** The [while] loop of [replace_placeholder_with_file] over the tokens
    from index [i] on: the tokens it appends to [new_tokens]. *)
Fixpoint replace_loop (actual_file : pystr) (found_input : bool)
    (tokens : list pystr) : list pystr :=
  match tokens with
  | [] => []
  | token :: rest =>
      if str_eqb (lower token) (py "-i") then
        if negb found_input then
          match rest with
          | _ :: rest' => token :: actual_file :: replace_loop actual_file true rest'
          | [] => [token]
          end
        else
          match rest with
          | _ :: rest' => replace_loop actual_file true rest'
          | [] => []
          end
      else token :: replace_loop actual_file found_input rest
  end.

(** [CommandGenerator.replace_placeholder_with_file]. *)
Definition replace_placeholder_with_file (command actual_file : pystr) : pystr :=
  let tokens := tokenize command in
  let new_tokens := replace_loop actual_file false tokens in
  shlex_join new_tokens.

Section WithOsPath.

Variable os_path : OsPath.

(** The new last token of [update_output_filename]. *)
Definition new_output_name (output_token input_file : pystr)
    (desired_ext : option pystr) : pystr :=
  let out_ext := snd (splitext os_path output_token) in
  let in_ext := snd (splitext os_path input_file) in
  let out_ext :=
    match desired_ext with
    | Some ((_ :: _) as ext) => ext
    | _ =>
        if str_in (lower in_ext) (IMAGE_EXTENSIONS os_path) then in_ext
        else out_ext
    end in
  let base := fst (splitext os_path (basename os_path input_file)) in
  base ++ py "_toasted" ++ out_ext.

(** [CommandGenerator.update_output_filename]; [desired_ext] is [None]
    or a string. *)
Definition update_output_filename (command input_file : pystr)
    (desired_ext : option pystr) : pystr :=
  let tokens := tokenize command in
  if (length tokens <? 3)%nat then command
  else
    let output_token := List.last tokens [] in
    let new_output := new_output_name output_token input_file desired_ext in
    let tokens := <[ (length tokens - 1)%nat := new_output ]> tokens in
    shlex_join tokens.

End WithOsPath.

End CommandGenerator.

(* ================================================================== *)
(** * [app/command_generator.py] *)

Module AppCommandGenerator.

Import Regex.

(** The replacement fields that the model of the template covers: a
    keyword name between braces, without conversion and without format
    specification. A keyword name is not empty and is not a number
    (an empty name or a number is a positional field); it holds no dot
    and no opening bracket (they start an attribute or an index), none
    of the characters that end a field name or are refused in one (the
    braces, the exclamation mark, the colon), and only printable ASCII
    characters other than the single quote and the backslash, so that
    [repr] of the name is the name between single quotes. *)
Definition keyword_char (c : ascii) : bool :=
  in_range 32 126 c
  && negb (existsb (Ascii.eqb c)
             ["."%char; "["%char; "{"%char; "}"%char; "!"%char; ":"%char;
              SQUOTE; BACKSLASH]).

Definition is_keyword (name : string) : bool :=
  match list_ascii_of_string name with
  | [] => false
  | chars => forallb keyword_char chars && negb (forallb is_ascii_digit chars)
  end.

Record keyword := Keyword {
  keyword_name : string;
  keyword_ok : Is_true (is_keyword keyword_name)
}.

(** The system prompt template, read from [system_prompt.txt] when the
    generator is built: literal text and replacement fields that name a
    keyword argument. Templates with other replacement fields
    (positional ones, attributes, indexes, conversions, format
    specifications) are outside the model. *)
Inductive template_item :=
| Literal (text : pystr)
| Field (name : keyword).

(** What the generator needs from the Python runtime: [os.path.relpath]
    on two strings, [os.path.relpath] on other arguments, and [repr] of
    a value that is no string. *)
Record Runtime := {
  relpath : pystr -> pystr -> result pystr;
  relpath_other : pyobj -> pyobj -> result pystr;
  pyrepr : pyobj -> pystr
}.

(** The model collaborator: [openai.chat.completions.create]. It answers
    with a message content, which may be [None], or raises. *)
Inductive llm_outcome :=
| Responds (content : option pystr)
| Fails (e : exn).

Definition message := gmap string pystr.

Record LLM (Session : Type) := {
  chat_completions_create :
    Session -> pystr -> list message -> llm_outcome * Session
}.
Arguments chat_completions_create {Session} l s model messages.

(** The attributes of a generator that the modelled methods read. *)
Record generator := {
  model : pystr;
  system_prompt_template : list template_item
}.

Definition context := gmap string pyobj.

(** [d.get(key)] and [d.get(key, default)]. *)
Definition get (d : context) (key : string) : pyobj :=
  default PyNone (d !! key).

Definition get_default (d : context) (key : string) (dflt : pyobj) : pyobj :=
  default dflt (d !! key).

(** The truth value of an object. *)
Definition truthy (o : pyobj) : bool :=
  match o with
  | PyStr s => negb (str_eqb s [])
  | PyNone => false
  | PyBool b => b
  | PyInt n => negb (n =? 0)
  | PyBytes b => negb (str_eqb b [])
  | PyList l => match l with [] => false | _ => true end
  end.

(** [for x in o]: the elements of [o]. *)
Definition py_iter (o : pyobj) : result (list pyobj) :=
  match o with
  | PyStr s => Ok (map (fun c => PyStr [c]) s)
  | PyList l => Ok (map PyStr l)
  | PyBytes b => Ok (map (fun c => PyInt (Z.of_N (code c))) b)
  | _ => Raise TypeError
  end.

(** [o[0]]. *)
Definition py_first (o : pyobj) : result pyobj :=
  let* elements := py_iter o in
  match elements with
  | x :: _ => Ok x
  | [] => Raise IndexError
  end.

Section WithRuntime.

Variable runtime : Runtime.

(** A value in an f-string or as an argument of [str.format]. *)
Definition render (o : pyobj) : pystr :=
  match o with
  | PyStr s => s
  | _ => pyrepr runtime o
  end.

(** [os.path.relpath(f_abs, cwd)]; [None] as start is the current
    directory. What it does on arguments that are not strings depends
    on the platform and is left to the runtime. *)
Definition os_path_relpath (f_abs cwd : pyobj) : result pystr :=
  match f_abs, cwd with
  | PyStr f, PyStr d => relpath runtime f d
  | PyStr f, PyNone => relpath runtime f (py ".")
  | _, _ => relpath_other runtime f_abs cwd
  end.

(** The body of the loop over the detected files: the path shown in the
    prompt for [f_abs]. *)
Definition path_for_prompt (f_abs cwd : pyobj) : result pyobj :=
  match os_path_relpath f_abs cwd with
  | Ok rel_path =>
      if (length rel_path <? length (render f_abs))%nat
         && negb (contains (py "../") (drop 3 rel_path))
      then Ok (PyStr rel_path)
      else Ok f_abs
  | Raise (ValueError _) => Ok f_abs
  | Raise e => Raise e
  end.

Fixpoint paths_for_prompt (files : list pyobj) (cwd : pyobj)
  : result (list pyobj) :=
  match files with
  | [] => Ok []
  | f_abs :: files' =>
      let* p := path_for_prompt f_abs cwd in
      let* ps := paths_for_prompt files' cwd in
      Ok (p :: ps)
  end.

(** [CommandGenerator._format_file_context]. *)
Definition _format_file_context (system_context : context) : result pystr :=
  let file_context_lines := [[LF] ++ py "FILE CONTEXT:"] in
  let explicit_file := get system_context "explicit_input_file" in
  let detected_files := get system_context "detected_files_in_directory" in
  let cwd := get_default system_context "current_directory" (PyStr (py ".")) in
  let file_context_lines :=
    if truthy explicit_file
    then file_context_lines
         ++ [py "- Explicit input file provided: '" ++ render explicit_file
             ++ py "' (Use this exact path)"]
    else file_context_lines in
  let* file_context_lines :=
    (if truthy detected_files then
       let* files := py_iter detected_files in
       let* relative_files_for_prompt := paths_for_prompt files cwd in
       let files_list_str :=
         join (py ", ")
           (map (fun f => [SQUOTE] ++ render f ++ [SQUOTE])
              relative_files_for_prompt) in
       let* first := py_first detected_files in
       Ok (file_context_lines
           ++ [py "- Media files found in directory '" ++ render cwd
               ++ py "': " ++ files_list_str]
           ++ [py "- Note: In the generated command, use full absolute paths for these files where necessary (e.g., '"
               ++ render first ++ py "' ...)."])
     else Ok file_context_lines) in
  let summary_msg :=
    get_default system_context "file_context_message" (PyStr []) in
  let file_context_lines :=
    if truthy summary_msg && negb (truthy explicit_file)
       && negb (truthy detected_files)
    then file_context_lines
         ++ [py "- Additional context: " ++ render summary_msg]
    else if negb (truthy explicit_file) && negb (truthy detected_files)
    then file_context_lines
         ++ [py "- No specific input file provided or common media files detected in the directory '"
             ++ render cwd ++ py "'."]
    else file_context_lines in
  Ok (if (1 <? length file_context_lines)%nat
      then join [LF] file_context_lines
      else []).

(** [template.format] with keyword arguments [kwargs]: a field that no keyword argument names
    raises [KeyError] with the name of the field, at once. *)
Fixpoint format (template : list template_item)
    (kwargs : list (string * pyobj)) : result pystr :=
  match template with
  | [] => Ok []
  | Literal text :: template' =>
      let* tail := format template' kwargs in
      Ok (text ++ tail)
  | Field name :: template' =>
      match List.find (fun kv => String.eqb (fst kv) (keyword_name name)) kwargs with
      | Some (_, value) =>
          let* tail := format template' kwargs in
          Ok (render value ++ tail)
      | None =>
          Raise (KeyError (py (keyword_name name)))
      end
  end.

Definition system_message (content : pystr) : message :=
  {[ "role" := py "system"; "content" := content ]}.

(** [msg.get(key)] is true: the key is there with a non-empty string. *)
Definition has_content (msg : message) : bool :=
  match msg !! "content" with
  | Some (_ :: _) => true
  | _ => false
  end.

(** [CommandGenerator._prepare_llm_messages]. *)
Definition _prepare_llm_messages (self : generator)
    (conversation_history : list message) (system_context : context)
  : result (list message) :=
  let* file_context_str := _format_file_context system_context in
  let* formatted_system_prompt :=
    match
      format (system_prompt_template self)
        [("os_info", get_default system_context "os_info" (PyStr (py "Unknown")));
         ("os_type", get_default system_context "os_type" (PyStr (py "Unknown")));
         ("shell", get_default system_context "shell" (PyStr (py "Unknown")));
         ("ffmpeg_version",
          get_default system_context "ffmpeg_version" (PyStr (py "Unknown")));
         ("ffmpeg_executable_path",
          get_default system_context "ffmpeg_executable_path" (PyStr (py "ffmpeg")));
         ("current_directory",
          get_default system_context "current_directory" (PyStr (py ".")));
         ("file_context", PyStr file_context_str)]
    with
    | Ok prompt => Ok prompt
    | Raise (KeyError key) =>
        (* the text of a KeyError is repr of the key: a keyword name
           between single quotes *)
        Raise (ValueError
                 (py "System context dictionary is missing required key: '"
                  ++ key ++ [SQUOTE]))
    | Raise e => Raise e
    end in
  let messages := [system_message formatted_system_prompt] in
  let valid_history := List.filter has_content conversation_history in
  Ok (messages ++ valid_history).

(** The JSON text that [_call_llm_api] returns for an empty content. *)
Definition empty_content_json : pystr :=
  py "{" ++ [DQUOTE] ++ py "explanation" ++ [DQUOTE] ++ py ": ["
  ++ [DQUOTE] ++ py "LLM returned empty content." ++ [DQUOTE] ++ py "], "
  ++ [DQUOTE] ++ py "command" ++ [DQUOTE] ++ py ": " ++ [DQUOTE; DQUOTE]
  ++ py "}".

Section WithLLM.

Context {Session : Type} (llm : LLM Session).

(** [CommandGenerator._call_llm_api]: the result and the session after
    the call. *)
Definition _call_llm_api (self : generator) (messages : list message)
    (s : Session) : result pystr * Session :=
  match chat_completions_create llm s (model self) messages with
  | (Responds content, s') =>
      match content with
      | Some ((_ :: _) as content) => (Ok content, s')
      | _ => (Ok empty_content_json, s')
      end
  | (Fails e, s') => (Raise e, s')
  end.

(** [CommandGenerator.generate_command]: the result, the session, and
    the requests sent to the model. *)
Definition generate_command (self : generator)
    (conversation_history : list message) (system_context : context)
    (s : Session) : result pystr * Session * list (list message) :=
  match _prepare_llm_messages self conversation_history system_context with
  | Raise e => (Raise e, s, [])
  | Ok messages =>
      let (raw_llm_response, s') := _call_llm_api self messages s in
      (raw_llm_response, s', [messages])
  end.

End WithLLM.

End WithRuntime.

(** The removal of the fence in [clean_json_response]. *)
Definition remove_fence (response_str : pystr) : pystr :=
  match match_fence response_str with
  | Some group1 => strip group1
  | None => response_str
  end.

(** The [try] of [clean_json_response] and its [except ValueError]. *)
Definition slice_json_object (response_str : pystr) : result pystr :=
  match
    (let* start_index := CommandGenerator.str_index "{" response_str in
     let* end_index := CommandGenerator.str_rindex "}" response_str in
     Ok (slice start_index (end_index + 1) response_str))
  with
  | Ok sliced => Ok sliced
  | Raise (ValueError _) => Ok response_str
  | Raise e => Raise e
  end.

(** [CommandGenerator.clean_json_response]. *)
Definition clean_json_response (response_str : pyobj) : result pystr :=
  match response_str with
  | PyStr response_str =>
      let response_str := strip response_str in
      let response_str := remove_fence response_str in
      slice_json_object response_str
  | _ => Ok []
  end.

End AppCommandGenerator.

(* ================================================================== *)
(** * The vocabulary of the theorems

    The classifier as the specification words it, to compare with the
    one of the source, and the properties of commands, tokens, filter
    values and traces in which the theorems are stated. *)

Module Spec.

Import CommandExecutor.

(** The variable expansion rule as the specification words it: a dollar
    sign followed immediately by an opening brace or by an alphanumeric
    token. *)
Fixpoint dollar_then_brace_or_alnum (command : pystr) : bool :=
  match command with
  | "$"%char :: ((c :: _) as rest) =>
      Ascii.eqb c "{" || isalnum_char c || dollar_then_brace_or_alnum rest
  | _ :: rest => dollar_then_brace_or_alnum rest
  | [] => false
  end.

(** A token in the style of a Windows variable: a percent sign, one or
    more alphanumeric characters, a percent sign. *)
Fixpoint percent_name_percent (command : pystr) : bool :=
  match command with
  | "%"%char :: rest =>
      (let (name, after) := Regex.span isalnum_char rest in
       match name, after with
       | _ :: _, "%"%char :: _ => true
       | _, _ => false
       end)
      || percent_name_percent rest
  | _ :: rest => percent_name_percent rest
  | [] => false
  end.

(** The classifier of the specification. *)
Definition looksLikeShellScript (windows : bool) (command : pystr) : bool :=
  existsb (fun kw => startswith kw (strip (lower command)))
    [py "for "; py "while "; py "if "; py "case "]
  || existsb (fun op => contains op command)
       [py ";"; py "&&"; py "||"; py "|"; py ">"; py "<"; py "`"]
  || dollar_then_brace_or_alnum command
  || (windows && percent_name_percent command).

(** The 256 characters. *)
Definition all_chars : list ascii := map ascii_of_nat (seq 0 256).

(** The first word of [s], when [word] has been read before [s]. *)
Definition first_word_after (word s : pystr) : pystr :=
  word ++ fst (Regex.span (fun c => negb (isspace c)) s).

(** What [s.split()] starts with: nothing when [s] is blank, else the
    first maximal run of characters that are not whitespace. *)
Inductive first_word : pystr -> option pystr -> Prop :=
| first_word_none blanks :
    Forall (fun c => isspace c = true) blanks ->
    first_word blanks None
| first_word_some blanks word rest :
    Forall (fun c => isspace c = true) blanks ->
    word <> [] ->
    Forall (fun c => isspace c = false) word ->
    (rest = [] \/ exists c rest', rest = c :: rest' /\ isspace c = true) ->
    first_word (blanks ++ word ++ rest) (Some word).

(** The conditions under which the classifier of the source answers
    true, stated on the command itself. *)

Definition starts_with_keyword (command : pystr) : Prop :=
  exists kw rest,
    In kw [py "for "; py "while "; py "if "; py "case "] /\
    strip (lower command) = kw ++ rest.

Definition has_operator (command : pystr) : Prop :=
  exists op pre post,
    In op [py ";"; py "&&"; py "||"; py "|"; py ">"; py "<"; py "`"] /\
    command = pre ++ op ++ post.

(** A dollar sign, and an opening brace anywhere or an alphanumeric
    first word in what follows the last dollar sign. *)
Definition has_expansion (command : pystr) : Prop :=
  In "$"%char command /\
  (In "{"%char command \/
   exists pre tail word,
     command = pre ++ "$"%char :: tail /\ ~ In "$"%char tail /\
     first_word tail (Some word) /\ isalnum word = true).

(** At least two percent signs, with a non-empty alphanumeric text
    between the first two. *)
Definition has_percent_variable (command : pystr) : Prop :=
  exists a name b,
    command = a ++ "%"%char :: name ++ "%"%char :: b /\
    ~ In "%"%char a /\ isalnum name = true.

(** The extension that [update_output_filename] gives the new output
    name, in the three cases of the specification: the desired
    extension when one is given, else the extension of the input when
    it is that of a still image, else the extension of the old output
    name. *)
Inductive chosen_extension (os_path : OsPath)
    (output_token input_file : pystr) : option pystr -> pystr -> Prop :=
| extension_desired ext :
    ext <> [] ->
    chosen_extension os_path output_token input_file (Some ext) ext
| extension_of_image desired_ext :
    desired_ext = None \/ desired_ext = Some [] ->
    In (lower (snd (splitext os_path input_file))) (IMAGE_EXTENSIONS os_path) ->
    chosen_extension os_path output_token input_file desired_ext
      (snd (splitext os_path input_file))
| extension_of_output desired_ext :
    desired_ext = None \/ desired_ext = Some [] ->
    ~ In (lower (snd (splitext os_path input_file))) (IMAGE_EXTENSIONS os_path) ->
    chosen_extension os_path output_token input_file desired_ext
      (snd (splitext os_path output_token)).

(** The span of the claim as it is worded: [r] is the part of [t] from
    its first opening brace to its last closing brace, both included. *)
Definition span_as_claimed (t r : pystr) : Prop :=
  exists before body after,
    t = before ++ r ++ after /\ r = "{"%char :: body ++ ["}"%char] /\
    ~ In "{"%char before /\ ~ In "}"%char after.

(** The result [r] of the sanitizer on the trimmed, unfenced string
    [t], as the amended claim words it: the span from the first opening
    brace to the last closing brace, both included, when the first
    opening brace comes before the last closing one; the empty string
    when the last closing brace comes before the first opening one; and
    [t] itself when either brace is absent. *)
Definition json_span (t r : pystr) : Prop :=
  (forall pre body post,
     t = pre ++ "{"%char :: body ++ "}"%char :: post ->
     ~ In "{"%char pre -> ~ In "}"%char post ->
     r = "{"%char :: body ++ ["}"%char]) /\
  (forall pre post,
     t = pre ++ "{"%char :: post ->
     ~ In "{"%char pre -> In "}"%char pre -> ~ In "}"%char post ->
     r = []) /\
  (~ In "{"%char t \/ ~ In "}"%char t -> r = t).

(** A call that does not raise [ValueError]. *)
Definition not_value_error {A} (r : result A) : Prop :=
  forall msg, r <> Raise (ValueError msg).

(** The names that [_prepare_llm_messages] passes to [format], and the
    templates that name no other field. *)
Definition prompt_fields : list string :=
  ["os_info"; "os_type"; "shell"; "ffmpeg_version";
   "ffmpeg_executable_path"; "current_directory"; "file_context"]%string.

Definition names_only (names : list string)
    (item : AppCommandGenerator.template_item) : Prop :=
  match item with
  | AppCommandGenerator.Literal _ => True
  | AppCommandGenerator.Field name =>
      In (AppCommandGenerator.keyword_name name) names
  end.

(** A quoted video-filter argument at the start of a string: [-vf],
    whitespace, a quote, a value that holds neither that quote nor a
    line feed, and the same quote. *)
Inductive vf_argument : pystr -> Regex.vf_match -> Prop :=
| vf_argument_intro ws q filters rest :
    ws <> [] ->
    Forall (fun c => isspace c = true) ws ->
    q = SQUOTE \/ q = DQUOTE ->
    ~ In q filters -> ~ In LF filters ->
    vf_argument (py "-vf" ++ ws ++ q :: filters ++ q :: rest)
      {| Regex.vf_prefix := py "-vf" ++ ws; Regex.vf_quote := q;
         Regex.vf_filters := filters; Regex.vf_rest := rest |}.

(** The first quoted video-filter argument of a command, after the
    text [before], and the commands that have none. *)
Definition first_vf_argument (command before : pystr) (m : Regex.vf_match)
  : Prop :=
  exists s,
    command = before ++ s /\ vf_argument s m /\
    forall before' s' m',
      command = before' ++ s' -> vf_argument s' m' ->
      (length before <= length before')%nat.

Definition no_vf_argument (command : pystr) : Prop :=
  forall before s m, command = before ++ s -> ~ vf_argument s m.

(** A construct [scale=min(args)] at the start of a string, letter case
    and the whitespace around the equals sign apart. *)
Inductive scale_min_here : pystr -> pystr -> pystr -> Prop :=
| scale_min_intro kw ws1 ws2 fn args rest :
    lower kw = py "scale" ->
    Forall (fun c => isspace c = true) ws1 ->
    Forall (fun c => isspace c = true) ws2 ->
    lower fn = py "min" ->
    args <> [] -> ~ In ")"%char args ->
    scale_min_here
      (kw ++ ws1 ++ "="%char :: ws2 ++ fn ++ "("%char :: args ++ ")"%char :: rest)
      args rest.

(** A filter value and the same value with every such construct
    rewritten, from left to right, so that single quotes wrap its
    [min(args)]. *)
Inductive scale_rewritten : pystr -> pystr -> Prop :=
| rewritten_end : scale_rewritten [] []
| rewritten_construct s args rest rest' :
    scale_min_here s args rest ->
    scale_rewritten rest rest' ->
    scale_rewritten s (py "scale='min(" ++ args ++ py ")'" ++ rest')
| rewritten_char c s s' :
    (forall args rest, ~ scale_min_here (c :: s) args rest) ->
    scale_rewritten s s' ->
    scale_rewritten (c :: s) (c :: s').

(** A filter value in which the arguments of every construct
    [scale=min(args)] hold no opening parenthesis: the first closing
    parenthesis after [min(] is then the one that closes it. *)
Definition flat_scale_arguments (filters : pystr) : Prop :=
  forall before s args rest,
    filters = before ++ s -> scale_min_here s args rest ->
    ~ In "("%char args.

(** The characters that [re.sub] reads as an escape when they follow a
    backslash in a replacement string: the ASCII letters, the digits
    and the backslash. *)
Definition template_escape (c : ascii) : bool :=
  is_ascii_upper c || is_ascii_lower c || is_ascii_digit c
  || Ascii.eqb c BACKSLASH.

(** A text whose first character other than a double quote, when there
    is one, is none of them. *)
Definition kept_head_plain (s : pystr) : Prop :=
  forall c rest, remove_char DQUOTE s = c :: rest -> template_escape c = false.

(** A filter value in which no backslash comes before such a character,
    the double quotes, which are stripped, apart. *)
Definition plain_backslashes (filters : pystr) : Prop :=
  forall before after,
    filters = before ++ BACKSLASH :: after -> kept_head_plain after.

(** The number of attempts and the sleeps that a trace of
    [execute_with_retries] shows. *)
Definition attempts (trace : list event) : nat :=
  length (List.filter (fun e => match e with Attempt _ => true | _ => false end) trace).

Definition sleeps (trace : list event) : list Z :=
  flat_map (fun e => match e with Sleep s => [s] | _ => [] end) trace.

End Spec.

(* ================================================================== *)
(** * Hosts, generators and commands of the examples *)

Module Scenario.

Import CommandExecutor.

(** A host on which no executable resolves and every launch fails with
    [FileNotFoundError]. *)
Definition bare_host : Host unit := {|
  platform_system := py "Linux";
  shutil_which := fun _ _ => None;
  subprocess_run := fun w _ =>
    (RaisesFileNotFoundError (py "[Errno 2] No such file or directory"), w);
  time_sleep := fun w _ => w
|}.

(** A host on which the executable is on the search path without the
    permission to execute it: it does not resolve, and every launch
    fails with [PermissionError]. *)
Definition denied_host : Host unit := {|
  platform_system := py "Linux";
  shutil_which := fun _ _ => None;
  subprocess_run := fun w _ =>
    (RaisesException (py "[Errno 13] Permission denied: 'tool'"), w);
  time_sleep := fun w _ => w
|}.

(** A host on which every launch runs and exits with status 1; the
    world counts the launches, and the error output names the count. *)
Definition failing_host : Host nat := {|
  platform_system := py "Linux";
  shutil_which := fun _ executable => Some (py "/usr/bin/" ++ executable);
  subprocess_run := fun launches _ =>
    (Completed 1 [] (py "failure " ++ str_of_Z (Z.of_nat launches)), S launches);
  time_sleep := fun launches _ => launches
|}.

(** A POSIX host with two still-image extensions. *)
Definition posix_path : OsPath := {|
  splitext := posix_splitext;
  basename := posix_basename;
  IMAGE_EXTENSIONS := [py ".jpg"; py ".png"]
|}.

(** A runtime, a generator whose template names the seven fields, and a
    model that answers every request with the same JSON text and counts
    the requests. *)
Definition plain_runtime : AppCommandGenerator.Runtime := {|
  AppCommandGenerator.relpath := fun f_abs _ => Ok f_abs;
  AppCommandGenerator.relpath_other := fun _ _ => Raise TypeError;
  AppCommandGenerator.pyrepr := fun _ => py "<object>"
|}.

Definition full_template : list AppCommandGenerator.template_item :=
  [AppCommandGenerator.Literal (py "OS: ");
   AppCommandGenerator.Field (AppCommandGenerator.Keyword "os_info" I);
   AppCommandGenerator.Literal (py " (");
   AppCommandGenerator.Field (AppCommandGenerator.Keyword "os_type" I);
   AppCommandGenerator.Literal (py "), shell ");
   AppCommandGenerator.Field (AppCommandGenerator.Keyword "shell" I);
   AppCommandGenerator.Literal (py ", ffmpeg ");
   AppCommandGenerator.Field (AppCommandGenerator.Keyword "ffmpeg_version" I);
   AppCommandGenerator.Literal (py " at ");
   AppCommandGenerator.Field (AppCommandGenerator.Keyword "ffmpeg_executable_path" I);
   AppCommandGenerator.Literal (py ", in ");
   AppCommandGenerator.Field (AppCommandGenerator.Keyword "current_directory" I);
   AppCommandGenerator.Field (AppCommandGenerator.Keyword "file_context" I)].

Definition a_generator : AppCommandGenerator.generator := {|
  AppCommandGenerator.model := py "gpt-4o-mini";
  AppCommandGenerator.system_prompt_template := full_template
|}.

Definition model_reply : pystr := py "{command}".

Definition counting_llm : AppCommandGenerator.LLM nat := {|
  AppCommandGenerator.chat_completions_create :=
    fun requests _ _ => (AppCommandGenerator.Responds (Some model_reply), S requests)
|}.

(** The system prompt that [full_template] gives for an empty system
    context. *)
Definition default_prompt : pystr :=
  py "OS: Unknown (Unknown), shell Unknown, ffmpeg Unknown at ffmpeg, in ."
  ++ [LF] ++ py "FILE CONTEXT:" ++ [LF]
  ++ py "- No specific input file provided or common media files detected in the directory '.'.".

Definition user_turn : AppCommandGenerator.message :=
  {[ "role" := py "user"; "content" := py "make a gif of clip.mp4" ]}.

(** A string in double quotes. *)
Definition quoted (s : pystr) : pystr := [DQUOTE] ++ s ++ [DQUOTE].

(** The command of the end-to-end example of the specification. *)
Definition scale_command : pystr :=
  py "ffmpeg -i input.mp4 -vf " ++ quoted (py "scale=min(1280,iw):-2")
  ++ py " out.mp4".

(** A command whose video-filter value holds a backslash before a
    letter. *)
Definition backslash_command : pystr :=
  py "ffmpeg -i input.mp4 -vf "
  ++ quoted (py "scale=min(1280,iw):-2,drawtext=text=\d") ++ py " out.mp4".

(** Commands whose video-filter value holds a backslash before a
    digit, two backslashes, a backslash before a comma, and a scale
    construct with a call inside its arguments. *)
Definition digit_command : pystr :=
  py "ffmpeg -i input.mp4 -vf "
  ++ quoted (py "scale=min(1280,iw):-2,drawtext=text=\1") ++ py " out.mp4".

Definition two_backslashes_command : pystr :=
  py "ffmpeg -i input.mp4 -vf "
  ++ quoted (py "scale=min(1280,iw):-2,drawtext=text=a\\b") ++ py " out.mp4".

Definition comma_command : pystr :=
  py "ffmpeg -i input.mp4 -vf "
  ++ quoted (py "scale=min(1280\,iw):-2") ++ py " out.mp4".

Definition nested_command : pystr :=
  py "ffmpeg -i input.mp4 -vf "
  ++ quoted (py "scale=min(iw,max(640,ih)):-2") ++ py " out.mp4".

(** A command with two video-filter arguments, of which only the second
    holds a scale construct. *)
Definition two_filters_command : pystr :=
  py "ffmpeg -i input.mp4 -vf " ++ quoted (py "hflip") ++ py " -vf "
  ++ quoted (py "scale=min(1280,iw):-2") ++ py " out.mp4".

End Scenario.

(* ================================================================== *)
(** * Further vocabulary: launches and traces *)

Module Shapes.

Import CommandExecutor Spec.

(** How [run_command] launches a command: as a shell line when the
    classifier asks for the shell, else as the vector of its tokens,
    which is then not empty. *)
Definition launched_as {World} (host : Host World) (command : pystr)
    (arg : run_arg) : Prop :=
  (_looks_like_shell_script (platform_system host) command = Ok true /\
   arg = ShellLine command) \/
  (_looks_like_shell_script (platform_system host) command = Ok false /\
   exists executable rest,
     shlex_split command = Ok (executable :: rest) /\
     arg = Argv (executable :: rest)).

(** The trace of [k] attempts in a row: the attempts numbered from 1,
    and before every attempt but the first a sleep of 2 to the power of
    the number of the attempt before. *)
Fixpoint backoff_trace (k : nat) : list event :=
  match k with
  | O => []
  | S k' =>
      backoff_trace k'
      ++ match k' with
         | O => []
         | S _ => [Sleep (2 ^ Z.of_nat k')]
         end
      ++ [Attempt (Z.of_nat k' + 1)]
  end.

(** The trace at the head of the loop when [a] attempts were made: the
    sleep that follows the last attempt is there when another attempt
    remains. *)
Definition trace_at_head (max_exec_retries : Z) (a : nat) (trace : list event)
  : Prop :=
  Z.of_nat a <= Z.max 0 max_exec_retries /\
  ((Z.of_nat a < max_exec_retries /\
    trace = backoff_trace a
            ++ match a with
               | O => []
               | S _ => [Sleep (2 ^ Z.of_nat a)]
               end) \/
   (max_exec_retries <= Z.of_nat a /\ trace = backoff_trace a)).

(** The sleeps between [k] attempts: 2, 4, ..., 2 to the power k - 1. *)
Definition backoff_sleeps (k : nat) : list Z :=
  map (fun i => 2 ^ Z.of_nat i) (seq 1 (k - 1)).

(** An input designator, as [replace_placeholder_with_file] tests it. *)
Definition is_input_designator (token : pystr) : bool :=
  str_eqb (lower token) (py "-i").

(** A filter value without a construct [scale=min(args)] at any place. *)
Definition no_scale_min (filters : pystr) : Prop :=
  forall before s args rest,
    filters = before ++ s -> ~ scale_min_here s args rest.

(** A string that neither starts nor ends with whitespace. *)
Definition trimmed (s : pystr) : Prop :=
  forall c, head s = Some c \/ last s = Some c -> isspace c = false.

(** A string that is a contiguous part of another. *)
Definition part_of (r s : pystr) : Prop :=
  exists before after, s = before ++ r ++ after.

(** Whitespace, as [str.strip] and the fence pattern see it. *)
Definition blank (ws : pystr) : Prop := Forall (fun c => isspace c = true) ws.

End Shapes.

(* ================================================================== *)
(** * Further hosts of the examples *)

Module MoreScenarios.

Import CommandExecutor.

(** A host on which every launch succeeds and prints a line. *)
Definition succeeding_host : Host nat := {|
  platform_system := py "Linux";
  shutil_which := fun _ executable => Some (py "/usr/bin/" ++ executable);
  subprocess_run := fun launches _ =>
    (Completed 0 (py "done" ++ [LF]) [], S launches);
  time_sleep := fun launches _ => launches
|}.

(** A host on which every launch times out. *)
Definition hanging_host : Host nat := {|
  platform_system := py "Linux";
  shutil_which := fun _ executable => Some (py "/usr/bin/" ++ executable);
  subprocess_run := fun launches _ => (RaisesTimeoutExpired, S launches);
  time_sleep := fun launches _ => launches
|}.


(** A host whose shell finds no file for a pattern: every launch exits
    with status 1 and the complaint of the shell. *)
Definition globbing_host : Host unit := {|
  platform_system := py "Darwin";
  shutil_which := fun _ executable => Some (py "/usr/bin/" ++ executable);
  subprocess_run := fun w _ =>
    (Completed 1 [] (py "zsh: no matches found: *.mov" ++ [LF]), w);
  time_sleep := fun w _ => w
|}.

(** A runtime whose [relpath] strips the directory from a path below
    it and raises ValueError for any other path, as [os.path.relpath]
    does on Windows for a path on another drive. *)
Definition drive_runtime : AppCommandGenerator.Runtime := {|
  AppCommandGenerator.relpath := fun f_abs cwd =>
    if startswith (cwd ++ py "/") f_abs
    then Ok (drop (length cwd + 1) f_abs)
    else Raise (ValueError (py "path is on another mount"));
  AppCommandGenerator.relpath_other := fun _ _ => Raise TypeError;
  AppCommandGenerator.pyrepr := fun _ => py "<object>"
|}.

(** A system context with an explicit file and a summary message, and
    one with two detected files, of which one is below the current
    directory. *)
Definition explicit_context : AppCommandGenerator.context :=
  {[ "explicit_input_file" := PyStr (py "/v/a.mp4");
     "file_context_message" := PyStr (py "one file given") ]}.

Definition detected_context : AppCommandGenerator.context :=
  {[ "detected_files_in_directory" := PyList [py "/v/a.mp4"; py "/w/b.mp4"];
     "current_directory" := PyStr (py "/v") ]}.

(** A generator whose template names a field that is none of the
    seven. *)
Definition odd_generator : AppCommandGenerator.generator := {|
  AppCommandGenerator.model := py "gpt-4o-mini";
  AppCommandGenerator.system_prompt_template :=
    [AppCommandGenerator.Literal (py "OS: ");
     AppCommandGenerator.Field (AppCommandGenerator.Keyword "os_info" I);
     AppCommandGenerator.Literal (py ", user ");
     AppCommandGenerator.Field (AppCommandGenerator.Keyword "user_name" I);
     AppCommandGenerator.Field (AppCommandGenerator.Keyword "file_context" I)]
|}.

(** A model that answers without content, and one that refuses every
    request; both count the requests. *)
Definition silent_llm : AppCommandGenerator.LLM nat := {|
  AppCommandGenerator.chat_completions_create :=
    fun requests _ _ => (AppCommandGenerator.Responds None, S requests)
|}.

Definition refusing_llm : AppCommandGenerator.LLM nat := {|
  AppCommandGenerator.chat_completions_create :=
    fun requests _ _ =>
      (AppCommandGenerator.Fails (OtherException (py "rate limit reached")),
       S requests)
|}.

End MoreScenarios.


Import Spec.

(* ================================================================== *)
(** * Facts about strings *)

Section StringFacts.

(** A property of characters holds when it holds of the 256 of them. *)
Lemma forall_chars (p : ascii -> bool) :
  forallb p all_chars = true -> forall c, p c = true.
Proof.
  intros H c. rewrite forallb_forall in H. apply H.
  rewrite <- (ascii_nat_embedding c). unfold all_chars.
  apply in_map. apply in_seq. pose proof (nat_ascii_bounded c). lia.
Qed.

Lemma isalnum_not_space c : isalnum_char c = true -> isspace c = false.
Proof.
  intros H.
  pose proof (forall_chars (fun c => implb (isalnum_char c) (negb (isspace c)))
                eq_refl c) as Hc.
  simpl in Hc. rewrite H in Hc. simpl in Hc.
  apply negb_true_iff. exact Hc.
Qed.

Lemma startswith_spec (p s : pystr) :
  startswith p s = true <-> exists rest, s = p ++ rest.
Proof.
  revert s; induction p as [|x p IH]; intros s; simpl.
  - split; [intros _; exists s; reflexivity | reflexivity].
  - destruct s as [|y s].
    + split; [discriminate | intros [r Hr]; discriminate Hr].
    + rewrite andb_true_iff, Ascii.eqb_eq, IH. split.
      * intros [-> [r ->]]. exists r. reflexivity.
      * intros [r Hr]. injection Hr as -> ->.
        split; [reflexivity | exists r; reflexivity].
Qed.

Lemma contains_spec (p s : pystr) :
  contains p s = true <-> exists pre post, s = pre ++ p ++ post.
Proof.
  induction s as [|c s IH]; simpl.
  - rewrite orb_false_r, startswith_spec. split.
    + intros [r Hr]. exists [], r. exact Hr.
    + intros [pre [post H]].
      destruct pre; [exists post; exact H | discriminate H].
  - rewrite orb_true_iff, startswith_spec, IH. split.
    + intros [[r Hr] | [pre [post H]]].
      * exists [], r. exact Hr.
      * exists (c :: pre), post. rewrite H. reflexivity.
    + intros [pre [post H]]. destruct pre as [|d pre].
      * left. exists post. exact H.
      * right. injection H as _ H. exists pre, post. exact H.
Qed.

Lemma contains_char (c : ascii) (s : pystr) :
  contains [c] s = true <-> In c s.
Proof.
  rewrite contains_spec. split.
  - intros [pre [post ->]]. apply in_or_app. right. left. reflexivity.
  - intros H. apply in_split in H as [pre [post ->]].
    exists pre, post. reflexivity.
Qed.

Lemma contains_char_false (c : ascii) (s : pystr) :
  contains [c] s = false <-> ~ In c s.
Proof.
  rewrite <- contains_char. destruct (contains [c] s); split; intros H;
    try reflexivity; try discriminate; try (intros H'; discriminate H').
  exfalso. apply H. reflexivity.
Qed.

(** ** [str.split(sep)] *)

Lemma split_char_acc_no_sep sep piece s :
  ~ In sep s -> split_char_acc sep piece s = [piece ++ s].
Proof.
  revert piece; induction s as [|c s IH]; intros piece Hn; simpl.
  - rewrite app_nil_r. reflexivity.
  - destruct (Ascii.eqb c sep) eqn:E.
    + apply Ascii.eqb_eq in E. subst. exfalso. apply Hn. left. reflexivity.
    + rewrite IH; [|intros H; apply Hn; right; exact H].
      rewrite <- app_assoc. reflexivity.
Qed.

Lemma split_char_acc_sep sep piece a r :
  ~ In sep a ->
  split_char_acc sep piece (a ++ sep :: r)
  = (piece ++ a) :: split_char_acc sep [] r.
Proof.
  revert piece; induction a as [|c a IH]; intros piece Hn; simpl.
  - rewrite Ascii.eqb_refl, app_nil_r. reflexivity.
  - destruct (Ascii.eqb c sep) eqn:E.
    + apply Ascii.eqb_eq in E. subst. exfalso. apply Hn. left. reflexivity.
    + rewrite IH; [|intros H; apply Hn; right; exact H].
      rewrite <- app_assoc. reflexivity.
Qed.

Lemma split_char_acc_nonempty sep piece s : split_char_acc sep piece s <> [].
Proof.
  revert piece; induction s as [|c s IH]; intros piece; simpl.
  - discriminate.
  - destruct (Ascii.eqb c sep); [discriminate | apply IH].
Qed.

(** A string has no separator or splits at its first one. *)
Lemma first_occurrence (sep : ascii) (s : pystr) :
  ~ In sep s \/ exists a r, s = a ++ sep :: r /\ ~ In sep a.
Proof.
  induction s as [|c s IH].
  - left. intros [].
  - destruct (Ascii.eqb c sep) eqn:E.
    + apply Ascii.eqb_eq in E. subst. right. exists [], s.
      split; [reflexivity | intros []].
    + apply Ascii.eqb_neq in E. destruct IH as [Hn | [a [r [-> Ha]]]].
      * left. intros [H|H]; [apply E; exact H | apply Hn; exact H].
      * right. exists (c :: a), r. split; [reflexivity|].
        intros [H|H]; [apply E; exact H | apply Ha; exact H].
Qed.

Lemma first_occurrence_unique (sep : ascii) a r a' r' :
  a ++ sep :: r = a' ++ sep :: r' ->
  ~ In sep a -> ~ In sep a' -> a = a' /\ r = r'.
Proof.
  revert a'. induction a as [|c a IH]; intros a' E Ha Ha'.
  - destruct a' as [|c' a']; simpl in E.
    + injection E as E. split; [reflexivity | exact E].
    + injection E as E _. exfalso. apply Ha'. left. symmetry. exact E.
  - destruct a' as [|c' a']; simpl in E.
    + injection E as E _. exfalso. apply Ha. left. exact E.
    + injection E as -> E.
      destruct (IH a' E) as [-> ->].
      * intros H. apply Ha. right. exact H.
      * intros H. apply Ha'. right. exact H.
      * split; reflexivity.
Qed.

Lemma last_occurrence (sep : ascii) (s : pystr) :
  In sep s -> exists pre tail, s = pre ++ sep :: tail /\ ~ In sep tail.
Proof.
  induction s as [|c s IH]; intros H; [destruct H|].
  destruct (in_dec ascii_dec sep s) as [Hin | Hnot].
  - destruct (IH Hin) as [pre [tail [-> Ht]]].
    exists (c :: pre), tail. split; [reflexivity | exact Ht].
  - destruct H as [-> | H]; [|contradiction].
    exists [], s. split; [reflexivity | exact Hnot].
Qed.

Lemma last_occurrence_unique (sep : ascii) pre tail pre' tail' :
  pre ++ sep :: tail = pre' ++ sep :: tail' ->
  ~ In sep tail -> ~ In sep tail' -> pre = pre' /\ tail = tail'.
Proof.
  revert pre'. induction pre as [|c pre IH]; intros pre' E Ht Ht'.
  - destruct pre' as [|c' pre']; simpl in E.
    + injection E as E. split; [reflexivity | exact E].
    + injection E as _ E. exfalso. apply Ht. rewrite E.
      apply in_or_app. right. left. reflexivity.
  - destruct pre' as [|c' pre']; simpl in E.
    + injection E as _ E. exfalso. apply Ht'. rewrite <- E.
      apply in_or_app. right. left. reflexivity.
    + injection E as -> E. destruct (IH pre' E Ht Ht') as [-> ->].
      split; reflexivity.
Qed.

Lemma last_cons_nonempty {A} (x : A) (l : list A) d :
  l <> [] -> List.last (x :: l) d = List.last l d.
Proof. destruct l; [contradiction | reflexivity]. Qed.

(** The last piece of a split is what follows the last separator. *)
Lemma split_char_acc_last sep piece pre tail :
  ~ In sep tail ->
  List.last (split_char_acc sep piece (pre ++ sep :: tail)) [] = tail.
Proof.
  revert piece. induction pre as [|c pre IH]; intros piece Ht; simpl.
  - rewrite Ascii.eqb_refl, split_char_acc_no_sep by exact Ht. reflexivity.
  - destruct (Ascii.eqb c sep).
    + rewrite last_cons_nonempty by apply split_char_acc_nonempty.
      apply IH. exact Ht.
    + apply IH. exact Ht.
Qed.

(** ** [str.split()] *)

Lemma split_ws_acc_word word s :
  word <> [] ->
  split_ws_acc word s
  = match s with
    | [] => [word]
    | c :: s' => if isspace c then word :: split_ws_acc [] s'
                 else split_ws_acc (word ++ [c]) s'
    end.
Proof. intros H. destruct s as [|c s]; destruct word; try contradiction; reflexivity. Qed.

Lemma split_ws_acc_first word s :
  word <> [] ->
  exists l, split_ws_acc word s = first_word_after word s :: l.
Proof.
  revert word. induction s as [|c s IH]; intros word Hw.
  - exists []. unfold first_word_after. simpl. rewrite app_nil_r.
    destruct word; [contradiction | reflexivity].
  - rewrite split_ws_acc_word by exact Hw.
    unfold first_word_after. simpl. destruct (isspace c); simpl.
    + rewrite app_nil_r. eexists. reflexivity.
    + destruct (IH (word ++ [c])) as [l Hl]; [destruct word; discriminate|].
      exists l. rewrite Hl. unfold first_word_after.
      destruct (Regex.span _ s). simpl. rewrite <- app_assoc. reflexivity.
Qed.

Lemma span_not_space_spec s :
  let (word, rest) := Regex.span (fun c => negb (isspace c)) s in
  s = word ++ rest /\ Forall (fun c => isspace c = false) word /\
  (rest = [] \/ exists c rest', rest = c :: rest' /\ isspace c = true).
Proof.
  induction s as [|c s IH]; simpl.
  - split; [reflexivity | split; [constructor | left; reflexivity]].
  - destruct (isspace c) eqn:E; simpl.
    + split; [reflexivity | split; [constructor|]].
      right. exists c, s. split; [reflexivity | exact E].
    + destruct (Regex.span _ s) as [word rest]. destruct IH as [-> [Hw Hr]].
      split; [reflexivity | split; [constructor; assumption | exact Hr]].
Qed.

Lemma split_ws_first_word s :
  first_word s (List.head (split_ws s)).
Proof.
  unfold split_ws. induction s as [|c s IH]; simpl.
  - apply (first_word_none []). constructor.
  - destruct (isspace c) eqn:E.
    + remember (List.head (split_ws_acc [] s)) as w eqn:Ew.
      destruct IH as [blanks Hb | blanks word rest Hb Hw Hns Hr].
      * apply (first_word_none (c :: blanks)). constructor; assumption.
      * apply (first_word_some (c :: blanks) word rest); try assumption.
        constructor; assumption.
    + destruct (split_ws_acc_first [c] s) as [l Hl]; [discriminate|].
      change ([] ++ [c]) with [c]. rewrite Hl. simpl.
      unfold first_word_after.
      pose proof (span_not_space_spec s) as Hs.
      destruct (Regex.span _ s) as [word rest]. destruct Hs as [-> [Hw Hr]].
      simpl. apply (first_word_some [] (c :: word) rest).
      * constructor.
      * discriminate.
      * constructor; assumption.
      * exact Hr.
Qed.

Lemma split_ws_acc_blanks blanks s :
  Forall (fun c => isspace c = true) blanks ->
  split_ws_acc [] (blanks ++ s) = split_ws_acc [] s.
Proof.
  induction 1 as [|c blanks Hc _ IH]; simpl; [reflexivity|].
  rewrite Hc. exact IH.
Qed.

Lemma span_not_space_app word rest :
  Forall (fun c => isspace c = false) word ->
  (rest = [] \/ exists c rest', rest = c :: rest' /\ isspace c = true) ->
  Regex.span (fun c => negb (isspace c)) (word ++ rest) = (word, rest).
Proof.
  intros Hw Hr. induction Hw as [|c word Hc _ IH]; simpl.
  - destruct Hr as [-> | [c [rest' [-> Hc]]]]; simpl; [reflexivity|].
    rewrite Hc. reflexivity.
  - rewrite Hc, IH. reflexivity.
Qed.

Lemma first_word_head s w : first_word s w -> List.head (split_ws s) = w.
Proof.
  unfold split_ws.
  intros [blanks Hb | blanks word rest Hb Hw Hns Hr].
  - rewrite <- (app_nil_r blanks), split_ws_acc_blanks by exact Hb. reflexivity.
  - rewrite split_ws_acc_blanks by exact Hb.
    destruct word as [|d word]; [contradiction|].
    inversion Hns as [|? ? Hd Hns']; subst. simpl. rewrite Hd.
    destruct (split_ws_acc_first [d] (word ++ rest)) as [l Hl]; [discriminate|].
    change ([] ++ [d]) with [d]. rewrite Hl. simpl.
    unfold first_word_after. rewrite span_not_space_app by assumption.
    reflexivity.
Qed.

Lemma first_word_unique s w1 w2 :
  first_word s w1 -> first_word s w2 -> w1 = w2.
Proof.
  intros H1 H2. apply first_word_head in H1, H2. congruence.
Qed.

End StringFacts.

(* ================================================================== *)
(** * The shell-requirement classifier *)

Section Classifier.

Import CommandExecutor.

Lemma isalnum_no_percent name : isalnum name = true -> ~ In "%"%char name.
Proof.
  intros H Hin. destruct name as [|c name]; [discriminate H|].
  unfold isalnum in H. rewrite forallb_forall in H.
  specialize (H _ Hin). discriminate H.
Qed.

Lemma keyword_check command :
  existsb (fun kw => startswith kw (strip (lower command)))
    [py "for "; py "while "; py "if "; py "case "] = true
  <-> starts_with_keyword command.
Proof.
  rewrite existsb_exists. unfold starts_with_keyword. split.
  - intros [kw [Hin H]]. apply startswith_spec in H as [rest H].
    exists kw, rest. split; assumption.
  - intros [kw [rest [Hin H]]]. exists kw. split; [exact Hin|].
    apply startswith_spec. exists rest. exact H.
Qed.

Lemma operator_check command :
  existsb (fun op => contains op command)
    [py ";"; py "&&"; py "||"; py "|"; py ">"; py "<"; py "`"] = true
  <-> has_operator command.
Proof.
  rewrite existsb_exists. unfold has_operator. split.
  - intros [op [Hin H]]. apply contains_spec in H as [pre [post H]].
    exists op, pre, post. split; assumption.
  - intros [op [pre [post [Hin H]]]]. exists op. split; [exact Hin|].
    apply contains_spec. exists pre, post. exact H.
Qed.

(** The test on the pieces between percent signs. *)
Lemma percent_check command :
  (2 <? length (split_char "%" command))%nat
  && isalnum (nth 1 (split_char "%" command) []) = true
  <-> has_percent_variable command.
Proof.
  unfold split_char, has_percent_variable. split.
  - intros H. apply andb_true_iff in H as [Hlen Hal].
    apply Nat.ltb_lt in Hlen.
    destruct (first_occurrence "%" command) as [Hn | [a [r [-> Ha]]]].
    { rewrite split_char_acc_no_sep in Hlen by exact Hn. simpl in Hlen. lia. }
    rewrite split_char_acc_sep in Hlen, Hal by exact Ha.
    destruct (first_occurrence "%" r) as [Hn | [name [b [-> Hname]]]].
    { rewrite split_char_acc_no_sep in Hlen by exact Hn. simpl in Hlen. lia. }
    rewrite split_char_acc_sep in Hal by exact Hname. simpl in Hal.
    exists a, name, b. split; [reflexivity | split; assumption].
  - intros [a [name [b [-> [Ha Hal]]]]].
    rewrite split_char_acc_sep by exact Ha.
    rewrite split_char_acc_sep by (apply isalnum_no_percent; exact Hal).
    simpl. rewrite Hal.
    pose proof (split_char_acc_nonempty "%" [] b) as Hne.
    destruct (split_char_acc "%" [] b); [contradiction | reflexivity].
Qed.

(** The test on what follows the last dollar sign, when it raises
    nothing. *)
Lemma dollar_tail_check command word words :
  In "$"%char command ->
  split_ws (List.last (split_char "$" command) []) = word :: words ->
  isalnum word = true <->
  exists pre tail word',
    command = pre ++ "$"%char :: tail /\ ~ In "$"%char tail /\
    first_word tail (Some word') /\ isalnum word' = true.
Proof.
  intros Hin Hsplit.
  destruct (last_occurrence "$" command Hin) as [pre [tail [-> Ht]]].
  unfold split_char in Hsplit. rewrite split_char_acc_last in Hsplit by exact Ht.
  pose proof (split_ws_first_word tail) as Hfw. rewrite Hsplit in Hfw. simpl in Hfw.
  split.
  - intros Hal. exists pre, tail, word. repeat split; assumption.
  - intros [pre' [tail' [word' [E [Ht' [Hfw' Hal]]]]]].
    destruct (last_occurrence_unique _ _ _ _ _ E Ht Ht') as [_ <-].
    pose proof (first_word_unique _ _ _ Hfw Hfw') as Heq.
    injection Heq as ->. exact Hal.
Qed.

Lemma str_eqb_eq (a b : pystr) : str_eqb a b = true <-> a = b.
Proof.
  revert b; induction a as [|x a IH]; intros [|y b]; simpl;
    try (split; [discriminate | discriminate]); [split; reflexivity|].
  rewrite andb_true_iff, Ascii.eqb_eq, IH. split.
  - intros [-> ->]. reflexivity.
  - intros [= -> ->]. split; reflexivity.
Qed.

(** The last test of the classifier, on percent signs. *)
Lemma percent_branch platform command b :
  (if contains (py "%") command && str_eqb platform (py "Windows")
   then if (2 <? length (split_char "%" command))%nat
           && isalnum (nth 1 (split_char "%" command) [])
        then Ok true else Ok false
   else Ok false) = Ok b ->
  b = true <-> platform = py "Windows" /\ has_percent_variable command.
Proof.
  pose proof (percent_check command) as Hpc.
  destruct (contains (py "%") command) eqn:Ep; simpl.
  - destruct (str_eqb platform (py "Windows")) eqn:Ew.
    + apply str_eqb_eq in Ew.
      destruct ((2 <? length (split_char "%" command))%nat
                && isalnum (nth 1 (split_char "%" command) [])) eqn:Ec;
        cbn iota; intros [= <-].
      * split; [intros _; split; [exact Ew | apply Hpc; reflexivity] | reflexivity].
      * split; [discriminate|]. intros [_ H]. apply Hpc in H. discriminate H.
    + cbn iota. intros [= <-]. split; [discriminate|]. intros [H _].
      apply str_eqb_eq in H. congruence.
  - intros [= <-]. split; [discriminate|]. intros [_ [a [name [r [-> _]]]]].
    apply (contains_char_false "%") in Ep. exfalso. apply Ep.
    apply in_or_app. right. left. reflexivity.
Qed.

(** X30. What the classifier computes. Whenever it returns, it returns
    true if and only if the lowercased, trimmed command starts with one
    of the four keywords and a space; or the command contains one of the
    seven operators; or it contains a dollar sign and either an opening
    brace anywhere or an alphanumeric first word after its last dollar
    sign; or the platform is Windows and the text between its first two
    percent signs is alphanumeric. It returns false on the first example
    of the specification and true on the second. *)
Theorem looks_like_shell_script_characterised platform command b :
  _looks_like_shell_script platform command = Ok b ->
  (b = true <->
   starts_with_keyword command \/ has_operator command
   \/ has_expansion command
   \/ (platform = py "Windows" /\ has_percent_variable command))
  /\ _looks_like_shell_script platform (py "ffmpeg -i a.mp4 out.mp4") = Ok false
  /\ _looks_like_shell_script platform
       (py "ffmpeg -i a.mp4 out.mp4 && echo done") = Ok true.
Proof.
  intros H. split; [|split; reflexivity].
  unfold _looks_like_shell_script in H.
  destruct (existsb _ [py "for "; _; _; _]) eqn:Ekw.
  { injection H as <-. apply keyword_check in Ekw.
    split; [intros _; left; exact Ekw | reflexivity]. }
  destruct (existsb _ [py ";"; _; _; _; _; _; _]) eqn:Eop.
  { injection H as <-. apply operator_check in Eop.
    split; [intros _; right; left; exact Eop | reflexivity]. }
  assert (Hkw : ~ starts_with_keyword command).
  { intros Hk. apply keyword_check in Hk. congruence. }
  assert (Hop : ~ has_operator command).
  { intros Ho. apply operator_check in Ho. congruence. }
  destruct (contains (py "$") command) eqn:Ed.
  - apply (contains_char "$") in Ed.
    destruct (contains (py "{") command) eqn:Eb.
    + simpl in H. injection H as <-. apply (contains_char "{") in Eb.
      split; [intros _ | reflexivity].
      right. right. left. split; [exact Ed | left; exact Eb].
    + apply (contains_char_false "{") in Eb.
      destruct (split_ws _) as [|word words] eqn:Esw; [discriminate H|].
      pose proof (dollar_tail_check command word words Ed Esw) as Hdt.
      simpl in H. destruct (isalnum word) eqn:Eal.
      * injection H as <-. split; [intros _ | reflexivity].
        right. right. left. split; [exact Ed | right; apply Hdt; reflexivity].
      * apply percent_branch in H. rewrite H. split.
        -- intros Hp. right. right. right. exact Hp.
        -- intros [Hk | [Ho | [[_ [Hb | He]] | Hp]]];
             [contradiction | contradiction | contradiction | | exact Hp].
           apply Hdt in He. discriminate He.
  - apply (contains_char_false "$") in Ed. simpl in H.
    apply percent_branch in H. rewrite H. split.
    + intros Hp. right. right. right. exact Hp.
    + intros [Hk | [Ho | [[Hd _] | Hp]]];
        [contradiction | contradiction | contradiction | exact Hp].
Qed.

(** The theorem at a command with an expansion, on a host that is not
    Windows. *)
Lemma looks_like_shell_script_characterised_witness :
  _looks_like_shell_script (py "Linux") (py "echo $HOME") = Ok true /\
  ((true = true <->
    starts_with_keyword (py "echo $HOME") \/ has_operator (py "echo $HOME")
    \/ has_expansion (py "echo $HOME")
    \/ (py "Linux" = py "Windows" /\ has_percent_variable (py "echo $HOME")))
   /\ _looks_like_shell_script (py "Linux") (py "ffmpeg -i a.mp4 out.mp4")
      = Ok false
   /\ _looks_like_shell_script (py "Linux")
        (py "ffmpeg -i a.mp4 out.mp4 && echo done") = Ok true).
Proof.
  split; [reflexivity|].
  apply (looks_like_shell_script_characterised
           (py "Linux") (py "echo $HOME") true).
  reflexivity.
Defined.

(** C2 fails on the code. The comment of the variable-expansion test
    says that it matches a dollar sign with a brace or with a variable
    name and avoids simple dollar signs. On a command in which a space
    follows the only dollar sign, where none of the four conditions of
    the claim holds, the classifier answers true; and on a command in
    which a variable name follows the dollar sign and a slash follows
    the name, where the third condition holds, it answers false. *)
Theorem looks_like_shell_script_bare_dollar :
  _looks_like_shell_script (py "Linux") (py "echo $ abc") = Ok true /\
  looksLikeShellScript false (py "echo $ abc") = false /\
  _looks_like_shell_script (py "Linux") (py "echo $HOME/bin") = Ok false /\
  looksLikeShellScript false (py "echo $HOME/bin") = true.
Proof. repeat split. Qed.

End Classifier.

(* ================================================================== *)
(** * The retry loop *)

Section Executor.

Import CommandExecutor Scenario.

Context {World : Type} (host : Host World).

(** One iteration of the loop, when an attempt remains. *)
Lemma retry_loop_step fuel max_exec_retries command attempt last w trace :
  (attempt <? max_exec_retries) = true ->
  retry_loop host (S fuel) max_exec_retries command attempt last w trace
  = (match run_command host command w with
    | Raise e => Some (Raise e)
    | Ok ((success, output), w') =>
        let trace' := trace ++ [Attempt (attempt + 1)] in
        if success then Some (Ok ((true, output), w', trace'))
        else if is_no_retry_error output
        then Some (Ok ((false, output), w', trace'))
        else if attempt + 1 <? max_exec_retries
        then retry_loop host fuel max_exec_retries command (attempt + 1)
               output (time_sleep host w' (2 ^ (attempt + 1)))
               (trace' ++ [Sleep (2 ^ (attempt + 1))])
        else retry_loop host fuel max_exec_retries command (attempt + 1)
               output w' trace'
    end).
Proof.
  intros H. simpl. rewrite H.
  destruct (run_command host command w) as [[[success output] w']|e];
    reflexivity.
Qed.

(** The loop ends when no attempt remains. *)
Lemma retry_loop_done fuel max_exec_retries command attempt last w trace :
  (attempt <? max_exec_retries) = false ->
  retry_loop host (S fuel) max_exec_retries command attempt last w trace
  = Some (Ok ((false, last), w, trace)).
Proof. intros H. simpl. rewrite H. reflexivity. Qed.

(** The fuel that [execute_with_retries] gives the loop is enough. *)
Lemma retry_loop_terminates fuel max_exec_retries command attempt last w trace :
  (Z.to_nat (max_exec_retries - attempt) < fuel)%nat ->
  retry_loop host fuel max_exec_retries command attempt last w trace <> None.
Proof.
  revert attempt last w trace.
  induction fuel as [|fuel IH]; intros attempt last w trace Hfuel; [lia|].
  destruct (attempt <? max_exec_retries) eqn:E.
  - rewrite retry_loop_step by exact E.
    apply Z.ltb_lt in E.
    destruct (run_command host command w) as [[[success output] w']|e];
      [|discriminate].
    cbv zeta. destruct success; [discriminate|].
    destruct (is_no_retry_error output); [discriminate|].
    destruct (attempt + 1 <? max_exec_retries); apply IH; lia.
  - rewrite retry_loop_done by exact E. discriminate.
Qed.

Lemma execute_with_retries_returns max_retries command w :
  execute_with_retries host max_retries command w <> None.
Proof.
  unfold execute_with_retries, execute_with_retries_fuel.
  apply retry_loop_terminates. lia.
Qed.

(** What [run_command] returns when the launch of a plain command
    raises [FileNotFoundError]. *)
Lemma run_command_file_not_found command executable rest w e w' :
  _looks_like_shell_script (platform_system host) command = Ok false ->
  shlex_split command = Ok (executable :: rest) ->
  subprocess_run host w (Argv (executable :: rest))
  = (RaisesFileNotFoundError e, w') ->
  run_command host command w
  = Ok ((false,
         py "Error: FileNotFoundError during command execution. Command or shell not found? Details: "
         ++ e), w').
Proof.
  intros Hshell Hsplit Hrun. unfold run_command. rewrite Hshell. simpl.
  unfold run_command_try. rewrite Hsplit. unfold launch. rewrite Hrun.
  reflexivity.
Qed.

Lemma file_not_found_is_no_retry e :
  is_no_retry_error
    (py "Error: FileNotFoundError during command execution. Command or shell not found? Details: "
     ++ e) = true.
Proof.
  unfold is_no_retry_error. apply existsb_exists.
  exists (py "FileNotFoundError"). split.
  - unfold no_retry_errors. right. right. left. reflexivity.
  - apply contains_spec.
    exists (py "Error: "),
      (py " during command execution. Command or shell not found? Details: "
       ++ e).
    reflexivity.
Qed.

(** C3, as amended. For a plain-vector command whose first token does
    not resolve on the search path and whose launch then raises
    FileNotFoundError, under a maximum of at least one attempt,
    execute_with_retries returns failure with the FileNotFoundError
    message after exactly one attempt and without sleeping. *)
Theorem execute_with_retries_missing_executable
    max_retries command executable rest w e w' :
  _looks_like_shell_script (platform_system host) command = Ok false ->
  shlex_split command = Ok (executable :: rest) ->
  shutil_which host w executable = None ->
  subprocess_run host w (Argv (executable :: rest))
  = (RaisesFileNotFoundError e, w') ->
  1 <= max_retries ->
  execute_with_retries host max_retries command w
  = Some (Ok ((false,
               py "Error: FileNotFoundError during command execution. Command or shell not found? Details: "
               ++ e), w', [Attempt 1])).
Proof.
  intros Hshell Hsplit _ Hrun Hmax.
  unfold execute_with_retries, execute_with_retries_fuel.
  rewrite retry_loop_step by (apply Z.ltb_lt; lia).
  rewrite (run_command_file_not_found _ _ _ _ _ _ Hshell Hsplit Hrun).
  cbv zeta iota. rewrite file_not_found_is_no_retry. reflexivity.
Qed.

(** A launch that ends with a status other than zero is a failure of
    [run_command], whose output starts with the message of the exit
    code, after the prefix of an executable that did not resolve. *)
Lemma launch_nonzero_exit command_to_run error_prefix w returncode stdout stderr w' :
  subprocess_run host w command_to_run = (Completed returncode stdout stderr, w') ->
  returncode <> 0 ->
  exists combined_output,
    launch host command_to_run error_prefix w
    = (Ok (false,
           match error_prefix with
           | [] => []
           | _ => error_prefix ++ [LF]
           end
           ++ py "Command failed with exit code " ++ str_of_Z returncode
           ++ py "." ++ [LF] ++ combined_output), w').
Proof.
  intros Hrun Hcode. unfold launch. rewrite Hrun.
  apply Z.eqb_neq in Hcode. rewrite Hcode.
  eexists. cbv zeta.
  destruct error_prefix; rewrite <- !app_assoc; reflexivity.
Qed.

(** C6. When the three attempts of a command fail with outputs that hold
    no marker, under a maximum of three attempts the executor makes
    exactly three attempts, sleeps 2 seconds after the first and 4 after
    the second, does not sleep after the third, and returns failure with
    the output of the third. *)
Theorem execute_with_retries_three_failures
    command w0 out1 w1 out2 w2 out3 w3 :
  run_command host command w0 = Ok ((false, out1), w1) ->
  is_no_retry_error out1 = false ->
  run_command host command (time_sleep host w1 (2 ^ 1)) = Ok ((false, out2), w2) ->
  is_no_retry_error out2 = false ->
  run_command host command (time_sleep host w2 (2 ^ 2)) = Ok ((false, out3), w3) ->
  is_no_retry_error out3 = false ->
  execute_with_retries host 3 command w0
  = Some (Ok ((false, out3), w3,
              [Attempt 1; Sleep (2 ^ 1); Attempt 2; Sleep (2 ^ 2); Attempt 3])).
Proof.
  intros H1 N1 H2 N2 H3 N3.
  unfold execute_with_retries, execute_with_retries_fuel.
  change (S (Z.to_nat 3)) with 4%nat.
  rewrite retry_loop_step by reflexivity. rewrite H1. cbv zeta iota. rewrite N1.
  change (0 + 1) with 1. change (1 <? 3) with true. cbv iota.
  rewrite retry_loop_step by reflexivity. rewrite H2. cbv zeta iota. rewrite N2.
  change (1 + 1) with 2. change (2 <? 3) with true. cbv iota.
  rewrite retry_loop_step by reflexivity. rewrite H3. cbv zeta iota. rewrite N3.
  change (2 + 1) with 3. change (3 <? 3) with false. cbv iota.
  rewrite retry_loop_done by reflexivity. reflexivity.
Qed.

End Executor.

Section ExecutorExamples.

Import CommandExecutor Scenario.

Lemma execute_with_retries_missing_executable_witness :
  execute_with_retries bare_host 2 (py "nosuchtool -x") tt
  = Some (Ok ((false,
               py "Error: FileNotFoundError during command execution. Command or shell not found? Details: "
               ++ py "[Errno 2] No such file or directory"), tt, [Attempt 1])).
Proof.
  apply (execute_with_retries_missing_executable bare_host 2
           (py "nosuchtool -x") (py "nosuchtool") [py "-x"] tt
           (py "[Errno 2] No such file or directory") tt);
    [reflexivity | reflexivity | reflexivity | reflexivity | lia].
Defined.

(** C3, as stated, fails. With a maximum of zero the loop makes no
    attempt at all. And when the executable does not resolve but the
    launch fails otherwise than with FileNotFoundError, the message
    holds no marker: under a maximum of two the executor sleeps and
    makes a second attempt. *)
Lemma execute_with_retries_counterexample :
  _looks_like_shell_script (py "Linux") (py "tool -x") = Ok false /\
  shlex_split (py "tool -x") = Ok [py "tool"; py "-x"] /\
  shutil_which bare_host tt (py "tool") = None /\
  shutil_which denied_host tt (py "tool") = None /\
  (exists trace,
     execute_with_retries bare_host 0 (py "tool -x") tt
     = Some (Ok ((false, py "No error output captured."), tt, trace)) /\
     attempts trace = 0%nat) /\
  (exists trace,
     execute_with_retries denied_host 2 (py "tool -x") tt
     = Some (Ok ((false,
                  py "Subprocess execution error: [Errno 13] Permission denied: 'tool'"),
                 tt, trace)) /\
     attempts trace = 2%nat /\ sleeps trace = [2]).
Proof.
  repeat split.
  - exists []. split; reflexivity.
  - exists [Attempt 1; Sleep 2; Attempt 2]. repeat split.
Qed.

Lemma execute_with_retries_three_failures_witness :
  execute_with_retries failing_host 3 (py "ffmpeg -i a.mp4 out.mp4") 0%nat
  = Some (Ok ((false,
               py "Command failed with exit code 1." ++ [LF]
               ++ py "Stderr:" ++ [LF] ++ py "failure 2"), 3%nat,
              [Attempt 1; Sleep (2 ^ 1); Attempt 2; Sleep (2 ^ 2); Attempt 3])).
Proof.
  apply (execute_with_retries_three_failures failing_host
           (py "ffmpeg -i a.mp4 out.mp4") 0%nat
           (py "Command failed with exit code 1." ++ [LF]
            ++ py "Stderr:" ++ [LF] ++ py "failure 0") 1%nat
           (py "Command failed with exit code 1." ++ [LF]
            ++ py "Stderr:" ++ [LF] ++ py "failure 1") 2%nat);
    reflexivity.
Defined.

(** C10. On the command [echo $] the classifier raises IndexError on
    every platform; run_command, which calls it outside its handlers,
    raises with it, and so does execute_with_retries on every host and
    for every positive maximum. *)
Theorem bare_dollar_raises :
  (forall platform,
     _looks_like_shell_script platform (py "echo $") = Raise IndexError) /\
  (forall World (host : Host World) w,
     run_command host (py "echo $") w = Raise IndexError) /\
  (forall World (host : Host World) (max_retries : positive) w,
     execute_with_retries host (Z.pos max_retries) (py "echo $") w
     = Some (Raise IndexError)).
Proof.
  split; [|split].
  - intros platform. reflexivity.
  - intros World host w. reflexivity.
  - intros World host max_retries w.
    unfold execute_with_retries, execute_with_retries_fuel.
    rewrite retry_loop_step by reflexivity. reflexivity.
Qed.

End ExecutorExamples.


(* ================================================================== *)
(** * [shlex.join] and [shlex.split] *)

Section Shlex.

(** A character that [shlex.quote] leaves bare is read as a plain
    character of a word. *)
Lemma safe_char_plain c :
  shlex_safe_char c = true ->
  shlex_whitespace c = false /\ shlex_quotes c = false /\ shlex_escape c = false.
Proof.
  intros H.
  pose proof (forall_chars
    (fun c => implb (shlex_safe_char c)
                (negb (shlex_whitespace c) && negb (shlex_quotes c)
                 && negb (shlex_escape c))) eq_refl c) as Hc.
  cbv beta in Hc. rewrite H in Hc. simpl in Hc.
  apply andb_true_iff in Hc as [Hc H3]. apply andb_true_iff in Hc as [H1 H2].
  rewrite negb_true_iff in H1, H2, H3. repeat split; assumption.
Qed.

Lemma read_word_plain token s rest :
  forallb shlex_safe_char s = true ->
  shlex_read InWord token (s ++ rest) = shlex_read InWord (token ++ s) rest.
Proof.
  revert token. induction s as [|c s IH]; intros token H; simpl.
  - rewrite app_nil_r. reflexivity.
  - simpl in H. apply andb_true_iff in H as [Hc Hs].
    destruct (safe_char_plain c Hc) as [-> [-> ->]].
    rewrite IH by exact Hs. rewrite <- app_assoc. reflexivity.
Qed.

Lemma read_bare token rest :
  token <> [] -> forallb shlex_safe_char token = true ->
  shlex_read InWhitespace [] (token ++ rest) = shlex_read InWord token rest.
Proof.
  intros Hne H. destruct token as [|c token]; [contradiction|].
  simpl in H. apply andb_true_iff in H as [Hc Hs]. simpl.
  destruct (safe_char_plain c Hc) as [-> [-> ->]].
  apply (read_word_plain [c]). exact Hs.
Qed.

(** Inside single quotes, the escaped form of [s] reads as [s]. *)
Lemma read_single_quoted token s rest :
  shlex_read (InQuote SQUOTE) token (escape_single_quotes s ++ rest)
  = shlex_read (InQuote SQUOTE) (token ++ s) rest.
Proof.
  revert token. induction s as [|c s IH]; intros token; simpl.
  - rewrite app_nil_r. reflexivity.
  - destruct (Ascii.eqb c SQUOTE) eqn:E.
    + apply Ascii.eqb_eq in E. subst c. simpl.
      rewrite IH, <- app_assoc. reflexivity.
    + simpl. rewrite E, andb_false_r, IH, <- app_assoc. reflexivity.
Qed.

(** Reading a quoted token from between two words leaves the lexer in a
    word that holds the token. *)
Lemma read_quote token rest :
  shlex_read InWhitespace [] (shlex_quote token ++ rest)
  = shlex_read InWord token rest.
Proof.
  unfold shlex_quote. destruct token as [|c token]; [reflexivity|].
  destruct (forallb shlex_safe_char (c :: token)) eqn:E.
  - apply read_bare; [discriminate | exact E].
  - rewrite <- !app_assoc.
    change (shlex_read InWhitespace [] ([SQUOTE] ++ ?s))
      with (shlex_read (InQuote SQUOTE) [] s).
    rewrite read_single_quoted. reflexivity.
Qed.

(** The tokens of a joined command are the tokens joined. *)
Theorem shlex_split_join tokens :
  shlex_split (shlex_join tokens) = Ok tokens.
Proof.
  unfold shlex_split, shlex_join.
  induction tokens as [|t tokens IH]; [reflexivity|].
  destruct tokens as [|t' tokens].
  - simpl. rewrite <- (app_nil_r (shlex_quote t)), read_quote. reflexivity.
  - change (join (py " ") (map shlex_quote (t :: t' :: tokens)))
      with (shlex_quote t ++ py " " ++ join (py " ") (map shlex_quote (t' :: tokens))).
    rewrite read_quote.
    change (py " " ++ ?s) with (" "%char :: s).
    change (shlex_read InWord t (" "%char :: ?s))
      with (let* tokens := shlex_read InWhitespace [] s in Ok (t :: tokens)).
    cbv beta. rewrite IH. reflexivity.
Qed.

End Shlex.


(* ================================================================== *)
(** * Placeholder substitution and output names *)

Section PostProcessing.

Import CommandGenerator Scenario.

Lemma str_eqb_neq (a b : pystr) : str_eqb a b = false <-> a <> b.
Proof.
  split.
  - intros H E. apply str_eqb_eq in E. congruence.
  - intros H. destruct (str_eqb a b) eqn:E; [|reflexivity].
    apply str_eqb_eq in E. contradiction.
Qed.

(** The loop copies the tokens that are no input designator. *)
Lemma replace_loop_others actual_file found_input others rest :
  Forall (fun t => lower t <> py "-i") others ->
  replace_loop actual_file found_input (others ++ rest)
  = others ++ replace_loop actual_file found_input rest.
Proof.
  induction 1 as [|t others Ht _ IH]; [reflexivity|].
  simpl. apply str_eqb_neq in Ht. rewrite Ht, IH. reflexivity.
Qed.

Lemma filter_designators_none tokens :
  Forall (fun t => lower t <> py "-i") tokens ->
  List.filter (fun t => str_eqb (lower t) (py "-i")) tokens = [].
Proof.
  induction 1 as [|t tokens Ht _ IH]; [reflexivity|].
  simpl. apply str_eqb_neq in Ht. rewrite Ht. exact IH.
Qed.

(** C4, as amended. An input designator is a token that is -i up to
    letter case. When the tokens of a command are tokens that are no
    designator, a designator and the token after it, tokens that are no
    designator, a second designator and the token after it, and tokens
    that are no designator, and the actual file is no designator, the
    tokens of the command that replace_placeholder_with_file returns
    are those of the command with the token after the first designator
    replaced by the actual file and the second designator and the
    token after it removed: they hold exactly one designator, the
    first, the actual file follows it immediately, and the other tokens
    keep their order. *)
Theorem replace_placeholder_keeps_one_input
    command actual_file pre d1 a1 mid d2 a2 post :
  tokenize command = pre ++ d1 :: a1 :: mid ++ d2 :: a2 :: post ->
  lower d1 = py "-i" -> lower d2 = py "-i" ->
  Forall (fun t => lower t <> py "-i") (pre ++ mid ++ post) ->
  lower actual_file <> py "-i" ->
  shlex_split (replace_placeholder_with_file command actual_file)
  = Ok (pre ++ d1 :: actual_file :: mid ++ post) /\
  List.filter (fun t => str_eqb (lower t) (py "-i"))
    (pre ++ d1 :: actual_file :: mid ++ post)
  = [d1].
Proof.
  intros Htokens Hd1 Hd2 Hothers Hfile.
  apply Forall_app in Hothers as [Hpre Hothers].
  pose proof Hothers as Hrest.
  apply Forall_app in Hothers as [Hmid Hpost].
  split.
  - unfold replace_placeholder_with_file. rewrite shlex_split_join, Htokens.
    f_equal. rewrite replace_loop_others by exact Hpre. f_equal.
    apply str_eqb_eq in Hd1, Hd2.
    simpl. rewrite Hd1. simpl. do 2 f_equal.
    rewrite replace_loop_others by exact Hmid. f_equal.
    simpl. rewrite Hd2. simpl.
    rewrite <- (app_nil_r post) at 1.
    rewrite replace_loop_others by exact Hpost. apply app_nil_r.
  - rewrite List.filter_app, (filter_designators_none pre Hpre).
    apply str_eqb_eq in Hd1. apply str_eqb_neq in Hfile.
    simpl. rewrite Hd1, Hfile.
    rewrite (filter_designators_none (mid ++ post) Hrest). reflexivity.
Qed.

Lemma replace_placeholder_keeps_one_input_witness :
  shlex_split
    (replace_placeholder_with_file
       (py "ffmpeg -y -i a.mp4 -c copy -I b.mp4 out.mp4") (py "/tmp/my clip.mp4"))
  = Ok ([py "ffmpeg"; py "-y"]
        ++ py "-i" :: py "/tmp/my clip.mp4" :: [py "-c"; py "copy"]
        ++ [py "out.mp4"]) /\
  List.filter (fun t => str_eqb (lower t) (py "-i"))
    ([py "ffmpeg"; py "-y"]
     ++ py "-i" :: py "/tmp/my clip.mp4" :: [py "-c"; py "copy"]
     ++ [py "out.mp4"])
  = [py "-i"].
Proof.
  apply (replace_placeholder_keeps_one_input
           (py "ffmpeg -y -i a.mp4 -c copy -I b.mp4 out.mp4")
           (py "/tmp/my clip.mp4")
           [py "ffmpeg"; py "-y"] (py "-i") (py "a.mp4")
           [py "-c"; py "copy"] (py "-I") (py "b.mp4") [py "out.mp4"]).
  - reflexivity.
  - reflexivity.
  - reflexivity.
  - repeat constructor; discriminate.
  - discriminate.
Defined.

(** C4, as stated, fails, in three ways. When the actual file is
    itself -i, the result holds two tokens -i. When the token after the
    first -i is the second -i, the loop takes it for the argument of the
    first, and the token after the second -i is kept. And a third
    designator in another letter case is removed with the token after
    it, although they are other tokens than the two -i and their
    arguments. *)
Lemma replace_placeholder_counterexample :
  (tokenize (py "ffmpeg -i a.mp4 -i b.mp4 out.mp4")
   = [py "ffmpeg"; py "-i"; py "a.mp4"; py "-i"; py "b.mp4"; py "out.mp4"] /\
   shlex_split (replace_placeholder_with_file
                  (py "ffmpeg -i a.mp4 -i b.mp4 out.mp4") (py "-i"))
   = Ok [py "ffmpeg"; py "-i"; py "-i"; py "out.mp4"] /\
   length (List.filter (str_eqb (py "-i"))
             [py "ffmpeg"; py "-i"; py "-i"; py "out.mp4"]) = 2%nat) /\
  (tokenize (py "ffmpeg -i -i b.mp4 out.mp4")
   = [py "ffmpeg"; py "-i"; py "-i"; py "b.mp4"; py "out.mp4"] /\
   shlex_split (replace_placeholder_with_file
                  (py "ffmpeg -i -i b.mp4 out.mp4") (py "/tmp/clip.mp4"))
   = Ok [py "ffmpeg"; py "-i"; py "/tmp/clip.mp4"; py "b.mp4"; py "out.mp4"] /\
   In (py "b.mp4")
     [py "ffmpeg"; py "-i"; py "/tmp/clip.mp4"; py "b.mp4"; py "out.mp4"]) /\
  (tokenize (py "ffmpeg -i a.mp4 -i b.mp4 -I keep out.mp4")
   = [py "ffmpeg"; py "-i"; py "a.mp4"; py "-i"; py "b.mp4"; py "-I";
      py "keep"; py "out.mp4"] /\
   shlex_split (replace_placeholder_with_file
                  (py "ffmpeg -i a.mp4 -i b.mp4 -I keep out.mp4")
                  (py "/tmp/clip.mp4"))
   = Ok [py "ffmpeg"; py "-i"; py "/tmp/clip.mp4"; py "out.mp4"] /\
   ~ In (py "keep") [py "ffmpeg"; py "-i"; py "/tmp/clip.mp4"; py "out.mp4"]).
Proof.
  split; [|split].
  - split; [reflexivity|]. split; reflexivity.
  - split; [reflexivity|]. split; [reflexivity|].
    right. right. right. left. reflexivity.
  - split; [reflexivity|]. split; [reflexivity|].
    intros H. repeat (destruct H as [H|H]; [discriminate H|]). exact H.
Qed.

Lemma str_in_In s l : str_in s l = true <-> In s l.
Proof.
  unfold str_in. rewrite existsb_exists. split.
  - intros [x [Hin H]]. apply str_eqb_eq in H. subst. exact Hin.
  - intros H. exists s. split; [exact H | apply str_eqb_eq; reflexivity].
Qed.

(** The extension of the new output name is the one the specification
    describes. *)
Lemma new_output_name_extension os_path output_token input_file desired_ext :
  exists extension,
    chosen_extension os_path output_token input_file desired_ext extension /\
    new_output_name os_path output_token input_file desired_ext
    = fst (splitext os_path (basename os_path input_file))
      ++ py "_toasted" ++ extension.
Proof.
  unfold new_output_name.
  destruct desired_ext as [[|c ext]|].
  - destruct (str_in _ _) eqn:E.
    + eexists. split; [|reflexivity].
      apply extension_of_image; [right; reflexivity | apply str_in_In; exact E].
    + eexists. split; [|reflexivity].
      apply extension_of_output; [right; reflexivity|].
      intros H. apply str_in_In in H. congruence.
  - eexists. split; [|reflexivity]. apply extension_desired. discriminate.
  - destruct (str_in _ _) eqn:E.
    + eexists. split; [|reflexivity].
      apply extension_of_image; [left; reflexivity | apply str_in_In; exact E].
    + eexists. split; [|reflexivity].
      apply extension_of_output; [left; reflexivity|].
      intros H. apply str_in_In in H. congruence.
Qed.

(** C8. A command of fewer than three tokens is returned as it is. For a
    command of three tokens or more, the tokens of the returned command
    are those of the command with only the last one replaced, by the
    base name of the input file without its extension, the suffix, and
    the extension chosen as the specification says. *)
Theorem update_output_filename_spec os_path command input_file desired_ext :
  ((length (tokenize command) < 3)%nat ->
   update_output_filename os_path command input_file desired_ext = command) /\
  (forall front output_token,
     (2 <= length front)%nat ->
     tokenize command = front ++ [output_token] ->
     exists extension,
       chosen_extension os_path output_token input_file desired_ext extension /\
       shlex_split (update_output_filename os_path command input_file desired_ext)
       = Ok (front
             ++ [fst (splitext os_path (basename os_path input_file))
                 ++ py "_toasted" ++ extension])).
Proof.
  unfold update_output_filename. split.
  - intros H. apply Nat.ltb_lt in H. rewrite H. reflexivity.
  - intros front output_token Hfront Htokens. rewrite Htokens.
    rewrite length_app. simpl.
    replace (length front + 1 <? 3)%nat with false
      by (symmetry; apply Nat.ltb_ge; lia).
    rewrite last_last.
    destruct (new_output_name_extension os_path output_token input_file
                desired_ext) as [extension [Hext ->]].
    exists extension. split; [exact Hext|].
    rewrite shlex_split_join. f_equal.
    replace (length front + 1 - 1)%nat with (length front + 0)%nat by lia.
    rewrite insert_app_r. reflexivity.
Qed.

Lemma update_output_filename_spec_witness :
  ((length (tokenize (py "ffmpeg out.mkv")) < 3)%nat /\
   update_output_filename posix_path (py "ffmpeg out.mkv") (py "/a/pic.JPG") None
   = py "ffmpeg out.mkv") /\
  ((2 <= length [py "ffmpeg"; py "-i"; py "in.mp4"])%nat /\
   tokenize (py "ffmpeg -i in.mp4 out.mkv")
   = [py "ffmpeg"; py "-i"; py "in.mp4"] ++ [py "out.mkv"] /\
   exists extension,
     chosen_extension posix_path (py "out.mkv") (py "/a/pic.JPG") None extension /\
     shlex_split
       (update_output_filename posix_path (py "ffmpeg -i in.mp4 out.mkv")
          (py "/a/pic.JPG") None)
     = Ok ([py "ffmpeg"; py "-i"; py "in.mp4"]
           ++ [fst (splitext posix_path (basename posix_path (py "/a/pic.JPG")))
               ++ py "_toasted" ++ extension])).
Proof.
  split.
  - split; [vm_compute; lia|].
    apply (proj1 (update_output_filename_spec posix_path (py "ffmpeg out.mkv")
                    (py "/a/pic.JPG") None)).
    vm_compute. lia.
  - split; [simpl; lia|]. split; [reflexivity|].
    apply (proj2 (update_output_filename_spec posix_path
                    (py "ffmpeg -i in.mp4 out.mkv") (py "/a/pic.JPG") None)
             [py "ffmpeg"; py "-i"; py "in.mp4"] (py "out.mkv")).
    + simpl. lia.
    + reflexivity.
Defined.

End PostProcessing.


(* ================================================================== *)
(** * The response sanitizer *)

Section Sanitizer.

Lemma index_absent c t : ~ In c t -> index c t = None.
Proof.
  induction t as [|x t IH]; intros H; simpl; [reflexivity|].
  destruct (Ascii.eqb x c) eqn:E.
  - apply Ascii.eqb_eq in E. subst. exfalso. apply H. left. reflexivity.
  - rewrite IH; [reflexivity | intros Hin; apply H; right; exact Hin].
Qed.

Lemma index_first c pre rest :
  ~ In c pre -> index c (pre ++ c :: rest) = Some (length pre).
Proof.
  induction pre as [|x pre IH]; intros H; simpl.
  - rewrite Ascii.eqb_refl. reflexivity.
  - destruct (Ascii.eqb x c) eqn:E.
    + apply Ascii.eqb_eq in E. subst. exfalso. apply H. left. reflexivity.
    + rewrite IH; [reflexivity | intros Hin; apply H; right; exact Hin].
Qed.

Lemma rindex_absent c t : ~ In c t -> rindex c t = None.
Proof.
  induction t as [|x t IH]; intros H; simpl; [reflexivity|].
  rewrite IH by (intros Hin; apply H; right; exact Hin).
  destruct (Ascii.eqb x c) eqn:E; [|reflexivity].
  apply Ascii.eqb_eq in E. subst. exfalso. apply H. left. reflexivity.
Qed.

Lemma rindex_last c pre post :
  ~ In c post -> rindex c (pre ++ c :: post) = Some (length pre).
Proof.
  intros H. induction pre as [|x pre IH]; simpl.
  - rewrite rindex_absent by exact H. rewrite Ascii.eqb_refl. reflexivity.
  - rewrite IH. reflexivity.
Qed.

Lemma index_some_In c t i : index c t = Some i -> In c t.
Proof.
  destruct (in_dec ascii_dec c t) as [H|H]; [intros _; exact H|].
  rewrite index_absent by exact H. discriminate.
Qed.

Lemma rindex_some_In c t i : rindex c t = Some i -> In c t.
Proof.
  destruct (in_dec ascii_dec c t) as [H|H]; [intros _; exact H|].
  rewrite rindex_absent by exact H. discriminate.
Qed.

(** The slicing step of the sanitizers meets the specification and
    raises nothing. *)
Lemma slice_json_object_span t :
  exists r, CommandGenerator.slice_json_object t = Ok r /\ json_span t r.
Proof.
  unfold CommandGenerator.slice_json_object, CommandGenerator.str_index,
    CommandGenerator.str_rindex.
  destruct (index "{" t) as [start|] eqn:Ei.
  - destruct (rindex "}" t) as [end_|] eqn:Er.
    + simpl. eexists. split; [reflexivity|].
      split; [|split].
      * intros pre body post -> Hpre Hpost.
        rewrite index_first in Ei by exact Hpre. injection Ei as <-.
        change (pre ++ "{"%char :: body ++ "}"%char :: post)
          with (pre ++ ("{"%char :: body) ++ "}"%char :: post) in Er.
        rewrite app_assoc, rindex_last in Er by exact Hpost.
        injection Er as <-. unfold slice.
        rewrite drop_app_length, length_app. simpl.
        replace (length pre + S (length body) + 1 - length pre)%nat
          with (S (S (length body))) by lia.
        simpl. f_equal.
        change (body ++ "}"%char :: post) with (body ++ ["}"%char] ++ post).
        rewrite app_assoc.
        apply take_app_length'. rewrite length_app. simpl. lia.
      * intros pre post -> Hpre Hin Hpost.
        rewrite index_first in Ei by exact Hpre. injection Ei as <-.
        destruct (last_occurrence "}" pre Hin) as [a [b [-> Hb]]].
        rewrite <- app_assoc in Er. simpl in Er.
        rewrite rindex_last in Er.
        -- injection Er as <-. unfold slice.
           replace (length a + 1 - length (a ++ "}"%char :: b))%nat with 0%nat
             by (rewrite length_app; simpl; lia).
           reflexivity.
        -- intros H. apply in_app_or in H as [H | [H | H]];
             [apply Hb; exact H | discriminate H | apply Hpost; exact H].
      * intros [H|H]; exfalso; apply H;
          [eapply index_some_In | eapply rindex_some_In]; eassumption.
    + simpl. eexists. split; [reflexivity|].
      assert (Hno : ~ In "}"%char t).
      { intros H. destruct (last_occurrence "}" t H) as [a [b [-> Hb]]].
        rewrite rindex_last in Er by exact Hb. discriminate Er. }
      split; [|split].
      * intros pre body post -> _ _. exfalso. apply Hno.
        apply in_or_app. right. right. apply in_or_app. right. left. reflexivity.
      * intros pre post -> _ Hin _. exfalso. apply Hno.
        apply in_or_app. left. exact Hin.
      * reflexivity.
  - simpl. eexists. split; [reflexivity|].
    assert (Hno : ~ In "{"%char t).
    { intros H. destruct (first_occurrence "{" t) as [Hn | [a [b [-> Ha]]]];
        [contradiction|].
      rewrite index_first in Ei by exact Ha. discriminate Ei. }
    split; [|split].
    * intros pre body post -> _ _. exfalso. apply Hno.
      apply in_or_app. right. left. reflexivity.
    * intros pre post -> _ _ _. exfalso. apply Hno.
      apply in_or_app. right. left. reflexivity.
    * reflexivity.
Qed.

(** C7, as amended. On every string both sanitizers return a value:
    the span from the first opening brace to the last closing brace of
    the trimmed, unfenced string when its first opening brace comes
    before its last closing brace, the empty string when its last
    closing brace comes before its first opening brace, and the
    trimmed, unfenced string itself when it lacks either brace. *)
Theorem clean_json_response_span (s : pystr) :
  (exists r,
     AppCommandGenerator.clean_json_response (PyStr s) = Ok r /\
     json_span (AppCommandGenerator.remove_fence (strip s)) r) /\
  (exists r,
     CommandGenerator.clean_json_response (PyStr s) = Ok r /\
     json_span (CommandGenerator.strip_fence (strip s)) r).
Proof.
  split.
  - apply (slice_json_object_span (AppCommandGenerator.remove_fence (strip s))).
  - apply slice_json_object_span.
Qed.

(** C7, as stated, fails. The string of a closing brace, a space and
    an opening brace is trimmed and has no fence; it holds both braces,
    and both sanitizers return the empty string on it, which is not the
    part from the first opening brace to the last closing brace: no
    string is. *)
Lemma clean_json_response_counterexample :
  AppCommandGenerator.remove_fence (strip (py "} {")) = py "} {" /\
  CommandGenerator.strip_fence (strip (py "} {")) = py "} {" /\
  In "{"%char (py "} {") /\ In "}"%char (py "} {") /\
  AppCommandGenerator.clean_json_response (PyStr (py "} {")) = Ok [] /\
  CommandGenerator.clean_json_response (PyStr (py "} {")) = Ok [] /\
  forall r, ~ span_as_claimed (py "} {") r.
Proof.
  split; [reflexivity|]. split; [reflexivity|].
  split; [right; right; left; reflexivity|].
  split; [left; reflexivity|].
  split; [reflexivity|]. split; [reflexivity|].
  intros r [before [body [after [E [-> [Hbefore _]]]]]].
  change (py "} {") with ["}"%char; " "%char; "{"%char] in E.
  destruct before as [|c1 [|c2 [|c3 before]]]; simpl in E.
  - discriminate E.
  - discriminate E.
  - injection E as _ _ E. destruct body; discriminate E.
  - injection E as _ _ E3 _. apply Hbefore.
    right. right. left. symmetry. exact E3.
Qed.

(** The sanitizer of the context-aware generator guards against an
    input that is no string: it returns the empty string and raises
    nothing. *)
Lemma app_clean_json_response_non_string o :
  is_str o = false -> AppCommandGenerator.clean_json_response o = Ok [].
Proof. destruct o; [discriminate | reflexivity ..]. Qed.

(** C9 fails on the code. The sanitizer of the minimal generator has no
    guard against an input that is no string: it calls the method strip
    of its argument first, and on None it raises AttributeError instead
    of returning the empty string, as its sibling does. *)
Theorem clean_json_response_none_raises :
  CommandGenerator.clean_json_response PyNone = Raise AttributeError /\
  AppCommandGenerator.clean_json_response PyNone = Ok [].
Proof. split; reflexivity. Qed.

(** The end-to-end example of the specification: the fenced response is
    reduced to the JSON object. *)
Example clean_fenced_json :
  AppCommandGenerator.clean_json_response
    (PyStr (py "```json" ++ [LF] ++ py "{x}" ++ [LF] ++ py "```"))
  = Ok (py "{x}").
Proof. reflexivity. Qed.

End Sanitizer.


(* ================================================================== *)
(** * Prompt formatting *)

Section Prompt.

Import AppCommandGenerator Scenario.

(** Formatting raises nothing when the keyword arguments cover the
    fields of the template. *)
Lemma format_covered runtime template kwargs :
  Forall (names_only (map fst kwargs)) template ->
  exists prompt, format runtime template kwargs = Ok prompt.
Proof.
  induction 1 as [|item template Hitem _ [tail IH]]; simpl.
  - eexists. reflexivity.
  - destruct item as [text|name].
    + rewrite IH. eexists. reflexivity.
    + destruct (List.find _ kwargs) as [[k v]|] eqn:E.
      * rewrite IH. eexists. reflexivity.
      * exfalso. simpl in Hitem. apply in_map_iff in Hitem as [[k v] [Hk Hin]].
        apply (find_none _ _ E) in Hin. simpl in *. subst.
        rewrite String.eqb_refl in Hin. discriminate Hin.
Qed.

Lemma bind_not_value_error {A B} (r : result A) (k : A -> result B) :
  not_value_error r -> (forall a, not_value_error (k a)) ->
  not_value_error (bind r k).
Proof.
  intros Hr Hk msg. destruct r as [a|e]; simpl.
  - apply Hk.
  - intros H. apply (Hr msg). injection H as ->. reflexivity.
Qed.

Lemma ok_not_value_error {A} (a : A) : not_value_error (Ok a).
Proof. intros msg. discriminate. Qed.

Lemma paths_for_prompt_not_value_error runtime files cwd :
  not_value_error (paths_for_prompt runtime files cwd).
Proof.
  induction files as [|f_abs files IH]; simpl.
  - apply ok_not_value_error.
  - apply bind_not_value_error.
    + unfold path_for_prompt.
      destruct (os_path_relpath runtime f_abs cwd) as [rel|e].
      * destruct (_ && _); apply ok_not_value_error.
      * destruct e; try apply ok_not_value_error; intros m; discriminate.
    + intros p. apply bind_not_value_error; [exact IH|].
      intros ps. apply ok_not_value_error.
Qed.

Lemma py_iter_not_value_error o : not_value_error (py_iter o).
Proof. destruct o; intros msg; discriminate. Qed.

(** Building the file context never raises ValueError. *)
Lemma format_file_context_not_value_error runtime system_context :
  not_value_error (_format_file_context runtime system_context).
Proof.
  unfold _format_file_context. cbv zeta.
  apply bind_not_value_error; [|intros; apply ok_not_value_error].
  destruct (truthy (get system_context "detected_files_in_directory"));
    [|apply ok_not_value_error].
  apply bind_not_value_error; [apply py_iter_not_value_error|].
  intros files. apply bind_not_value_error;
    [apply paths_for_prompt_not_value_error|].
  intros paths. apply bind_not_value_error; [|intros; apply ok_not_value_error].
  unfold py_first. apply bind_not_value_error; [apply py_iter_not_value_error|].
  intros [|x l]; intros msg; discriminate.
Qed.

(** Whatever the system context holds or lacks, preparing the messages
    never raises ValueError when the template names no field but the
    seven that are passed to it: the handler of KeyError is dead for the
    keys of the context. *)
Lemma prepare_llm_messages_not_value_error runtime self history system_context :
  Forall (names_only prompt_fields) (system_prompt_template self) ->
  not_value_error (_prepare_llm_messages runtime self history system_context).
Proof.
  intros Hcovered. unfold _prepare_llm_messages.
  apply bind_not_value_error; [apply format_file_context_not_value_error|].
  intros file_context_str.
  apply bind_not_value_error; [|intros; apply ok_not_value_error].
  destruct (format_covered runtime (system_prompt_template self)
              [("os_info"%string,
                get_default system_context "os_info" (PyStr (py "Unknown")));
               ("os_type"%string,
                get_default system_context "os_type" (PyStr (py "Unknown")));
               ("shell"%string,
                get_default system_context "shell" (PyStr (py "Unknown")));
               ("ffmpeg_version"%string,
                get_default system_context "ffmpeg_version" (PyStr (py "Unknown")));
               ("ffmpeg_executable_path"%string,
                get_default system_context "ffmpeg_executable_path"
                  (PyStr (py "ffmpeg")));
               ("current_directory"%string,
                get_default system_context "current_directory" (PyStr (py ".")));
               ("file_context"%string, PyStr file_context_str)] Hcovered)
    as [prompt ->].
  apply ok_not_value_error.
Qed.

(** C1 fails on the code. With a template that names the seven fields
    and an empty system context, where every required field is missing,
    generate_command raises nothing: each missing field is formatted
    with its default, the model is called once with the prompt so
    formatted, and its answer is returned. *)
Theorem generate_command_defaults_missing_fields :
  generate_command plain_runtime counting_llm a_generator [user_turn]
    (∅ : context) 0%nat
  = (Ok model_reply, 1%nat, [[system_message default_prompt; user_turn]]).
Proof. vm_compute. reflexivity. Qed.

End Prompt.


(* ================================================================== *)
(** * Quote repair *)

Section QuoteRepair.

Import Regex CommandGenerator.

Lemma span_spec (p : ascii -> bool) s :
  let (run, rest) := span p s in
  s = run ++ rest /\ Forall (fun c => p c = true) run /\
  (rest = [] \/ exists c rest', rest = c :: rest' /\ p c = false).
Proof.
  induction s as [|c s IH]; simpl.
  - split; [reflexivity | split; [constructor | left; reflexivity]].
  - destruct (p c) eqn:E.
    + destruct (span p s) as [run rest]. destruct IH as [-> [Hrun Hrest]].
      split; [reflexivity | split; [constructor; assumption | exact Hrest]].
    + split; [reflexivity | split; [constructor|]].
      right. exists c, s. split; [reflexivity | exact E].
Qed.

Lemma span_app (p : ascii -> bool) run rest :
  Forall (fun c => p c = true) run ->
  (rest = [] \/ exists c rest', rest = c :: rest' /\ p c = false) ->
  span p (run ++ rest) = (run, rest).
Proof.
  intros Hrun Hrest. induction Hrun as [|c run Hc _ IH]; simpl.
  - destruct Hrest as [-> | [c [rest' [-> Hc]]]]; simpl; [reflexivity|].
    rewrite Hc. reflexivity.
  - rewrite Hc, IH. reflexivity.
Qed.

Lemma lazy_until_spec q s filters rest :
  lazy_until q s = Some (filters, rest) <->
  s = filters ++ q :: rest /\ ~ In q filters /\ ~ In LF filters.
Proof.
  revert filters. induction s as [|c s IH]; intros filters; simpl.
  - split; [discriminate | intros [H _]; destruct filters; discriminate H].
  - destruct (Ascii.eqb c q) eqn:Eq.
    + apply Ascii.eqb_eq in Eq. subst c. split.
      * intros [= <- <-]. split; [reflexivity | split; intros []].
      * intros [H [Hq _]]. destruct filters as [|x filters].
        -- injection H as <-. reflexivity.
        -- injection H as <- _. exfalso. apply Hq. left. reflexivity.
    + apply Ascii.eqb_neq in Eq. destruct (Ascii.eqb c LF) eqn:El.
      * apply Ascii.eqb_eq in El. subst c. split; [discriminate|].
        intros [H [_ Hl]]. destruct filters as [|x filters].
        -- injection H as H _. congruence.
        -- injection H as <- _. exfalso. apply Hl. left. reflexivity.
      * apply Ascii.eqb_neq in El. split.
        -- destruct (lazy_until q s) as [[body rest']|] eqn:E; [|discriminate].
           intros [= <- <-]. destruct (proj1 (IH body) eq_refl) as [-> [Hq Hl]].
           split; [reflexivity|].
           split; intros [H|H]; congruence || (try (apply Hq; exact H));
             try (apply Hl; exact H).
        -- intros [H [Hq Hl]]. destruct filters as [|x filters].
           ++ injection H as H _. congruence.
           ++ injection H as <- ->.
              rewrite (proj2 (IH filters)); [reflexivity|].
              split; [reflexivity|].
              split; intros Hin; [apply Hq | apply Hl]; right; exact Hin.
Qed.

Lemma quote_not_space q : q = SQUOTE \/ q = DQUOTE -> isspace q = false.
Proof. intros [-> | ->]; reflexivity. Qed.

Lemma shlex_quotes_spec q : shlex_quotes q = true <-> q = SQUOTE \/ q = DQUOTE.
Proof.
  unfold shlex_quotes. rewrite orb_true_iff, !Ascii.eqb_eq. reflexivity.
Qed.

(** The matcher anchored at the start of a string finds exactly the
    quoted video-filter arguments. *)
Lemma match_vf_here_spec s m :
  match_vf_here s = Some m <-> vf_argument s m.
Proof.
  unfold match_vf_here. split.
  - destruct (startswith (py "-vf") s) eqn:Es; [|discriminate].
    apply startswith_spec in Es as [r ->].
    change (drop 3 (py "-vf" ++ r)) with r.
    pose proof (span_spec isspace r) as Hspan.
    destruct (span isspace r) as [ws after]. destruct Hspan as [-> [Hws _]].
    destruct ws as [|w ws]; [discriminate|].
    destruct after as [|q body]; [discriminate|].
    destruct (shlex_quotes q) eqn:Eq; [|discriminate].
    apply shlex_quotes_spec in Eq.
    destruct (lazy_until q body) as [[filters rest]|] eqn:El; [|discriminate].
    apply lazy_until_spec in El as [-> [Hq Hl]].
    intros [= <-]. apply (vf_argument_intro (w :: ws)); try assumption.
    discriminate.
  - intros [ws q filters rest Hne Hws Hq Hnq Hnl].
    change (startswith (py "-vf") (py "-vf" ++ ?r)) with true. cbv iota.
    change (drop 3 (py "-vf" ++ ?r)) with r.
    rewrite span_app; [|exact Hws|].
    + destruct ws as [|w ws]; [contradiction|].
      rewrite (proj2 (shlex_quotes_spec q) Hq).
      rewrite (proj2 (lazy_until_spec q _ filters rest));
        [reflexivity | repeat split; assumption].
    + right. exists q, (filters ++ q :: rest).
      split; [reflexivity | apply quote_not_space; exact Hq].
Qed.

Lemma search_vf_unfold before s :
  search_vf before s
  = match match_vf_here s with
    | Some m => Some (before, m)
    | None =>
        match s with
        | [] => None
        | c :: s' => search_vf (before ++ [c]) s'
        end
    end.
Proof. destruct s; reflexivity. Qed.

(** The search finds the first quoted video-filter argument. *)
Lemma search_vf_first acc command before m :
  first_vf_argument command before m ->
  search_vf acc command = Some (acc ++ before, m).
Proof.
  revert acc command. induction before as [|c before IH];
    intros acc command [s [-> [Harg Hfirst]]]; rewrite search_vf_unfold.
  - simpl app. rewrite (proj2 (match_vf_here_spec _ m) Harg), app_nil_r.
    reflexivity.
  - simpl app. destruct (match_vf_here (c :: before ++ s)) as [m'|] eqn:E.
    + apply match_vf_here_spec in E.
      specialize (Hfirst [] (c :: before ++ s) m' eq_refl E). simpl in Hfirst. lia.
    + rewrite (IH (acc ++ [c]) (before ++ s)).
      * rewrite <- app_assoc. reflexivity.
      * exists s. split; [reflexivity | split; [exact Harg|]].
        intros before' s' m' E' Harg'.
        specialize (Hfirst (c :: before') s' m').
        simpl in Hfirst. rewrite E' in Hfirst.
        specialize (Hfirst eq_refl Harg'). lia.
Qed.

Lemma search_vf_none acc command :
  no_vf_argument command -> search_vf acc command = None.
Proof.
  revert acc. induction command as [|c command IH]; intros acc Hno;
    rewrite search_vf_unfold.
  - destruct (match_vf_here []) as [m|] eqn:E; [|reflexivity].
    apply match_vf_here_spec in E. exfalso. apply (Hno [] [] m eq_refl E).
  - destruct (match_vf_here (c :: command)) as [m|] eqn:E.
    + apply match_vf_here_spec in E. exfalso.
      apply (Hno [] (c :: command) m eq_refl E).
    + apply IH. intros before s m -> Harg.
      apply (Hno (c :: before) s m eq_refl Harg).
Qed.

Lemma length_lower s : length (lower s) = length s.
Proof. apply length_map. Qed.

Lemma lower_app a b : lower (a ++ b) = lower a ++ lower b.
Proof. apply map_app. Qed.

(** A literal matches under IGNORECASE when a prefix of the same length
    has the same lowercase form. *)
Lemma startswith_ci_spec p s :
  startswith_ci p s = true <->
  exists kw r, s = kw ++ r /\ lower kw = lower p.
Proof.
  unfold startswith_ci. rewrite startswith_spec. split.
  - intros [rest H]. exists (take (length p) s), (drop (length p) s).
    split; [symmetry; apply take_drop|].
    assert (Hlen : length rest = 0%nat).
    { apply (f_equal (@length ascii)) in H.
      rewrite length_app, !length_lower in H.
      pose proof (length_take_le s (length p)).
      rewrite length_take in H. lia. }
    destruct rest; [|discriminate Hlen]. rewrite app_nil_r in H. exact H.
  - intros [kw [r [-> H]]]. exists [].
    assert (Hlen : length kw = length p).
    { apply (f_equal (@length ascii)) in H. rewrite !length_lower in H. exact H. }
    rewrite <- Hlen, take_app_length, app_nil_r. exact H.
Qed.

Lemma lower_m_not_space c : lower_char c = "m"%char -> isspace c = false.
Proof.
  intros H.
  pose proof (forall_chars
    (fun c => implb (Ascii.eqb (lower_char c) "m") (negb (isspace c)))
    eq_refl c) as Hc.
  cbv beta in Hc. rewrite H in Hc. simpl in Hc.
  apply negb_true_iff. exact Hc.
Qed.

Lemma not_paren_spec c : negb (Ascii.eqb c ")") = true <-> c <> ")"%char.
Proof.
  rewrite negb_true_iff. split.
  - intros H E. apply Ascii.eqb_neq in H. contradiction.
  - apply Ascii.eqb_neq.
Qed.

(** The matcher anchored at the start of a string finds exactly the
    scale constructs. *)
Lemma match_scale_here_spec s args rest :
  match_scale_here s = Some (args, rest) <-> scale_min_here s args rest.
Proof.
  unfold match_scale_here. split.
  - destruct (startswith_ci (py "scale") s) eqn:Ekw; [|discriminate].
    apply startswith_ci_spec in Ekw as [kw [r [-> Hkw]]].
    change (lower (py "scale")) with (py "scale") in Hkw.
    assert (Hlen : length kw = 5%nat).
    { apply (f_equal (@length ascii)) in Hkw. rewrite length_lower in Hkw. exact Hkw. }
    rewrite <- Hlen, drop_app_length.
    pose proof (span_spec isspace r) as H1.
    destruct (span isspace r) as [ws1 s1]. destruct H1 as [-> [Hws1 _]].
    destruct s1 as [|e s2]; [discriminate|].
    destruct (Ascii.eqb e "=") eqn:Ee.
    2:{ destruct e as [[] [] [] [] [] [] [] []]; discriminate. }
    apply Ascii.eqb_eq in Ee. subst e.
    pose proof (span_spec isspace s2) as H2.
    destruct (span isspace s2) as [ws2 s3]. destruct H2 as [-> [Hws2 _]].
    destruct (startswith_ci (py "min") s3) eqn:Efn; [|discriminate].
    apply startswith_ci_spec in Efn as [fn [r3 [-> Hfn]]].
    change (lower (py "min")) with (py "min") in Hfn.
    assert (Hlen3 : length fn = 3%nat).
    { apply (f_equal (@length ascii)) in Hfn. rewrite length_lower in Hfn. exact Hfn. }
    rewrite <- Hlen3, drop_app_length.
    destruct r3 as [|o s4]; [discriminate|].
    destruct (Ascii.eqb o "(") eqn:Eo.
    2:{ destruct o as [[] [] [] [] [] [] [] []]; discriminate. }
    apply Ascii.eqb_eq in Eo. subst o.
    pose proof (span_spec (fun c => negb (Ascii.eqb c ")")) s4) as H4.
    destruct (span _ s4) as [args' s5]. destruct H4 as [-> [Hargs _]].
    destruct args' as [|a args']; [discriminate|].
    destruct s5 as [|p rest']; [discriminate|].
    destruct (Ascii.eqb p ")") eqn:Ep.
    2:{ destruct p as [[] [] [] [] [] [] [] []]; discriminate. }
    apply Ascii.eqb_eq in Ep. subst p.
    intros [= <- <-].
    apply scale_min_intro; try assumption; [discriminate|].
    intros Hin. rewrite List.Forall_forall in Hargs.
    apply Hargs in Hin. discriminate Hin.
  - intros [kw ws1 ws2 fn args' rest' Hkw Hws1 Hws2 Hfn Hne Hnp].
    assert (Hlen : length kw = 5%nat).
    { apply (f_equal (@length ascii)) in Hkw. rewrite length_lower in Hkw. exact Hkw. }
    assert (Hlen3 : length fn = 3%nat).
    { apply (f_equal (@length ascii)) in Hfn. rewrite length_lower in Hfn. exact Hfn. }
    rewrite (proj2 (startswith_ci_spec (py "scale") _));
      [|eexists; eexists; split; [reflexivity | exact Hkw]].
    rewrite <- Hlen, drop_app_length.
    rewrite span_app; [|exact Hws1 | right; eexists; eexists; split; reflexivity].
    rewrite span_app; [|exact Hws2|].
    2:{ right. destruct fn as [|f fn]; [discriminate Hlen3|].
        eexists; eexists. split; [reflexivity|].
        apply lower_m_not_space.
        change (py "min") with ["m"%char; "i"%char; "n"%char] in Hfn.
        injection Hfn as Hf _. exact Hf. }
    rewrite (proj2 (startswith_ci_spec (py "min") _));
      [|eexists; eexists; split; [reflexivity | exact Hfn]].
    rewrite <- Hlen3, drop_app_length.
    rewrite span_app.
    + destruct args' as [|a args']; [contradiction | reflexivity].
    + apply List.Forall_forall. intros c Hc. apply not_paren_spec.
      intros ->. contradiction.
    + right. eexists; eexists. split; reflexivity.
Qed.

Lemma scale_min_here_shorter s args rest :
  scale_min_here s args rest -> (length rest < length s)%nat.
Proof.
  intros [kw ws1 ws2 fn args' rest' _ _ _ _ _ _].
  rewrite !length_app; simpl; rewrite !length_app; simpl;
    rewrite !length_app; simpl. lia.
Qed.

Lemma scale_min_here_chars s args rest x :
  scale_min_here s args rest -> In x args \/ In x rest -> In x s.
Proof.
  intros [kw ws1 ws2 fn args' rest' _ _ _ _ _ _] H.
  apply in_or_app. right. apply in_or_app. right. right.
  apply in_or_app. right. apply in_or_app. right. right.
  apply in_or_app. destruct H as [H|H]; [left; exact H | right; right; exact H].
Qed.

(** With enough fuel the substitution rewrites every scale construct. *)
Lemma sub_scale_rewritten fuel s :
  (length s < fuel)%nat -> scale_rewritten s (sub_scale fuel s).
Proof.
  revert s. induction fuel as [|fuel IH]; intros s Hfuel; [lia|].
  simpl. destruct (match_scale_here s) as [[args rest]|] eqn:E.
  - apply match_scale_here_spec in E.
    apply (rewritten_construct s args rest); [exact E|].
    apply IH. pose proof (scale_min_here_shorter _ _ _ E). lia.
  - destruct s as [|c s].
    + apply rewritten_end.
    + apply rewritten_char.
      * intros args rest H. apply match_scale_here_spec in H. congruence.
      * apply IH. simpl in Hfuel. lia.
Qed.

(** The rewriting is a function of the filter value. *)
Lemma scale_rewritten_unique s r1 r2 :
  scale_rewritten s r1 -> scale_rewritten s r2 -> r1 = r2.
Proof.
  intros H1. revert r2.
  induction H1 as [|s args rest rest' Hm _ IH|c s s' Hno _ IH]; intros r2 H2.
  - inversion H2 as [|s0 args0 rest0 rest0' Hm0 _ E0|]; [reflexivity|].
    inversion Hm0 as [kw ? ? ? ? ? Hkw]. destruct kw; discriminate.
  - inversion H2 as [E0|s0 args0 rest0 rest0' Hm0 Hr0|c0 s0 s0' Hno0 Hr0]; subst.
    + inversion Hm as [kw ? ? ? ? ? Hkw]. destruct kw; discriminate.
    + apply match_scale_here_spec in Hm, Hm0. rewrite Hm in Hm0.
      injection Hm0 as <- <-. rewrite (IH _ Hr0). reflexivity.
    + exfalso. apply (Hno0 _ _ Hm).
  - inversion H2 as [|s0 args0 rest0 rest0' Hm0 Hr0|c0 s0 s0' Hno0 Hr0]; subst.
    + exfalso. apply (Hno _ _ Hm0).
    + rewrite (IH _ Hr0). reflexivity.
Qed.

Lemma scale_rewritten_no_backslash s r :
  scale_rewritten s r -> ~ In BACKSLASH s -> ~ In BACKSLASH r.
Proof.
  induction 1 as [|s args rest rest' Hm _ IH|c s s' _ _ IH]; intros Hs Hr.
  - exact Hr.
  - apply in_app_or in Hr as [Hr|Hr].
    { repeat (destruct Hr as [Hr|Hr]; [discriminate Hr|]). exact Hr. }
    apply in_app_or in Hr as [Hr|Hr].
    { apply Hs. apply (scale_min_here_chars _ _ _ _ Hm). left. exact Hr. }
    apply in_app_or in Hr as [Hr|Hr].
    { repeat (destruct Hr as [Hr|Hr]; [discriminate Hr|]). exact Hr. }
    apply IH; [|exact Hr].
    intros H. apply Hs. apply (scale_min_here_chars _ _ _ _ Hm). right. exact H.
  - destruct Hr as [Hr|Hr].
    + apply Hs. left. exact Hr.
    + apply IH; [|exact Hr]. intros H. apply Hs. right. exact H.
Qed.

(** A replacement string without a backslash stands for itself. *)
Lemma expand_template_literal groups template :
  ~ In BACKSLASH template -> expand_template groups template = Ok template.
Proof.
  unfold expand_template. induction template as [|c template IH]; intros H.
  - reflexivity.
  - simpl. destruct (Ascii.eqb c BACKSLASH) eqn:E.
    + apply Ascii.eqb_eq in E. exfalso. apply H. left. exact E.
    + rewrite IH; [reflexivity | intros Hin; apply H; right; exact Hin].
Qed.

Lemma space_not_backslash ws :
  Forall (fun c => isspace c = true) ws -> ~ In BACKSLASH ws.
Proof.
  intros H Hin. rewrite List.Forall_forall in H. apply H in Hin.
  discriminate Hin.
Qed.

Lemma remove_char_subset c s x : In x (remove_char c s) -> In x s.
Proof. unfold remove_char. rewrite filter_In. intros [H _]. exact H. Qed.

(** ** Backslashes that the replacement keeps *)

Lemma kept_head_plain_quote s : kept_head_plain (DQUOTE :: s) <-> kept_head_plain s.
Proof. unfold kept_head_plain. reflexivity. Qed.

Lemma kept_head_plain_cons x s :
  x <> DQUOTE -> (kept_head_plain (x :: s) <-> template_escape x = false).
Proof.
  intros Hx. apply Ascii.eqb_neq in Hx. unfold kept_head_plain, remove_char.
  simpl. rewrite Hx. simpl. split.
  - intros H. apply (H x _ eq_refl).
  - intros H c rest [= <- _]. exact H.
Qed.

Lemma kept_head_plain_app a x b b' :
  x <> DQUOTE -> kept_head_plain (a ++ x :: b) -> kept_head_plain (a ++ x :: b').
Proof.
  intros Hx. induction a as [|y a IH]; simpl.
  - rewrite !kept_head_plain_cons by exact Hx. trivial.
  - destruct (Ascii.eqb y DQUOTE) eqn:E.
    + apply Ascii.eqb_eq in E. subst y. rewrite !kept_head_plain_quote. exact IH.
    + apply Ascii.eqb_neq in E. rewrite !kept_head_plain_cons by exact E. trivial.
Qed.

Lemma plain_backslashes_nil : plain_backslashes [].
Proof. intros [|c before] after E; discriminate E. Qed.

Lemma plain_backslashes_cons x s :
  plain_backslashes (x :: s)
  <-> (x = BACKSLASH -> kept_head_plain s) /\ plain_backslashes s.
Proof.
  split.
  - intros H. split.
    + intros ->. apply (H [] s). reflexivity.
    + intros before after ->. apply (H (x :: before) after). reflexivity.
  - intros [Hx Hs] [|c before] after E.
    + injection E as -> <-. apply Hx. reflexivity.
    + injection E as _ E. apply (Hs before after E).
Qed.

Lemma plain_backslashes_app_r a b : plain_backslashes (a ++ b) -> plain_backslashes b.
Proof.
  induction a as [|x a IH]; [trivial|]. simpl. intros H.
  apply plain_backslashes_cons in H as [_ H]. apply IH. exact H.
Qed.

Lemma plain_backslashes_prefix a b :
  ~ In BACKSLASH a -> plain_backslashes b -> plain_backslashes (a ++ b).
Proof.
  intros Ha Hb. induction a as [|x a IH]; [exact Hb|]. simpl.
  apply plain_backslashes_cons. split.
  - intros ->. exfalso. apply Ha. left. reflexivity.
  - apply IH. intros H. apply Ha. right. exact H.
Qed.

Lemma plain_backslashes_tail a x b b' :
  x <> DQUOTE -> x <> BACKSLASH ->
  plain_backslashes (a ++ x :: b) -> plain_backslashes b' ->
  plain_backslashes (a ++ x :: b').
Proof.
  intros Hq Hx Hab Hb'. induction a as [|y a IH]; simpl in *.
  - apply plain_backslashes_cons. split; [intros E; contradiction | exact Hb'].
  - apply plain_backslashes_cons in Hab as [Hy Hab].
    apply plain_backslashes_cons. split.
    + intros E. apply (kept_head_plain_app a x b b' Hq). apply Hy. exact E.
    + apply IH. exact Hab.
Qed.

(** A scale construct starts with a letter. *)
Lemma scale_min_here_head s args rest :
  scale_min_here s args rest ->
  exists k s', s = k :: s' /\ k <> DQUOTE /\ template_escape k = true.
Proof.
  intros [kw ws1 ws2 fn args' rest' Hkw _ _ _ _ _].
  destruct kw as [|k kw]; [discriminate Hkw|].
  injection Hkw as Hk _.
  pose proof (forall_chars
                (fun c => implb (Ascii.eqb (lower_char c) "s")
                            (template_escape c && negb (Ascii.eqb c DQUOTE)))
                eq_refl k) as Hc.
  cbv beta in Hc. rewrite Hk in Hc. simpl in Hc.
  apply andb_true_iff in Hc as [He Hq].
  exists k. eexists. split; [reflexivity|]. split; [|exact He].
  apply Ascii.eqb_neq. apply negb_true_iff. exact Hq.
Qed.

Lemma scale_rewritten_head s r :
  scale_rewritten s r -> kept_head_plain s -> kept_head_plain r.
Proof.
  induction 1 as [|s args rest rest' Hm _ _|c s s' _ _ IH]; intros Hs.
  - exact Hs.
  - destruct (scale_min_here_head _ _ _ Hm) as [k [s' [-> [Hq He]]]].
    apply (kept_head_plain_cons k s' Hq) in Hs. congruence.
  - destruct (Ascii.eqb c DQUOTE) eqn:E.
    + apply Ascii.eqb_eq in E. subst c.
      apply kept_head_plain_quote. apply IH. apply kept_head_plain_quote. exact Hs.
    + apply Ascii.eqb_neq in E.
      apply (kept_head_plain_cons c s' E). apply (kept_head_plain_cons c s E).
      exact Hs.
Qed.

(** The rewriting of the scale constructs brings no backslash before a
    character that the replacement reads as an escape. *)
Lemma scale_rewritten_plain s r :
  scale_rewritten s r -> plain_backslashes s -> plain_backslashes r.
Proof.
  induction 1 as [|s args rest rest' Hm Hr IH|c s s' _ Hr IH]; intros Hs.
  - exact Hs.
  - destruct Hm as [kw ws1 ws2 fn args rest _ _ _ _ _ _].
    assert (Htail : plain_backslashes (args ++ ")"%char :: rest)).
    { apply (plain_backslashes_app_r kw) in Hs.
      apply (plain_backslashes_app_r ws1) in Hs.
      apply (plain_backslashes_app_r ["="%char]) in Hs.
      apply (plain_backslashes_app_r ws2) in Hs.
      apply (plain_backslashes_app_r fn) in Hs.
      apply (plain_backslashes_app_r ["("%char]) in Hs. exact Hs. }
    assert (Hrest : plain_backslashes rest).
    { apply (plain_backslashes_app_r (args ++ [")"%char])).
      rewrite <- app_assoc. exact Htail. }
    apply plain_backslashes_prefix.
    { intros H. repeat (destruct H as [H|H]; [discriminate H|]). exact H. }
    change (py ")'" ++ rest') with (")"%char :: SQUOTE :: rest').
    apply (plain_backslashes_tail args ")" rest (SQUOTE :: rest'));
      [discriminate | discriminate | exact Htail|].
    apply plain_backslashes_cons. split; [discriminate|]. apply IH. exact Hrest.
  - apply plain_backslashes_cons in Hs as [Hc Hs].
    apply plain_backslashes_cons. split.
    + intros E. apply (scale_rewritten_head s s' Hr). apply Hc. exact E.
    + apply IH. exact Hs.
Qed.

(** After a backslash, a character that is no escape is kept with the
    backslash. *)
Lemma expand_backslash_kept groups d template :
  template_escape d = false ->
  expand_from groups TBackslash (d :: template)
  = let* tail := expand_from groups TLiteral template in
    Ok (BACKSLASH :: d :: tail).
Proof.
  intros Hd.
  pose proof (forall_chars
                (fun c => implb (negb (template_escape c))
                            (negb (Ascii.eqb c "g") && negb (Ascii.eqb c "0")
                             && negb (is_ascii_digit c)
                             && negb (Ascii.eqb c "a") && negb (Ascii.eqb c "b")
                             && negb (Ascii.eqb c "f") && negb (Ascii.eqb c "n")
                             && negb (Ascii.eqb c "r") && negb (Ascii.eqb c "t")
                             && negb (Ascii.eqb c "v")
                             && negb (Ascii.eqb c BACKSLASH)
                             && negb (is_ascii_upper c || is_ascii_lower c)))
                eq_refl d) as Hc.
  cbv beta in Hc. rewrite Hd in Hc. simpl implb in Hc.
  repeat (apply andb_true_iff in Hc as [Hc ?]).
  repeat match goal with
         | H : negb _ = true |- _ => apply negb_true_iff in H
         end.
  cbn [expand_from]. cbv zeta.
  repeat match goal with
         | H : _ = false |- _ => rewrite H; clear H
         end.
  reflexivity.
Qed.

Lemma expand_literal_cons groups c template :
  c <> BACKSLASH ->
  expand_from groups TLiteral (c :: template)
  = let* tail := expand_from groups TLiteral template in Ok (c :: tail).
Proof.
  intros Hc. apply Ascii.eqb_neq in Hc. cbn [expand_from]. cbv zeta.
  rewrite Hc. reflexivity.
Qed.

Lemma template_escape_backslash c : template_escape c = false -> c <> BACKSLASH.
Proof.
  intros H ->. discriminate H.
Qed.

(** The replacement built from a value with plain backslashes stands
    for itself. *)
Lemma expand_plain groups r :
  plain_backslashes r ->
  expand_from groups TLiteral (remove_char DQUOTE r ++ [DQUOTE])
  = Ok (remove_char DQUOTE r ++ [DQUOTE]).
Proof.
  induction r as [|x r IH]; intros Hr; [reflexivity|].
  apply plain_backslashes_cons in Hr as [Hx Hr]. specialize (IH Hr).
  unfold remove_char in *. simpl List.filter.
  destruct (Ascii.eqb x DQUOTE) eqn:Eq; simpl negb; cbv iota; [exact IH|].
  simpl app.
  destruct (Ascii.eqb x BACKSLASH) eqn:Eb.
  - apply Ascii.eqb_eq in Eb. subst x. specialize (Hx eq_refl).
    cbn [expand_from]. cbv zeta. rewrite Ascii.eqb_refl.
    fold (remove_char DQUOTE r) in *.
    destruct (remove_char DQUOTE r) as [|d kept] eqn:Ek.
    + reflexivity.
    + pose proof (Hx d kept Ek) as Hd. simpl app in *.
      rewrite (expand_backslash_kept groups d _ Hd).
      rewrite (expand_literal_cons groups d _ (template_escape_backslash d Hd)) in IH.
      destruct (expand_from groups TLiteral (kept ++ [DQUOTE])) as [tail|e];
        [|discriminate IH].
      simpl in IH. injection IH as ->. reflexivity.
  - apply Ascii.eqb_neq in Eb.
    rewrite (expand_literal_cons groups x _ Eb), IH. reflexivity.
Qed.

Lemma expand_literal_prefix groups a template :
  ~ In BACKSLASH a ->
  expand_from groups TLiteral template = Ok template ->
  expand_from groups TLiteral (a ++ template) = Ok (a ++ template).
Proof.
  intros Ha Ht. induction a as [|c a IH]; [exact Ht|]. simpl app.
  rewrite expand_literal_cons by (intros ->; apply Ha; left; reflexivity).
  rewrite IH by (intros H; apply Ha; right; exact H). reflexivity.
Qed.

(** C5, as amended. When the value of the first quoted video-filter
    argument of a command has no backslash before a character that the
    replacement reads as an escape, and no opening parenthesis inside
    the arguments of a scale construct, fix_command_quotes returns the
    command with that argument alone replaced: its prefix, a double
    quote, the value with every scale construct rewritten so that single
    quotes wrap only its min portion and with every double quote
    removed, and a double quote; what comes before and after the
    argument, later video-filter arguments included, is unchanged. A
    command without a quoted video-filter argument is returned
    unchanged. *)
Theorem fix_command_quotes_first_argument command :
  (forall before m,
     first_vf_argument command before m ->
     plain_backslashes (vf_filters m) ->
     flat_scale_arguments (vf_filters m) ->
     exists rewritten,
       scale_rewritten (vf_filters m) rewritten /\
       fix_command_quotes command
       = Ok (before ++ vf_prefix m ++ [DQUOTE]
             ++ remove_char DQUOTE rewritten ++ [DQUOTE] ++ vf_rest m)) /\
  (no_vf_argument command -> fix_command_quotes command = Ok command).
Proof.
  unfold fix_command_quotes. split.
  - intros before m Hfirst Hback _.
    rewrite (search_vf_first [] command before m Hfirst).
    change ([] ++ before) with before. cbv zeta.
    pose proof (sub_scale_rewritten (S (length (vf_filters m))) (vf_filters m)
                  (Nat.lt_succ_diag_r _)) as Hrw.
    exists (sub_scale (S (length (vf_filters m))) (vf_filters m)).
    split; [exact Hrw|].
    pose proof (scale_rewritten_plain _ _ Hrw Hback) as Hr.
    generalize dependent (sub_scale (S (length (vf_filters m))) (vf_filters m)).
    intros r _ Hr.
    assert (Hprefix : ~ In BACKSLASH (vf_prefix m ++ [DQUOTE])).
    { destruct Hfirst as [s [_ [Harg _]]].
      destruct Harg as [ws q filters rest _ Hws _ _ _]. cbn [vf_prefix].
      intros Hin.
      apply in_app_or in Hin as [Hin|Hin].
      { apply in_app_or in Hin as [Hin|Hin].
        - repeat (destruct Hin as [Hin|Hin]; [discriminate Hin|]). exact Hin.
        - apply (space_not_backslash ws Hws Hin). }
      destruct Hin as [Hin|[]]. discriminate Hin. }
    unfold expand_template.
    match goal with
    | |- context [expand_from ?g TLiteral _] =>
        pose proof (expand_literal_prefix g (vf_prefix m ++ [DQUOTE])
                      (remove_char DQUOTE r ++ [DQUOTE]) Hprefix
                      (expand_plain g r Hr)) as Hexp
    end.
    rewrite <- !app_assoc in Hexp. rewrite Hexp.
    unfold bind. rewrite <- !app_assoc. reflexivity.
  - intros Hno. rewrite (search_vf_none [] command Hno). reflexivity.
Qed.

(** The search finds only first quoted video-filter arguments. *)
Lemma search_vf_sound acc command found m :
  search_vf acc command = Some (found, m) ->
  exists before, found = acc ++ before /\ first_vf_argument command before m.
Proof.
  revert acc. induction command as [|c command IH]; intros acc;
    rewrite search_vf_unfold.
  - destruct (match_vf_here []) as [m'|] eqn:E; [|discriminate].
    intros [= <- <-]. apply match_vf_here_spec in E.
    exists []. split; [symmetry; apply app_nil_r|].
    exists []. split; [reflexivity | split; [exact E|]]. intros; simpl; lia.
  - destruct (match_vf_here (c :: command)) as [m'|] eqn:E.
    + intros [= <- <-]. apply match_vf_here_spec in E.
      exists []. split; [symmetry; apply app_nil_r|].
      exists (c :: command). split; [reflexivity | split; [exact E|]].
      intros; simpl; lia.
    + intros H. destruct (IH _ H) as [before [-> [s [-> [Harg Hfirst]]]]].
      exists (c :: before). split; [rewrite <- app_assoc; reflexivity|].
      exists s. split; [reflexivity | split; [exact Harg|]].
      intros before' s' m' E' Harg'. destruct before' as [|c' before'].
      * simpl in E'. subst s'. apply match_vf_here_spec in Harg'. congruence.
      * simpl in E'. injection E' as _ E'.
        specialize (Hfirst before' s' m' E' Harg'). simpl. lia.
Qed.

(** A check, position by position, that no scale construct of a value
    holds an opening parenthesis in its arguments. *)
Lemma flat_scale_arguments_check filters :
  forallb (fun k =>
             match match_scale_here (drop k filters) with
             | Some (args, _) => negb (existsb (Ascii.eqb "(") args)
             | None => true
             end) (seq 0 (S (length filters))) = true ->
  flat_scale_arguments filters.
Proof.
  intros Hall before s args rest E Hhere Hin.
  rewrite forallb_forall in Hall. specialize (Hall (length before)).
  assert (Hs : drop (length before) filters = s)
    by (rewrite E; apply drop_app_length).
  apply match_scale_here_spec in Hhere. rewrite Hs, Hhere in Hall.
  assert (Hk : In (length before) (seq 0 (S (length filters)))).
  { apply in_seq. rewrite E, length_app. lia. }
  apply Hall in Hk. apply negb_true_iff in Hk.
  assert (Hex : existsb (Ascii.eqb "(") args = true).
  { apply existsb_exists. exists "("%char. split; [exact Hin | reflexivity]. }
  congruence.
Qed.

End QuoteRepair.

Section QuoteRepairExamples.

Import Regex CommandGenerator Scenario.

(** The end-to-end example of the specification. *)
Example fix_command_quotes_scale_command :
  fix_command_quotes scale_command
  = Ok (py "ffmpeg -i input.mp4 -vf " ++ quoted (py "scale='min(1280,iw)':-2")
        ++ py " out.mp4").
Proof. reflexivity. Qed.

(** A backslash before a comma, as filter expressions have it, is
    kept as it is. *)
Example fix_command_quotes_comma_command :
  fix_command_quotes comma_command
  = Ok (py "ffmpeg -i input.mp4 -vf "
        ++ quoted (py "scale='min(1280\,iw)':-2") ++ py " out.mp4").
Proof. reflexivity. Qed.

Lemma fix_command_quotes_first_argument_witness :
  let m := {| vf_prefix := py "-vf ";
              vf_quote := DQUOTE;
              vf_filters := py "scale=min(1280\,iw):-2";
              vf_rest := py " out.mp4" |} in
  first_vf_argument comma_command (py "ffmpeg -i input.mp4 ") m /\
  plain_backslashes (vf_filters m) /\
  flat_scale_arguments (vf_filters m) /\
  exists rewritten,
    scale_rewritten (vf_filters m) rewritten /\
    fix_command_quotes comma_command
    = Ok (py "ffmpeg -i input.mp4 " ++ vf_prefix m ++ [DQUOTE]
          ++ remove_char DQUOTE rewritten ++ [DQUOTE] ++ vf_rest m).
Proof.
  intros m.
  assert (Hfirst : first_vf_argument comma_command (py "ffmpeg -i input.mp4 ") m).
  { destruct (search_vf_sound [] comma_command (py "ffmpeg -i input.mp4 ") m
                eq_refl) as [before [E H]].
    simpl in E. subst before. exact H. }
  assert (Hback : plain_backslashes (vf_filters m)).
  { cbn [m vf_filters]. unfold py. simpl list_ascii_of_string.
    repeat (apply plain_backslashes_cons;
            split; [first [ discriminate
                          | intros _ c rest H; vm_compute in H;
                            injection H as <- _; reflexivity ]|]).
    apply plain_backslashes_nil. }
  assert (Hflat : flat_scale_arguments (vf_filters m))
    by (apply flat_scale_arguments_check; reflexivity).
  split; [exact Hfirst | split; [exact Hback | split; [exact Hflat|]]].
  apply (proj1 (fix_command_quotes_first_argument comma_command)
           (py "ffmpeg -i input.mp4 ") m Hfirst Hback Hflat).
Defined.

(** C5, as stated, fails, by design and by three slips. A command that
    holds a scale construct in its second quoted video-filter argument
    is returned as it is, with no single quote in it: only the first
    quoted argument is looked at. The rewritten value is used as a
    replacement string: with a backslash before a letter the expansion
    raises, with a backslash before a digit the text of a group of the
    match is inserted, and of two backslashes one is left. And the
    arguments of a scale construct end at the first closing
    parenthesis: with a call inside them the single quotes wrap less
    than the min portion. *)
Lemma fix_command_quotes_counterexample :
  (contains (py "-vf " ++ quoted (py "scale=min(1280,iw):-2"))
     two_filters_command = true /\
   fix_command_quotes two_filters_command = Ok two_filters_command /\
   contains [SQUOTE] two_filters_command = false) /\
  fix_command_quotes backslash_command = Raise (re_error (py "bad escape")) /\
  fix_command_quotes digit_command
  = Ok (py "ffmpeg -i input.mp4 -vf "
        ++ quoted (py "scale='min(1280,iw)':-2,drawtext=text=-vf ")
        ++ py " out.mp4") /\
  fix_command_quotes two_backslashes_command
  = Ok (py "ffmpeg -i input.mp4 -vf "
        ++ quoted (py "scale='min(1280,iw)':-2,drawtext=text=a\b")
        ++ py " out.mp4") /\
  fix_command_quotes nested_command
  = Ok (py "ffmpeg -i input.mp4 -vf "
        ++ quoted (py "scale='min(iw,max(640,ih)'):-2") ++ py " out.mp4").
Proof. repeat split. Qed.

End QuoteRepairExamples.


Import Shapes.

(* ================================================================== *)
(** * Further properties of the executor *)

Section ExecutorProperties.

Import CommandExecutor.

Lemma split_ws_blank s :
  split_ws s = [] <-> Forall (fun c => isspace c = true) s.
Proof.
  split.
  - intros H. pose proof (split_ws_first_word s) as Hfw. rewrite H in Hfw.
    simpl in Hfw. inversion Hfw. assumption.
  - intros H. pose proof (first_word_head s None (first_word_none s H)) as Hh.
    destruct (split_ws s); [reflexivity | discriminate Hh].
Qed.

(** X1. The classifier raises exactly on the commands that start with no
    keyword, hold no operator and no opening brace, and hold a dollar
    sign after the last of which only whitespace follows; what it
    raises is IndexError. *)
Theorem looks_like_shell_script_raises platform command e :
  _looks_like_shell_script platform command = Raise e <->
  e = IndexError /\
  ~ starts_with_keyword command /\ ~ has_operator command /\
  ~ In "{"%char command /\
  exists pre tail,
    command = pre ++ "$"%char :: tail /\ ~ In "$"%char tail /\
    Forall (fun c => isspace c = true) tail.
Proof.
  unfold _looks_like_shell_script.
  destruct (existsb _ [py "for "; _; _; _]) eqn:Ekw.
  { apply keyword_check in Ekw. split; [discriminate|].
    intros [_ [H _]]. contradiction. }
  destruct (existsb _ [py ";"; _; _; _; _; _; _]) eqn:Eop.
  { apply operator_check in Eop. split; [discriminate|].
    intros [_ [_ [H _]]]. contradiction. }
  assert (Hkw : ~ starts_with_keyword command).
  { intros Hk. apply keyword_check in Hk. congruence. }
  assert (Hop : ~ has_operator command).
  { intros Ho. apply operator_check in Ho. congruence. }
  assert (Hpercent : (if contains (py "%") command
                        && str_eqb platform (py "Windows")
                   then if (2 <? length (split_char "%" command))%nat
                           && isalnum (nth 1 (split_char "%" command) [])
                        then Ok true else Ok false
                   else Ok false) <> Raise e).
  { destruct (_ && _); [destruct (_ && _)|]; discriminate. }
  destruct (contains (py "$") command) eqn:Ed.
  - apply (contains_char "$") in Ed.
    destruct (last_occurrence "$" command Ed) as [pre [tail [-> Ht]]].
    destruct (contains (py "{") _) eqn:Eb.
    + apply (contains_char "{") in Eb. simpl. split; [discriminate|].
      intros [_ [_ [_ [H _]]]]. contradiction.
    + apply (contains_char_false "{") in Eb.
      unfold split_char. rewrite split_char_acc_last by exact Ht.
      destruct (split_ws tail) as [|word words] eqn:Esw.
      * apply split_ws_blank in Esw. simpl. split.
        -- intros [= <-]. repeat split; try assumption.
           exists pre, tail. repeat split; assumption.
        -- intros [-> _]. reflexivity.
      * simpl. split.
        -- destruct (isalnum word); [discriminate|].
           intros H. exfalso. apply (Hpercent H).
        -- intros [_ [_ [_ [_ [pre' [tail' [E [Ht' Hblank]]]]]]]].
           destruct (last_occurrence_unique _ _ _ _ _ E Ht Ht') as [_ <-].
           apply split_ws_blank in Hblank. congruence.
  - apply (contains_char_false "$") in Ed. simpl. split.
    + intros H. exfalso. apply (Hpercent H).
    + intros [_ [_ [_ [_ [pre [tail [-> _]]]]]]]. exfalso. apply Ed.
      apply in_or_app. right. left. reflexivity.
Qed.

Context {World : Type} (host : Host World).

(** X2. [run_command] handles whatever the split and the launch raise:
    it raises exactly what the classifier raises, and nothing else. *)
Theorem run_command_raises command w e :
  run_command host command w = Raise e <->
  _looks_like_shell_script (platform_system host) command = Raise e.
Proof.
  unfold run_command.
  destruct (_looks_like_shell_script _ command) as [use_shell|e']; simpl.
  - split; [|discriminate].
    destruct (run_command_try host use_shell command w) as [[r|[]] w'];
      discriminate.
  - split; intros [= ->]; reflexivity.
Qed.


(** What the [try] block returns when it returns success. *)
Lemma launch_success arg error_prefix w out w' :
  launch host arg error_prefix w = (Ok (true, out), w') ->
  exists stdout stderr,
    subprocess_run host w arg = (Completed 0 stdout stderr, w').
Proof.
  unfold launch.
  destruct (subprocess_run host w arg) as [[returncode stdout stderr| | | |] w1];
    try discriminate.
  destruct (returncode =? 0) eqn:E; [|discriminate].
  apply Z.eqb_eq in E. subst. intros [= _ <-].
  exists stdout, stderr. reflexivity.
Qed.

Lemma launch_zero_exit arg error_prefix w stdout stderr w' :
  subprocess_run host w arg = (Completed 0 stdout stderr, w') ->
  exists out, launch host arg error_prefix w = (Ok (true, out), w').
Proof. intros H. unfold launch. rewrite H. eexists. reflexivity. Qed.

(** X3. [run_command] reports success exactly when it launched the
    command, as a shell line or as the vector of its tokens, and the
    process ended with status zero. *)
Theorem run_command_success_iff command w w' :
  (exists out, run_command host command w = Ok ((true, out), w')) <->
  exists arg stdout stderr,
    launched_as host command arg /\
    subprocess_run host w arg = (Completed 0 stdout stderr, w').
Proof.
  unfold run_command, launched_as. split.
  - intros [out H].
    destruct (_looks_like_shell_script _ command) as [use_shell|e];
      [|discriminate H].
    simpl in H. unfold run_command_try in H. destruct use_shell.
    + destruct (launch host (ShellLine command) [] w) as [[[[] out1]|e] w1] eqn:El;
        try (destruct e; discriminate H); try discriminate H.
      injection H as <- <-.
      destruct (launch_success _ _ _ _ _ El) as [stdout [stderr Hrun]].
      exists (ShellLine command), stdout, stderr.
      split; [left; split; reflexivity | exact Hrun].
    + destruct (shlex_split command) as [[|executable rest]|e] eqn:Es;
        try (destruct e; discriminate H); try discriminate H.
      destruct (launch host (Argv (executable :: rest)) _ w)
        as [[[[] out1]|e] w1] eqn:El;
        try (destruct e; discriminate H); try discriminate H.
      injection H as <- <-.
      destruct (launch_success _ _ _ _ _ El) as [stdout [stderr Hrun]].
      exists (Argv (executable :: rest)), stdout, stderr.
      split; [right; split; [reflexivity|]; eexists; eexists; split; reflexivity
             | exact Hrun].
  - intros [arg [stdout [stderr [[[Hc ->] | [Hc [executable [rest [Hs ->]]]]] Hrun]]]];
      rewrite Hc; simpl; unfold run_command_try.
    + destruct (launch_zero_exit _ [] _ _ _ _ Hrun) as [out ->].
      exists out. reflexivity.
    + rewrite Hs.
      match goal with
      | |- context [launch host ?a ?p w] =>
          destruct (launch_zero_exit a p _ _ _ _ Hrun) as [out ->]
      end.
      exists out. reflexivity.
Qed.

(** ** The trace of the retry loop *)

Lemma backoff_trace_succ a :
  backoff_trace (S a)
  = (backoff_trace a
     ++ match a with
        | O => []
        | S _ => [Sleep (2 ^ Z.of_nat a)]
        end)
    ++ [Attempt (Z.of_nat a + 1)].
Proof. simpl. rewrite <- app_assoc. reflexivity. Qed.

Lemma retry_loop_trace fuel max_exec_retries command a last w trace0 r w' trace :
  trace_at_head max_exec_retries a trace0 ->
  retry_loop host fuel max_exec_retries command (Z.of_nat a) last w trace0
  = Some (Ok (r, w', trace)) ->
  exists k,
    trace = backoff_trace k /\ Z.of_nat k <= Z.max 0 max_exec_retries /\
    (a <= k)%nat /\ (k = a -> r = (false, last)).
Proof.
  revert a last w trace0.
  induction fuel as [|fuel IH]; intros a last w trace0 [Hle Hhead]; [discriminate|].
  destruct (Z.of_nat a <? max_exec_retries) eqn:E.
  - rewrite retry_loop_step by exact E. apply Z.ltb_lt in E.
    destruct Hhead as [[_ ->] | [Hge _]]; [|lia].
    destruct (run_command host command w) as [[[success output] w1]|e];
      [|discriminate].
    cbv zeta. rewrite <- backoff_trace_succ.
    assert (Hk : Z.of_nat (S a) <= Z.max 0 max_exec_retries) by lia.
    destruct success.
    { intros [= <- <- <-]. exists (S a). repeat split; [exact Hk | lia | lia]. }
    destruct (is_no_retry_error output).
    { intros [= <- <- <-]. exists (S a). repeat split; [exact Hk | lia | lia]. }
    replace (Z.of_nat a + 1) with (Z.of_nat (S a)) by lia.
    destruct (Z.of_nat (S a) <? max_exec_retries) eqn:E2; intros H.
    + apply Z.ltb_lt in E2.
      destruct (IH (S a) output _ _ (conj Hk (or_introl (conj E2 eq_refl))) H)
        as [k [Ht [Hkm [Hak _]]]].
      exists k. repeat split; try assumption; lia.
    + apply Z.ltb_ge in E2.
      destruct (IH (S a) output _ _ (conj Hk (or_intror (conj E2 eq_refl))) H)
        as [k [Ht [Hkm [Hak _]]]].
      exists k. repeat split; try assumption; lia.
  - rewrite retry_loop_done by exact E. apply Z.ltb_ge in E.
    destruct Hhead as [[Hlt _] | [_ ->]]; [lia|].
    intros [= <- <- <-]. exists a. repeat split; [exact Hle | lia].
Qed.

Lemma attempts_app t1 t2 : attempts (t1 ++ t2) = (attempts t1 + attempts t2)%nat.
Proof. unfold attempts. rewrite List.filter_app, length_app. reflexivity. Qed.

Lemma sleeps_app t1 t2 : sleeps (t1 ++ t2) = sleeps t1 ++ sleeps t2.
Proof. unfold sleeps. apply flat_map_app. Qed.

Lemma attempts_backoff_trace k : attempts (backoff_trace k) = k.
Proof.
  induction k as [|k IH]; [reflexivity|].
  simpl backoff_trace. rewrite !attempts_app, IH.
  destruct k; unfold attempts; simpl; lia.
Qed.

Lemma sleeps_backoff_trace k : sleeps (backoff_trace k) = backoff_sleeps k.
Proof.
  unfold backoff_sleeps. induction k as [|k IH]; [reflexivity|].
  simpl backoff_trace. rewrite !sleeps_app, IH.
  destruct k as [|k]; [reflexivity|].
  simpl sleeps. rewrite app_nil_r.
  replace (S (S k) - 1)%nat with (S k - 1 + 1)%nat by lia.
  rewrite seq_app, map_app. simpl.
  replace (S (k - 0))%nat with (S k) by lia. reflexivity.
Qed.

(** X4. Whatever the host does, when [execute_with_retries] returns it
    has made at most max_retries attempts, numbered from 1; it has slept
    only between two attempts, 2 seconds to the power of the number of
    the attempt before, and never after the last attempt; and it has
    made no attempt only when it returns the failure without output. *)
Theorem execute_with_retries_backoff max_retries command w r w' trace :
  execute_with_retries host max_retries command w = Some (Ok (r, w', trace)) ->
  trace = backoff_trace (attempts trace) /\
  Z.of_nat (attempts trace) <= Z.max 0 max_retries /\
  sleeps trace = backoff_sleeps (attempts trace) /\
  (attempts trace = 0%nat -> r = (false, py "No error output captured.")).
Proof.
  unfold execute_with_retries. intros H.
  change 0 with (Z.of_nat 0) in H.
  apply retry_loop_trace in H as [k [-> [Hk [_ Hz]]]].
  - rewrite attempts_backoff_trace, sleeps_backoff_trace. repeat split; assumption.
  - split; [simpl; lia|].
    destruct (Z.of_nat 0 <? max_retries) eqn:E.
    + left. apply Z.ltb_lt in E. split; [exact E | reflexivity].
    + right. apply Z.ltb_ge in E. split; [exact E | reflexivity].
Qed.

(** X5. With a maximum that is zero or negative the command is never
    run: whatever the command, [execute_with_retries] returns the
    failure without output, and the world is untouched. *)
Theorem execute_with_retries_no_attempt max_retries command w :
  max_retries <= 0 ->
  execute_with_retries host max_retries command w
  = Some (Ok ((false, py "No error output captured."), w, [])).
Proof.
  intros H. unfold execute_with_retries, execute_with_retries_fuel.
  apply retry_loop_done. apply Z.ltb_ge. exact H.
Qed.

(** X6. When the first attempt succeeds, [execute_with_retries] returns
    its output at once, without sleeping, whatever the maximum. *)
Theorem execute_with_retries_first_success max_retries command w out w' :
  run_command host command w = Ok ((true, out), w') ->
  1 <= max_retries ->
  execute_with_retries host max_retries command w
  = Some (Ok ((true, out), w', [Attempt 1])).
Proof.
  intros Hrun Hmax. unfold execute_with_retries, execute_with_retries_fuel.
  rewrite retry_loop_step by (apply Z.ltb_lt; lia). rewrite Hrun. reflexivity.
Qed.

(** One attempt whose output holds a marker ends the loop. *)
Lemma retry_loop_marker fuel max_exec_retries command w out w' :
  run_command host command w = Ok ((false, out), w') ->
  is_no_retry_error out = true ->
  1 <= max_exec_retries ->
  retry_loop host (S fuel) max_exec_retries command 0
    (py "No error output captured.") w []
  = Some (Ok ((false, out), w', [Attempt 1])).
Proof.
  intros Hrun Hmark Hmax.
  rewrite retry_loop_step by (apply Z.ltb_lt; lia). rewrite Hrun.
  cbv zeta iota. rewrite Hmark. reflexivity.
Qed.

(** X7. The retry policy reads the text of the failure: when the output
    of the first failed attempt holds one of the five markers, whatever
    produced it, there is no sleep and no second attempt. *)
Theorem execute_with_retries_marker max_retries command w out w' marker :
  run_command host command w = Ok ((false, out), w') ->
  In marker no_retry_errors ->
  contains marker out = true ->
  1 <= max_retries ->
  execute_with_retries host max_retries command w
  = Some (Ok ((false, out), w', [Attempt 1])).
Proof.
  intros Hrun Hin Hc Hmax. apply retry_loop_marker; try assumption.
  unfold is_no_retry_error. apply existsb_exists. exists marker.
  split; assumption.
Qed.

(** X8. A plain command with a quote that is not closed is never
    launched: the world is untouched, the failure names the error of
    the split and the command, and it is not retried. *)
Theorem execute_with_retries_unclosed_quote max_retries command w e :
  _looks_like_shell_script (platform_system host) command = Ok false ->
  shlex_split command = Raise (ValueError e) ->
  1 <= max_retries ->
  execute_with_retries host max_retries command w
  = Some (Ok ((false,
               py "Error splitting command string (check quoting): " ++ e
               ++ [LF] ++ py "Command: " ++ command), w, [Attempt 1])).
Proof.
  intros Hshell Hsplit Hmax. apply retry_loop_marker; [| |exact Hmax].
  - unfold run_command. rewrite Hshell. simpl.
    unfold run_command_try. rewrite Hsplit. reflexivity.
  - unfold is_no_retry_error. apply existsb_exists.
    exists (py "Error splitting command string").
    split; [left; reflexivity|].
    apply contains_spec. exists [].
    exists (py " (check quoting): " ++ e ++ [LF] ++ py "Command: " ++ command).
    reflexivity.
Qed.

(** X9. A launch that times out is reported with the command and is not
    retried. *)
Theorem execute_with_retries_timeout max_retries command arg w w' :
  launched_as host command arg ->
  subprocess_run host w arg = (RaisesTimeoutExpired, w') ->
  1 <= max_retries ->
  execute_with_retries host max_retries command w
  = Some (Ok ((false,
               py "Error: Command timed out after 300 seconds." ++ [LF]
               ++ py "Command: " ++ command), w', [Attempt 1])).
Proof.
  intros Harg Hrun Hmax. apply retry_loop_marker; [| |exact Hmax].
  - unfold run_command, run_command_try, launch.
    destruct Harg as [[Hc ->] | [Hc [executable [rest [Hs ->]]]]];
      rewrite Hc; simpl; [|rewrite Hs]; rewrite Hrun; reflexivity.
  - unfold is_no_retry_error. apply existsb_exists.
    exists (py "timed out").
    split; [right; right; right; right; left; reflexivity|].
    apply contains_spec. exists (py "Error: Command ").
    exists (py " after 300 seconds." ++ [LF] ++ py "Command: " ++ command).
    reflexivity.
Qed.












End ExecutorProperties.

Section ExecutorPropertiesExamples.

Import CommandExecutor Scenario MoreScenarios.

Lemma execute_with_retries_backoff_witness :
  [Attempt 1; Sleep 2; Attempt 2]
  = backoff_trace (attempts [Attempt 1; Sleep 2; Attempt 2]) /\
  Z.of_nat (attempts [Attempt 1; Sleep 2; Attempt 2]) <= Z.max 0 2 /\
  sleeps [Attempt 1; Sleep 2; Attempt 2]
  = backoff_sleeps (attempts [Attempt 1; Sleep 2; Attempt 2]) /\
  (attempts [Attempt 1; Sleep 2; Attempt 2] = 0%nat ->
   (false, py "Command failed with exit code 1." ++ [LF]
           ++ py "Stderr:" ++ [LF] ++ py "failure 1")
   = (false, py "No error output captured.")).
Proof.
  apply (execute_with_retries_backoff failing_host 2
           (py "ffmpeg -i a.mp4 out.mp4") 0%nat
           (false, py "Command failed with exit code 1." ++ [LF]
                   ++ py "Stderr:" ++ [LF] ++ py "failure 1") 2%nat
           [Attempt 1; Sleep 2; Attempt 2]).
  reflexivity.
Defined.

Lemma execute_with_retries_no_attempt_witness :
  execute_with_retries failing_host (-1) (py "ffmpeg -i a.mp4 out.mp4") 0%nat
  = Some (Ok ((false, py "No error output captured."), 0%nat, [])).
Proof.
  apply (execute_with_retries_no_attempt failing_host (-1)
           (py "ffmpeg -i a.mp4 out.mp4") 0%nat).
  lia.
Defined.

Lemma execute_with_retries_first_success_witness :
  execute_with_retries succeeding_host 3 (py "ffmpeg -i a.mp4 out.mp4") 0%nat
  = Some (Ok ((true, py "Stdout:" ++ [LF] ++ py "done"), 1%nat, [Attempt 1])).
Proof.
  apply (execute_with_retries_first_success succeeding_host 3
           (py "ffmpeg -i a.mp4 out.mp4") 0%nat
           (py "Stdout:" ++ [LF] ++ py "done") 1%nat);
    [reflexivity | lia].
Defined.

Lemma execute_with_retries_marker_witness :
  execute_with_retries globbing_host 3 (py "cat *.mov > all.mov") tt
  = Some (Ok ((false,
               py "Command failed with exit code 1." ++ [LF]
               ++ py "Stderr:" ++ [LF] ++ py "zsh: no matches found: *.mov"),
              tt, [Attempt 1])).
Proof.
  apply (execute_with_retries_marker globbing_host 3
           (py "cat *.mov > all.mov") tt
           (py "Command failed with exit code 1." ++ [LF]
            ++ py "Stderr:" ++ [LF] ++ py "zsh: no matches found: *.mov")
           tt (py "no matches found"));
    [reflexivity | simpl; tauto | reflexivity | lia].
Defined.

Lemma execute_with_retries_unclosed_quote_witness :
  execute_with_retries bare_host 3 (py "ffmpeg -i 'a.mp4 out.mp4") tt
  = Some (Ok ((false,
               py "Error splitting command string (check quoting): "
               ++ py "No closing quotation"
               ++ [LF] ++ py "Command: " ++ py "ffmpeg -i 'a.mp4 out.mp4"),
              tt, [Attempt 1])).
Proof.
  apply (execute_with_retries_unclosed_quote bare_host 3
           (py "ffmpeg -i 'a.mp4 out.mp4") tt (py "No closing quotation"));
    [reflexivity | reflexivity | lia].
Defined.

Lemma execute_with_retries_timeout_witness :
  execute_with_retries hanging_host 3 (py "ffmpeg -i a.mp4 out.mp4") 0%nat
  = Some (Ok ((false,
               py "Error: Command timed out after 300 seconds." ++ [LF]
               ++ py "Command: " ++ py "ffmpeg -i a.mp4 out.mp4"),
              1%nat, [Attempt 1])).
Proof.
  apply (execute_with_retries_timeout hanging_host 3
           (py "ffmpeg -i a.mp4 out.mp4")
           (Argv [py "ffmpeg"; py "-i"; py "a.mp4"; py "out.mp4"]) 0%nat 1%nat);
    [|reflexivity | lia].
  right. split; [reflexivity|].
  exists (py "ffmpeg"), [py "-i"; py "a.mp4"; py "out.mp4"].
  split; reflexivity.
Defined.



End ExecutorPropertiesExamples.


(* ================================================================== *)
(** * Further properties of the substitution of the input file *)

Section Substitution.

Import CommandGenerator.

Lemma is_input_designator_false token :
  is_input_designator token = false <-> lower token <> py "-i".
Proof. apply str_eqb_neq. Qed.

Lemma tokenize_join tokens : tokenize (shlex_join tokens) = tokens.
Proof. unfold tokenize. rewrite shlex_split_join. reflexivity. Qed.

(** Once an input designator was found, the loop keeps the tokens that
    are neither a designator nor the token after one: what it keeps
    holds no designator, is part of the tokens in their order, and does
    not depend on the file. *)
Lemma replace_loop_found actual_file tokens :
  Forall (fun t => lower t <> py "-i") (replace_loop actual_file true tokens) /\
  sublist (replace_loop actual_file true tokens) tokens /\
  forall other_file,
    replace_loop other_file true tokens = replace_loop actual_file true tokens.
Proof.
  remember (length tokens) as n eqn:Hn.
  revert tokens Hn. induction n as [n IH] using lt_wf_ind. intros tokens ->.
  destruct tokens as [|token rest]; [repeat split; constructor|].
  simpl. destruct (str_eqb (lower token) (py "-i")) eqn:E.
  - destruct rest as [|argument rest']; simpl.
    + repeat split; [constructor | apply sublist_nil_l].
    + destruct (IH (length rest')) with (tokens := rest')
        as [Hfree [Hsub Hfile]]; [simpl; lia | reflexivity|].
      repeat split; [exact Hfree | | exact Hfile].
      apply sublist_cons, sublist_cons. exact Hsub.
  - destruct (IH (length rest)) with (tokens := rest)
      as [Hfree [Hsub Hfile]]; [simpl; lia | reflexivity|].
    apply str_eqb_neq in E.
    repeat split.
    + constructor; assumption.
    + apply sublist_skip. exact Hsub.
    + intros other_file. rewrite Hfile. reflexivity.
Qed.

Lemma replace_loop_free actual_file found_input tokens :
  Forall (fun t => lower t <> py "-i") tokens ->
  replace_loop actual_file found_input tokens = tokens.
Proof.
  intros H. rewrite <- (app_nil_r tokens) at 1.
  rewrite replace_loop_others by exact H. apply app_nil_r.
Qed.

(** The tokens of the result, by the place of the first designator. *)
Lemma replace_loop_first actual_file pre d argument rest :
  Forall (fun t => lower t <> py "-i") pre ->
  lower d = py "-i" ->
  replace_loop actual_file false (pre ++ d :: argument :: rest)
  = pre ++ d :: actual_file :: replace_loop actual_file true rest.
Proof.
  intros Hpre Hd. rewrite replace_loop_others by exact Hpre.
  apply str_eqb_eq in Hd. simpl. rewrite Hd. reflexivity.
Qed.

Lemma replace_loop_dangling actual_file pre d :
  Forall (fun t => lower t <> py "-i") pre ->
  lower d = py "-i" ->
  replace_loop actual_file false (pre ++ [d]) = pre ++ [d].
Proof.
  intros Hpre Hd. rewrite replace_loop_others by exact Hpre.
  apply str_eqb_eq in Hd. simpl. rewrite Hd. reflexivity.
Qed.

(** The tokens up to the first designator. *)
Lemma first_designator tokens :
  Forall (fun t => lower t <> py "-i") tokens \/
  exists pre d rest,
    tokens = pre ++ d :: rest /\
    Forall (fun t => lower t <> py "-i") pre /\ lower d = py "-i".
Proof.
  induction tokens as [|token tokens IH]; [left; constructor|].
  destruct (str_eqb (lower token) (py "-i")) eqn:E.
  - right. exists [], token, tokens. apply str_eqb_eq in E.
    repeat split; [constructor | exact E].
  - apply str_eqb_neq in E. destruct IH as [IH | [pre [d [rest [-> [Hpre Hd]]]]]].
    + left. constructor; assumption.
    + right. exists (token :: pre), d, rest.
      repeat split; [constructor; assumption | exact Hd].
Qed.

(** X13. A second substitution undoes the first: substituting a file in
    the result of a substitution gives what substituting it in the
    command gives; with the same file, the second one changes
    nothing. *)
Theorem replace_placeholder_twice command first_file second_file :
  replace_placeholder_with_file
    (replace_placeholder_with_file command first_file) second_file
  = replace_placeholder_with_file command second_file.
Proof.
  unfold replace_placeholder_with_file. rewrite tokenize_join. f_equal.
  destruct (first_designator (tokenize command))
    as [Hfree | [pre [d [[|argument rest] [-> [Hpre Hd]]]]]].
  - rewrite (replace_loop_free first_file false _ Hfree). reflexivity.
  - rewrite (replace_loop_dangling first_file pre d Hpre Hd). reflexivity.
  - rewrite (replace_loop_first first_file pre d argument rest Hpre Hd).
    rewrite !replace_loop_first by assumption.
    destruct (replace_loop_found first_file rest) as [Hfree [_ Hfile]].
    rewrite replace_loop_free by exact Hfree.
    rewrite (Hfile second_file). reflexivity.
Qed.

(** X14. The file is inserted only after an input designator that a
    token follows: when the tokens of the command hold no designator, or
    one that is the last token, the result has the tokens of the
    command, whatever the file. *)
Theorem replace_placeholder_no_argument command actual_file pre last :
  tokenize command = pre ++ last ->
  Forall (fun t => is_input_designator t = false) pre ->
  last = [] \/ (exists d, last = [d] /\ is_input_designator d = true) ->
  shlex_split (replace_placeholder_with_file command actual_file)
  = Ok (tokenize command).
Proof.
  intros Htokens Hpre Hlast.
  unfold replace_placeholder_with_file. rewrite shlex_split_join. f_equal.
  rewrite Htokens.
  assert (Hpre' : Forall (fun t => lower t <> py "-i") pre).
  { eapply List.Forall_impl; [|exact Hpre].
    intros t. apply is_input_designator_false. }
  destruct Hlast as [-> | [d [-> Hd]]].
  - rewrite app_nil_r. apply replace_loop_free. exact Hpre'.
  - apply replace_loop_dangling; [exact Hpre'|].
    apply str_eqb_eq. exact Hd.
Qed.

(** X15. However many input designators the command holds, the result
    holds the first one alone: when a token follows the first
    designator, the tokens of the result are the tokens before it, the
    designator, the file, and of the tokens after its argument those
    that are neither a designator nor the token after one, in their
    order. *)
Theorem replace_placeholder_first_input command actual_file pre d argument rest :
  tokenize command = pre ++ d :: argument :: rest ->
  Forall (fun t => is_input_designator t = false) pre ->
  is_input_designator d = true ->
  exists kept,
    shlex_split (replace_placeholder_with_file command actual_file)
    = Ok (pre ++ d :: actual_file :: kept) /\
    Forall (fun t => is_input_designator t = false) kept /\
    sublist kept rest.
Proof.
  intros Htokens Hpre Hd.
  unfold replace_placeholder_with_file. rewrite shlex_split_join, Htokens.
  assert (Hpre' : Forall (fun t => lower t <> py "-i") pre).
  { eapply List.Forall_impl; [|exact Hpre].
    intros t. apply is_input_designator_false. }
  rewrite replace_loop_first; [|exact Hpre' | apply str_eqb_eq; exact Hd].
  destruct (replace_loop_found actual_file rest) as [Hfree [Hsub _]].
  exists (replace_loop actual_file true rest).
  split; [reflexivity|]. split; [|exact Hsub].
  eapply List.Forall_impl; [|exact Hfree].
  intros t. apply is_input_designator_false.
Qed.

(** X16. The result never holds two input designators, unless the file
    is one itself. *)
Theorem replace_placeholder_at_most_one_input command actual_file :
  is_input_designator actual_file = false ->
  exists tokens,
    shlex_split (replace_placeholder_with_file command actual_file) = Ok tokens /\
    (length (List.filter is_input_designator tokens) <= 1)%nat.
Proof.
  intros Hfile.
  unfold replace_placeholder_with_file. rewrite shlex_split_join.
  eexists. split; [reflexivity|].
  assert (Hnone : forall l, Forall (fun t => lower t <> py "-i") l ->
                            List.filter is_input_designator l = []).
  { induction 1 as [|t l Ht _ IH]; [reflexivity|]. simpl.
    apply is_input_designator_false in Ht. rewrite Ht. exact IH. }
  destruct (first_designator (tokenize command))
    as [Hfree | [pre [d [[|argument rest] [-> [Hpre Hd]]]]]].
  - rewrite replace_loop_free by exact Hfree.
    rewrite Hnone by exact Hfree. simpl. lia.
  - rewrite replace_loop_dangling by assumption.
    rewrite List.filter_app, Hnone by exact Hpre. simpl.
    destruct (is_input_designator d); simpl; lia.
  - rewrite replace_loop_first by assumption.
    destruct (replace_loop_found actual_file rest) as [Hfree _].
    rewrite List.filter_app, Hnone by exact Hpre. simpl.
    rewrite Hfile, Hnone by exact Hfree.
    destruct (is_input_designator d); simpl; lia.
Qed.

End Substitution.

Section SubstitutionExamples.

Import CommandGenerator.

Lemma replace_placeholder_no_argument_witness :
  shlex_split (replace_placeholder_with_file (py "ffmpeg -y out.mp4 -I")
                 (py "/tmp/clip.mp4"))
  = Ok (tokenize (py "ffmpeg -y out.mp4 -I")).
Proof.
  apply (replace_placeholder_no_argument (py "ffmpeg -y out.mp4 -I")
           (py "/tmp/clip.mp4") [py "ffmpeg"; py "-y"; py "out.mp4"] [py "-I"]).
  - reflexivity.
  - repeat constructor.
  - right. exists (py "-I"). split; reflexivity.
Defined.

Lemma replace_placeholder_first_input_witness :
  exists kept,
    shlex_split
      (replace_placeholder_with_file
         (py "ffmpeg -i a.mp4 -i b.mp4 -map 0 -I c.mp4 -i") (py "/tmp/clip.mp4"))
    = Ok ([py "ffmpeg"] ++ py "-i" :: py "/tmp/clip.mp4" :: kept) /\
    Forall (fun t => is_input_designator t = false) kept /\
    sublist kept [py "-i"; py "b.mp4"; py "-map"; py "0"; py "-I"; py "c.mp4";
                  py "-i"].
Proof.
  apply (replace_placeholder_first_input
           (py "ffmpeg -i a.mp4 -i b.mp4 -map 0 -I c.mp4 -i") (py "/tmp/clip.mp4")
           [py "ffmpeg"] (py "-i") (py "a.mp4")
           [py "-i"; py "b.mp4"; py "-map"; py "0"; py "-I"; py "c.mp4"; py "-i"]).
  - reflexivity.
  - repeat constructor.
  - reflexivity.
Defined.

Lemma replace_placeholder_at_most_one_input_witness :
  exists tokens,
    shlex_split
      (replace_placeholder_with_file (py "ffmpeg -i a.mp4 -i b.mp4 out.mp4")
         (py "/tmp/clip.mp4"))
    = Ok tokens /\
    (length (List.filter is_input_designator tokens) <= 1)%nat.
Proof.
  apply (replace_placeholder_at_most_one_input
           (py "ffmpeg -i a.mp4 -i b.mp4 out.mp4") (py "/tmp/clip.mp4")).
  reflexivity.
Defined.

End SubstitutionExamples.

(* ================================================================== *)
(** * Further properties of the repair of the quotes *)

Section QuoteRepairProperties.

Import Regex CommandGenerator.

Lemma remove_char_absent c s : ~ In c s -> remove_char c s = s.
Proof.
  unfold remove_char. induction s as [|x s IH]; intros H; [reflexivity|].
  simpl. destruct (Ascii.eqb x c) eqn:E.
  - apply Ascii.eqb_eq in E. subst. exfalso. apply H. left. reflexivity.
  - simpl. rewrite IH; [reflexivity|]. intros Hin. apply H. right. exact Hin.
Qed.

Lemma no_scale_min_rewritten filters :
  no_scale_min filters -> scale_rewritten filters filters.
Proof.
  induction filters as [|c filters IH]; intros H; [constructor|].
  apply rewritten_char.
  - intros args rest. apply (H [] (c :: filters) args rest). reflexivity.
  - apply IH. intros before s args rest ->.
    apply (H (c :: before) s args rest). reflexivity.
Qed.

Lemma vf_argument_no_backslash s m :
  vf_argument s m ->
  ~ In BACKSLASH (vf_filters m) ->
  ~ In BACKSLASH (vf_prefix m ++ [DQUOTE] ++ vf_filters m ++ [DQUOTE]).
Proof.
  intros [ws q filters rest _ Hws _ _ _] Hback. cbn [vf_prefix vf_filters] in *.
  intros Hin.
  apply in_app_or in Hin as [Hin|Hin].
  { apply in_app_or in Hin as [Hin|Hin].
    - repeat (destruct Hin as [Hin|Hin]; [discriminate Hin|]). exact Hin.
    - rewrite List.Forall_forall in Hws. specialize (Hws _ Hin).
      discriminate Hws. }
  apply in_app_or in Hin as [Hin|Hin].
  { destruct Hin as [Hin|[]]. discriminate Hin. }
  apply in_app_or in Hin as [Hin|Hin]; [exact (Hback Hin)|].
  destruct Hin as [Hin|[]]. discriminate Hin.
Qed.

(** X17. A command that is already as the repair leaves it is returned
    unchanged: when the value of the first quoted video-filter argument
    is in double quotes and holds neither a backslash nor a construct
    scale=min(...), [fix_command_quotes] returns the command itself. *)
Theorem fix_command_quotes_unchanged command before m :
  first_vf_argument command before m ->
  vf_quote m = DQUOTE ->
  ~ In BACKSLASH (vf_filters m) ->
  no_scale_min (vf_filters m) ->
  fix_command_quotes command = Ok command.
Proof.
  intros Hfirst Hquote Hback Hnone.
  unfold fix_command_quotes.
  rewrite (search_vf_first [] command before m Hfirst).
  change ([] ++ before) with before. cbv zeta.
  rewrite (scale_rewritten_unique (vf_filters m)
             (sub_scale (S (length (vf_filters m))) (vf_filters m))
             (vf_filters m)
             (sub_scale_rewritten _ _ (Nat.lt_succ_diag_r _))
             (no_scale_min_rewritten _ Hnone)).
  destruct Hfirst as [s [-> [Harg _]]].
  pose proof (vf_argument_no_backslash s m Harg Hback) as Hnew.
  destruct Harg as [ws q filters rest _ _ _ Hq _].
  cbn [vf_prefix vf_filters vf_quote vf_rest] in *. subst q.
  rewrite remove_char_absent by exact Hq.
  rewrite expand_template_literal by exact Hnew.
  unfold bind. rewrite <- !app_assoc. reflexivity.
Qed.

End QuoteRepairProperties.

Section QuoteRepairPropertiesExamples.

Import Regex CommandGenerator Scenario.

Lemma fix_command_quotes_unchanged_witness :
  fix_command_quotes
    (py "ffmpeg -i in.mp4 -vf " ++ quoted (py "hflip,scale=640:-2") ++ py " out.mp4")
  = Ok (py "ffmpeg -i in.mp4 -vf " ++ quoted (py "hflip,scale=640:-2")
        ++ py " out.mp4").
Proof.
  apply (fix_command_quotes_unchanged
           (py "ffmpeg -i in.mp4 -vf " ++ quoted (py "hflip,scale=640:-2")
            ++ py " out.mp4")
           (py "ffmpeg -i in.mp4 ")
           {| vf_prefix := py "-vf "; vf_quote := DQUOTE;
              vf_filters := py "hflip,scale=640:-2"; vf_rest := py " out.mp4" |}).
  - destruct (search_vf_sound [] 
                (py "ffmpeg -i in.mp4 -vf " ++ quoted (py "hflip,scale=640:-2")
                 ++ py " out.mp4")
                (py "ffmpeg -i in.mp4 ")
                {| vf_prefix := py "-vf "; vf_quote := DQUOTE;
                   vf_filters := py "hflip,scale=640:-2";
                   vf_rest := py " out.mp4" |} eq_refl)
      as [before [E H]].
    simpl in E. subst before. exact H.
  - reflexivity.
  - cbn [vf_filters]. intros H.
    repeat (destruct H as [H|H]; [discriminate H|]). exact H.
  - cbn [vf_filters]. intros before s args rest E Hhere.
    apply match_scale_here_spec in Hhere.
    assert (Hall : forallb (fun k =>
                      match match_scale_here (drop k (py "hflip,scale=640:-2")) with
                      | None => true | Some _ => false end)
                     (seq 0 19) = true) by reflexivity.
    rewrite forallb_forall in Hall.
    specialize (Hall (length before)).
    assert (Hs : drop (length before) (py "hflip,scale=640:-2") = s).
    { rewrite E. apply drop_app_length. }
    rewrite Hs, Hhere in Hall.
    assert (length before <= 18)%nat.
    { apply (f_equal (@length ascii)) in E. rewrite length_app in E.
      change (length (py "hflip,scale=640:-2")) with 18%nat in E. lia. }
    discriminate Hall. apply in_seq. lia.
Defined.

End QuoteRepairPropertiesExamples.


(* ================================================================== *)
(** * Further properties of the sanitizers *)

Section Trimming.

Lemma lstrip_blank_app ws s : blank ws -> lstrip (ws ++ s) = lstrip s.
Proof. induction 1 as [|c ws Hc _ IH]; simpl; [reflexivity|]. rewrite Hc. exact IH. Qed.

Lemma lstrip_spec s :
  exists ws, blank ws /\ s = ws ++ lstrip s /\
             forall c, head (lstrip s) = Some c -> isspace c = false.
Proof.
  induction s as [|c s [ws [Hws [E Hhead]]]]; simpl.
  - exists []. repeat split; [constructor | discriminate].
  - destruct (isspace c) eqn:Ec.
    + exists (c :: ws). repeat split; [constructor; assumption | | exact Hhead].
      simpl. f_equal. exact E.
    + exists []. repeat split; [constructor|].
      intros c' [= <-]. exact Ec.
Qed.

Lemma lstrip_head c s : isspace c = false -> lstrip (c :: s) = c :: s.
Proof. intros H. simpl. rewrite H. reflexivity. Qed.

Lemma lstrip_fixed s :
  (forall c, head s = Some c -> isspace c = false) -> lstrip s = s.
Proof.
  destruct s as [|c s]; [reflexivity|]. intros H.
  apply lstrip_head. apply H. reflexivity.
Qed.

Lemma lstrip_lstrip s : lstrip (lstrip s) = lstrip s.
Proof.
  destruct (lstrip_spec s) as [ws [_ [_ Hhead]]]. apply lstrip_fixed. exact Hhead.
Qed.

Lemma lstrip_app_head s c rest :
  isspace c = false -> lstrip (s ++ c :: rest) = lstrip s ++ c :: rest.
Proof.
  intros Hc. induction s as [|x s IH]; simpl.
  - rewrite Hc. reflexivity.
  - destruct (isspace x); [exact IH | reflexivity].
Qed.

Lemma rstrip_app_last s c : isspace c = false -> rstrip (s ++ [c]) = s ++ [c].
Proof.
  intros Hc. unfold rstrip. rewrite rev_app_distr. simpl. rewrite Hc.
  simpl. rewrite rev_involutive. reflexivity.
Qed.

Lemma rstrip_blank_app s ws : blank ws -> rstrip (s ++ ws) = rstrip s.
Proof.
  intros H. unfold rstrip. rewrite rev_app_distr, lstrip_blank_app; [reflexivity|].
  apply Forall_rev. exact H.
Qed.

Lemma rstrip_cons c s : isspace c = false -> rstrip (c :: s) = c :: rstrip s.
Proof.
  intros Hc. unfold rstrip. simpl. rewrite lstrip_app_head by exact Hc.
  rewrite rev_app_distr. reflexivity.
Qed.

Lemma last_rev (s : pystr) : last (rev s) = head s.
Proof. destruct s as [|c s]; [reflexivity|]. simpl. apply last_snoc. Qed.

Lemma rstrip_spec s :
  exists ws, blank ws /\ s = rstrip s ++ ws /\
             forall c, last (rstrip s) = Some c -> isspace c = false.
Proof.
  unfold rstrip. destruct (lstrip_spec (rev s)) as [ws [Hws [E Hhead]]].
  exists (rev ws). repeat split.
  - apply Forall_rev. exact Hws.
  - rewrite <- rev_app_distr, <- E, rev_involutive. reflexivity.
  - intros c H. apply Hhead. rewrite last_rev in H. exact H.
Qed.

Lemma rstrip_fixed s :
  (forall c, last s = Some c -> isspace c = false) -> rstrip s = s.
Proof.
  destruct s as [|x s _] using rev_ind; [reflexivity|]. intros H.
  apply rstrip_app_last. apply H. apply last_snoc.
Qed.

Lemma head_rstrip s c :
  isspace c = false -> head s = Some c -> head (rstrip s) = Some c.
Proof.
  destruct s as [|x s]; [discriminate|]. intros Hc [= ->].
  rewrite rstrip_cons by exact Hc. reflexivity.
Qed.

(** What [str.strip] returns is trimmed, and a trimmed string is
    returned as it is. *)
Lemma strip_trimmed s : trimmed (strip s).
Proof.
  unfold strip. destruct (lstrip_spec s) as [_ [_ [_ Hhead]]].
  destruct (rstrip_spec (lstrip s)) as [_ [_ [_ Hlast]]].
  intros c [H|H]; [|apply Hlast; exact H].
  destruct (lstrip s) as [|x t]; [discriminate H|].
  pose proof (Hhead x eq_refl) as Hx.
  rewrite rstrip_cons in H by exact Hx. injection H as <-. exact Hx.
Qed.

Lemma strip_fixed s : trimmed s -> strip s = s.
Proof.
  intros H. unfold strip. rewrite lstrip_fixed.
  - apply rstrip_fixed. intros c Hc. apply H. right. exact Hc.
  - intros c Hc. apply H. left. exact Hc.
Qed.

Lemma lstrip_strip s : lstrip (strip s) = strip s.
Proof.
  apply lstrip_fixed. intros c Hc. apply (strip_trimmed s). left. exact Hc.
Qed.

Lemma strip_blank_app ws s : blank ws -> strip (ws ++ s) = strip s.
Proof. intros H. unfold strip. rewrite lstrip_blank_app by exact H. reflexivity. Qed.

Lemma lstrip_all_blank s : blank s -> lstrip s = [].
Proof. induction 1 as [|c s Hc _ IH]; simpl; [reflexivity|]. rewrite Hc. exact IH. Qed.

Lemma strip_app_blank s ws : blank ws -> strip (s ++ ws) = strip s.
Proof.
  intros H. unfold strip.
  destruct (lstrip_spec s) as [ws0 [Hws0 [E Hhead]]].
  destruct (lstrip s) as [|c t] eqn:El.
  - rewrite app_nil_r in E. subst s.
    rewrite lstrip_all_blank; [reflexivity|]. apply Forall_app. split; assumption.
  - rewrite E at 1. rewrite <- app_assoc, lstrip_blank_app by exact Hws0.
    simpl app. rewrite lstrip_head by (apply Hhead; reflexivity).
    change (c :: t ++ ws) with ((c :: t) ++ ws).
    apply rstrip_blank_app. exact H.
Qed.

Lemma strip_lstrip s : strip (lstrip s) = strip s.
Proof. unfold strip. rewrite lstrip_lstrip. reflexivity. Qed.

(** The parts of a string. *)
Lemma part_of_refl s : part_of s s.
Proof. exists [], []. rewrite app_nil_r. reflexivity. Qed.

Lemma part_of_trans r s t : part_of r s -> part_of s t -> part_of r t.
Proof.
  intros [a [b ->]] [c [d ->]]. exists (c ++ a), (b ++ d).
  rewrite <- !app_assoc. reflexivity.
Qed.

Lemma part_of_drop n s : part_of (drop n s) s.
Proof.
  exists (take n s), []. rewrite app_nil_r. symmetry. apply take_drop.
Qed.

Lemma part_of_take n s : part_of (take n s) s.
Proof. exists [], (drop n s). symmetry. apply take_drop. Qed.

Lemma part_of_lstrip s : part_of (lstrip s) s.
Proof.
  destruct (lstrip_spec s) as [ws [_ [E _]]].
  exists ws, []. rewrite app_nil_r. exact E.
Qed.

Lemma part_of_rstrip s : part_of (rstrip s) s.
Proof.
  destruct (rstrip_spec s) as [ws [_ [E _]]]. exists [], ws. exact E.
Qed.

Lemma part_of_strip s : part_of (strip s) s.
Proof.
  unfold strip. eapply part_of_trans; [apply part_of_rstrip | apply part_of_lstrip].
Qed.

Lemma part_of_slice start stop s : part_of (slice start stop s) s.
Proof.
  unfold slice. eapply part_of_trans; [apply part_of_take | apply part_of_drop].
Qed.

End Trimming.

Section SanitizerProperties.

Import Regex AppCommandGenerator.

(** A string that does not start with a fence matches no fence. *)
Lemma match_fence_none s :
  trimmed s -> startswith (py "```") s = false -> match_fence s = None.
Proof.
  intros Ht Hs. unfold match_fence.
  rewrite lstrip_fixed by (intros c Hc; apply Ht; left; exact Hc).
  rewrite Hs. reflexivity.
Qed.

Lemma remove_fence_none s :
  trimmed s -> startswith (py "```") s = false -> remove_fence s = s.
Proof.
  intros Ht Hs. unfold remove_fence. rewrite match_fence_none by assumption.
  reflexivity.
Qed.

Lemma remove_fence_trimmed s : trimmed s -> trimmed (remove_fence s).
Proof.
  intros H. unfold remove_fence.
  destruct (match_fence s); [apply strip_trimmed | exact H].
Qed.

Lemma part_of_remove_fence s : part_of (remove_fence s) s.
Proof.
  unfold remove_fence, match_fence.
  destruct (startswith (py "```") (lstrip s)); [|apply part_of_refl].
  set (t := drop 3 (lstrip s)).
  set (u := if startswith_ci (py "json") t then drop 4 t else t).
  assert (Hu : part_of u s).
  { assert (Ht : part_of t s)
      by (eapply part_of_trans; [apply part_of_drop | apply part_of_lstrip]).
    unfold u. destruct (startswith_ci (py "json") t); [|exact Ht].
    eapply part_of_trans; [apply part_of_drop | exact Ht]. }
  cbv zeta. fold t. fold u.
  destruct (endswith (py "```") (rstrip (lstrip u))); [|apply part_of_refl].
  eapply part_of_trans; [apply part_of_strip|].
  eapply part_of_trans; [apply part_of_take|].
  eapply part_of_trans; [apply part_of_rstrip|].
  eapply part_of_trans; [apply part_of_lstrip | exact Hu].
Qed.

(** The three shapes of the result of the slicing step. *)
Lemma slice_json_object_cases t r :
  slice_json_object t = Ok r ->
  (r = t /\ (~ In "{"%char t \/ ~ In "}"%char t)) \/
  r = [] \/
  exists body, r = "{"%char :: body ++ ["}"%char].
Proof.
  intros H.
  destruct (slice_json_object_span t) as [r' [Hr [Hspan [Hempty Hlack]]]].
  change (CommandGenerator.slice_json_object t) with (slice_json_object t) in Hr.
  rewrite H in Hr. injection Hr as <-.
  destruct (first_occurrence "{" t) as [Hno | [a [b [E Ha]]]].
  { left. split; [apply Hlack; left; exact Hno | left; exact Hno]. }
  destruct (in_dec ascii_dec "}"%char t) as [Hin | Hno].
  2:{ left. split; [apply Hlack; right; exact Hno | right; exact Hno]. }
  destruct (last_occurrence "}" t Hin) as [a' [b' [E' Hb']]].
  right. rewrite E in E'.
  change (a ++ "{"%char :: b) with (a ++ ["{"%char] ++ b) in E'.
  change (a' ++ "}"%char :: b') with (a' ++ ["}"%char] ++ b') in E'.
  apply app_eq_inv in E' as [[k [Ek E2]] | [k [Ek E2]]].
  - (* the last closing brace comes first *)
    left. destruct k as [|x k].
    + rewrite app_nil_r in Ek. subst a'. simpl in E2. discriminate E2.
    + simpl in E2. injection E2 as <- E2.
      apply (Hempty a b E Ha).
      * rewrite Ek. apply in_or_app. right. left. reflexivity.
      * intros Hb. apply Hb'. rewrite E2. apply in_or_app. right. right. exact Hb.
  - destruct k as [|x k].
    + rewrite app_nil_r in Ek. subst a'. simpl in E2. discriminate E2.
    + simpl in E2. injection E2 as <- E2. right. exists k.
      apply (Hspan a k b'); [|exact Ha | exact Hb'].
      rewrite E, E2. reflexivity.
Qed.

Lemma slice_json_object_returns t : exists r, slice_json_object t = Ok r.
Proof.
  destruct (slice_json_object_span t) as [r [Hr _]]. exists r. exact Hr.
Qed.

Lemma trimmed_braces body : trimmed ("{"%char :: body ++ ["}"%char]).
Proof.
  intros c [H|H].
  - injection H as <-. reflexivity.
  - change ("{"%char :: body ++ ["}"%char])
      with (("{"%char :: body) ++ ["}"%char]) in H.
    rewrite last_snoc in H. injection H as <-. reflexivity.
Qed.

Lemma trimmed_nil : trimmed [].
Proof. intros c [H|H]; discriminate H. Qed.

(** X18. Without a fence the two sanitizers agree: on a string whose
    trimmed text does not start with three backquotes they return the
    same value. *)
Theorem clean_json_response_agree s :
  startswith (py "```") (strip s) = false ->
  clean_json_response (PyStr s) = CommandGenerator.clean_json_response (PyStr s).
Proof.
  intros H. unfold clean_json_response, CommandGenerator.clean_json_response.
  cbv zeta. rewrite remove_fence_none by (apply strip_trimmed || exact H).
  unfold CommandGenerator.strip_fence. rewrite H. reflexivity.
Qed.

(** X19. The sanitizer of the context-aware generator invents no text:
    what it returns is a contiguous part of the response. *)
Theorem clean_json_response_part s r :
  clean_json_response (PyStr s) = Ok r -> part_of r s.
Proof.
  unfold clean_json_response. cbv zeta. intros H.
  assert (Ht : part_of (remove_fence (strip s)) s)
    by (eapply part_of_trans; [apply part_of_remove_fence | apply part_of_strip]).
  revert H. generalize dependent (remove_fence (strip s)). intros t Ht.
  unfold slice_json_object, CommandGenerator.str_index, CommandGenerator.str_rindex.
  destruct (index "{" t) as [i|]; simpl.
  - destruct (rindex "}" t) as [j|]; simpl; intros [= <-]; [|exact Ht].
    eapply part_of_trans; [apply part_of_slice | exact Ht].
  - intros [= <-]. exact Ht.
Qed.

(** The slicing step keeps a trimmed string trimmed. *)
Lemma slice_json_object_trimmed t r :
  trimmed t -> slice_json_object t = Ok r -> trimmed r.
Proof.
  intros Ht Hr.
  destruct (slice_json_object_cases t r Hr) as [[-> _] | [-> | [body ->]]].
  - exact Ht.
  - apply trimmed_nil.
  - apply trimmed_braces.
Qed.

(** X20. Whatever it is given, the sanitizer of the context-aware
    generator returns a string that neither starts nor ends with
    whitespace. *)
Theorem clean_json_response_trimmed o :
  exists r, clean_json_response o = Ok r /\ trimmed r.
Proof.
  destruct o as [s| | | | |]; try (exists []; split; [reflexivity | apply trimmed_nil]).
  unfold clean_json_response. cbv zeta.
  destruct (slice_json_object_returns (remove_fence (strip s))) as [r Hr].
  exists r. split; [exact Hr|].
  apply (slice_json_object_trimmed _ r
           (remove_fence_trimmed (strip s) (strip_trimmed s)) Hr).
Qed.

(** X21. Sanitizing twice is sanitizing once, unless the result is a
    fence again: a result that does not start with three backquotes is
    returned as it is when it is sanitized again. *)
Theorem clean_json_response_again s r :
  clean_json_response (PyStr s) = Ok r ->
  startswith (py "```") r = false ->
  clean_json_response (PyStr r) = Ok r.
Proof.
  intros H Hfence.
  revert H. unfold clean_json_response. cbv zeta. intros H.
  assert (Htrim : trimmed r)
    by exact (slice_json_object_trimmed _ r
                (remove_fence_trimmed (strip s) (strip_trimmed s)) H).
  rewrite (strip_fixed r Htrim), (remove_fence_none r Htrim Hfence).
  apply slice_json_object_cases in H as [[-> Hlack] | [-> | [body ->]]].
  - unfold slice_json_object, CommandGenerator.str_index,
      CommandGenerator.str_rindex.
    destruct Hlack as [Hno | Hno].
    + rewrite (index_absent _ _ Hno). reflexivity.
    + rewrite (rindex_absent _ _ Hno).
      destruct (index "{" _); reflexivity.
  - reflexivity.
  - unfold slice_json_object, CommandGenerator.str_index,
      CommandGenerator.str_rindex.
    change ("{"%char :: body ++ ["}"%char])
      with (("{"%char :: body) ++ "}"%char :: []) at 2.
    rewrite rindex_last by (intros []).
    simpl index. simpl bind. unfold slice. rewrite drop_0. f_equal.
    apply take_ge. simpl. rewrite length_app. simpl. lia.
Qed.

Lemma space_lower_not_j c : isspace c = true -> Ascii.eqb "j" (lower_char c) = false.
Proof.
  intros H.
  pose proof (forall_chars
                (fun c => implb (isspace c) (negb (Ascii.eqb "j" (lower_char c))))
                eq_refl c) as Hc.
  cbv beta in Hc. rewrite H in Hc. apply negb_true_iff. exact Hc.
Qed.

Lemma endswith_app s p : endswith p (s ++ p) = true.
Proof.
  unfold endswith. rewrite rev_app_distr. apply startswith_spec.
  exists (rev s). reflexivity.
Qed.

(** The text between a fence, with or without the tag, and the closing
    fence, trimmed, is what the removal of the fence leaves. *)
Lemma remove_fence_fenced tag ws1 body ws2 :
  blank ws1 -> blank ws2 -> ws1 <> [] ->
  tag = [] \/ lower tag = py "json" ->
  remove_fence (py "```" ++ tag ++ ws1 ++ body ++ ws2 ++ py "```") = strip body.
Proof.
  intros Hws1 Hws2 Hne Htag. unfold remove_fence, match_fence.
  change (py "```") with ["`"%char; "`"%char; "`"%char].
  cbn [app]. rewrite lstrip_head by reflexivity.
  cbn [startswith Ascii.eqb Bool.eqb andb drop].
  assert (Hu : (if startswith_ci (py "json")
                     (tag ++ ws1 ++ body ++ ws2 ++ ["`"%char; "`"%char; "`"%char])
                then drop 4 (tag ++ ws1 ++ body ++ ws2 ++ ["`"%char; "`"%char; "`"%char])
                else tag ++ ws1 ++ body ++ ws2 ++ ["`"%char; "`"%char; "`"%char])
               = ws1 ++ body ++ ws2 ++ ["`"%char; "`"%char; "`"%char]).
  { destruct Htag as [-> | Htag].
    - destruct ws1 as [|w ws1]; [contradiction|].
      inversion Hws1 as [|? ? Hw _]. subst.
      cbn [app]. unfold startswith_ci.
      change (lower (py "json")) with ["j"%char; "s"%char; "o"%char; "n"%char].
      change (length (py "json")) with 4%nat.
      cbn [take lower map startswith]. rewrite space_lower_not_j by exact Hw.
      reflexivity.
    - rewrite (proj2 (startswith_ci_spec (py "json") _)).
      + apply drop_app_length'. rewrite <- (length_lower tag), Htag. reflexivity.
      + eexists. eexists. split; [reflexivity | exact Htag]. }
  cbv zeta. rewrite !drop_0, Hu.
  rewrite lstrip_blank_app by exact Hws1.
  rewrite (app_assoc body ws2).
  rewrite lstrip_app_head by reflexivity.
  set (x := lstrip (body ++ ws2)).
  change (x ++ ["`"%char; "`"%char; "`"%char])
    with (x ++ ["`"%char; "`"%char] ++ ["`"%char]).
  rewrite (app_assoc x), rstrip_app_last by reflexivity.
  rewrite <- app_assoc.
  change (["`"%char; "`"%char] ++ ["`"%char]) with ["`"%char; "`"%char; "`"%char].
  rewrite endswith_app.
  rewrite take_app_length' by (rewrite length_app; simpl; lia).
  unfold x. rewrite strip_lstrip. apply strip_app_blank. exact Hws2.
Qed.

Lemma trimmed_fenced middle :
  trimmed (py "```" ++ middle ++ py "```").
Proof.
  intros c [H|H].
  - injection H as <-. reflexivity.
  - change (py "```" ++ middle ++ py "```")
      with (py "```" ++ middle ++ ["`"%char; "`"%char] ++ ["`"%char]) in H.
    rewrite !app_assoc, last_snoc in H. injection H as <-. reflexivity.
Qed.

(** X22. One fence is transparent: a response wrapped in three
    backquotes, with the tag json in any letter case or without a tag,
    whitespace after the tag and any whitespace around, is sanitized as
    the text inside the fence is, when that text is not a fence
    itself. *)
Theorem clean_json_response_fenced ws0 tag ws1 body ws2 ws3 :
  blank ws0 -> blank ws1 -> blank ws2 -> blank ws3 ->
  ws1 <> [] ->
  tag = [] \/ lower tag = py "json" ->
  startswith (py "```") (strip body) = false ->
  clean_json_response
    (PyStr (ws0 ++ (py "```" ++ tag ++ ws1 ++ body ++ ws2 ++ py "```") ++ ws3))
  = clean_json_response (PyStr body).
Proof.
  intros Hws0 Hws1 Hws2 Hws3 Hne Htag Hbody.
  unfold clean_json_response. cbv zeta.
  rewrite strip_blank_app by exact Hws0.
  rewrite strip_app_blank by exact Hws3.
  rewrite strip_fixed.
  2:{ pose proof (trimmed_fenced (tag ++ ws1 ++ body ++ ws2)) as H.
      rewrite <- !app_assoc in H. exact H. }
  rewrite remove_fence_fenced by assumption.
  rewrite (remove_fence_none (strip body)) by (apply strip_trimmed || exact Hbody).
  reflexivity.
Qed.

End SanitizerProperties.

Section SanitizerPropertiesExamples.

Import Regex AppCommandGenerator.

Lemma clean_json_response_agree_witness :
  clean_json_response (PyStr (py "Here it is: {x} done" ++ [LF]))
  = CommandGenerator.clean_json_response
      (PyStr (py "Here it is: {x} done" ++ [LF])).
Proof.
  apply (clean_json_response_agree (py "Here it is: {x} done" ++ [LF])).
  reflexivity.
Defined.

Lemma clean_json_response_part_witness :
  part_of (py "{x}") (py " ```json" ++ [LF] ++ py "{x} " ++ [LF] ++ py "```").
Proof.
  apply (clean_json_response_part
           (py " ```json" ++ [LF] ++ py "{x} " ++ [LF] ++ py "```") (py "{x}")).
  reflexivity.
Defined.

Lemma clean_json_response_again_witness :
  clean_json_response (PyStr (py "{x}")) = Ok (py "{x}").
Proof.
  apply (clean_json_response_again
           (py " ```json" ++ [LF] ++ py "see {x} " ++ [LF] ++ py "```") (py "{x}"));
    reflexivity.
Defined.

Lemma clean_json_response_fenced_witness :
  clean_json_response
    (PyStr ([LF] ++ (py "```" ++ py "JSON" ++ [LF] ++ py "see {x}" ++ py "  "
                     ++ py "```") ++ [LF]))
  = clean_json_response (PyStr (py "see {x}")).
Proof.
  apply (clean_json_response_fenced [LF] (py "JSON") [LF] (py "see {x}")
           (py "  ") [LF]).
  - repeat constructor.
  - repeat constructor.
  - repeat constructor.
  - repeat constructor.
  - discriminate.
  - right. reflexivity.
  - reflexivity.
Defined.

End SanitizerPropertiesExamples.


(* ================================================================== *)
(** * Further properties of the prompt and of the model call *)

Section PromptProperties.

Import AppCommandGenerator.

Variable runtime : Runtime.

Lemma join_header (sep : pystr) header line lines :
  join sep (header :: line :: lines) = header ++ sep ++ join sep (line :: lines).
Proof. reflexivity. Qed.

Lemma join_line_head (sep : pystr) first lines line :
  exists rest, join sep ((first :: lines) ++ [line]) = first ++ rest.
Proof.
  revert first. induction lines as [|l lines IH]; intros first.
  - exists (sep ++ line). reflexivity.
  - destruct (IH l) as [rest Hrest]. exists (sep ++ l ++ rest).
    change ((first :: l :: lines) ++ [line]) with (first :: (l :: lines) ++ [line]).
    destruct ((l :: lines) ++ [line]) as [|x xs] eqn:E; [discriminate E|].
    rewrite join_header, <- Hrest. reflexivity.
Qed.

Lemma Ok_inj {A} (a b : A) : Ok a = Ok b -> a = b.
Proof. intros [= ->]. reflexivity. Qed.

(** X23. The file context is never empty: whenever
    [_format_file_context] returns, the text starts with the header
    line and holds at least one more line, which starts with a dash;
    the empty string of its last line is never returned. *)
Theorem format_file_context_header system_context r :
  _format_file_context runtime system_context = Ok r ->
  exists rest,
    r = [LF] ++ py "FILE CONTEXT:" ++ [LF] ++ py "- " ++ rest.
Proof.
  unfold _format_file_context. cbv zeta.
  set (header := [LF] ++ py "FILE CONTEXT:").
  set (explicit_file := get system_context "explicit_input_file").
  set (detected_files := get system_context "detected_files_in_directory").
  set (cwd := get_default system_context "current_directory" (PyStr (py "."))).
  set (summary_msg := get_default system_context "file_context_message" (PyStr [])).
  assert (Hshape : forall line tail,
             exists rest,
               (if (1 <? length (header :: (py "- " ++ line) :: tail))%nat
                then join [LF] (header :: (py "- " ++ line) :: tail)
                else [])
               = [LF] ++ py "FILE CONTEXT:" ++ [LF] ++ py "- " ++ rest).
  { intros line tail.
    change (1 <? length (header :: (py "- " ++ line) :: tail))%nat with true.
    cbv iota. rewrite join_header.
    destruct tail as [|l ls].
    - exists line. unfold header. cbn [join]. rewrite <- !app_assoc. reflexivity.
    - exists (line ++ [LF] ++ join [LF] (l :: ls)).
      unfold header. rewrite join_header. rewrite <- !app_assoc. reflexivity. }
  destruct (truthy explicit_file) eqn:Ee; destruct (truthy detected_files) eqn:Ed.
  - destruct (py_iter detected_files) as [files|e]; [|discriminate].
    cbv beta iota delta [bind].
    destruct (paths_for_prompt runtime files cwd) as [paths|e]; [|discriminate].
    destruct (py_first detected_files) as [first|e]; [|discriminate].
    rewrite !andb_false_r. intros H; apply Ok_inj in H; rewrite <- H.
    apply (Hshape (py "Explicit input file provided: '" ++ render runtime explicit_file
                   ++ py "' (Use this exact path)") [_; _]).
  - cbv beta iota delta [bind]. rewrite !andb_false_r. intros H; apply Ok_inj in H; rewrite <- H.
    apply (Hshape (py "Explicit input file provided: '" ++ render runtime explicit_file
                   ++ py "' (Use this exact path)") []).
  - destruct (py_iter detected_files) as [files|e]; [|discriminate].
    cbv beta iota delta [bind].
    destruct (paths_for_prompt runtime files cwd) as [paths|e]; [|discriminate].
    destruct (py_first detected_files) as [first|e]; [|discriminate].
    rewrite !andb_false_r. intros H; apply Ok_inj in H; rewrite <- H.
    apply (Hshape (py "Media files found in directory '" ++ render runtime cwd
                   ++ py "': "
                   ++ join (py ", ")
                        (map (fun f => [SQUOTE] ++ render runtime f ++ [SQUOTE]) paths))
             [_]).
  - cbv beta iota delta [bind]. rewrite !andb_true_r.
    destruct (truthy summary_msg); intros H; apply Ok_inj in H; rewrite <- H.
    + apply (Hshape (py "Additional context: " ++ render runtime summary_msg) []).
    + apply (Hshape (py "No specific input file provided or common media files detected in the directory '"
                     ++ render runtime cwd ++ py "'.") []).
Qed.

(** X24. The path that the prompt shows for a detected file is never
    longer than the path that was detected: it is the relative path
    when that is shorter and does not go up after its start, and the
    detected path itself otherwise, also when no relative path
    exists. *)
Theorem path_for_prompt_not_longer f_abs cwd p :
  path_for_prompt runtime f_abs cwd = Ok p ->
  (length (render runtime p) <= length (render runtime f_abs))%nat /\
  (p = f_abs \/
   exists rel_path,
     p = PyStr rel_path /\ os_path_relpath runtime f_abs cwd = Ok rel_path /\
     contains (py "../") (drop 3 rel_path) = false).
Proof.
  unfold path_for_prompt.
  destruct (os_path_relpath runtime f_abs cwd) as [rel_path|e].
  - destruct (length rel_path <? length (render runtime f_abs))%nat eqn:E.
    + destruct (contains (py "../") (drop 3 rel_path)) eqn:Ec;
        cbn [negb andb]; intros H; apply Ok_inj in H; subst p.
      * split; [lia | left; reflexivity].
      * apply Nat.ltb_lt in E. cbn [render]. split; [lia|].
        right. exists rel_path. repeat split. exact Ec.
    + cbn [andb]. intros H; apply Ok_inj in H; subst p.
      split; [lia | left; reflexivity].
  - destruct e; try discriminate.
    intros H; apply Ok_inj in H; subst p. split; [lia | left; reflexivity].
Qed.

(** X25. The summary message is read only when there is neither an
    explicit file nor a detected one: with either of them, the file
    context does not depend on the message. *)
Theorem format_file_context_ignores_message system_context message :
  truthy (get system_context "explicit_input_file")
  || truthy (get system_context "detected_files_in_directory") = true ->
  _format_file_context runtime
    (<["file_context_message" := message]> system_context)
  = _format_file_context runtime system_context.
Proof.
  intros H. unfold _format_file_context. cbv zeta.
  unfold get, get_default, context in *.
  rewrite !lookup_insert_ne by discriminate.
  destruct (truthy (default PyNone (system_context !! "explicit_input_file")));
    destruct (truthy (default PyNone
                        (system_context !! "detected_files_in_directory")));
    try discriminate H;
    match goal with
    | |- bind ?x _ = bind ?x _ => destruct x as [lines|e]; [|reflexivity]
    end;
    cbv beta iota delta [bind]; cbn [negb]; rewrite ?andb_false_r; reflexivity.
Qed.

Lemma paths_for_prompt_returns (files : list pystr) cwd :
  (forall f d e, relpath runtime f d = Raise e -> exists msg, e = ValueError msg) ->
  (cwd = PyNone \/ exists d, cwd = PyStr d) ->
  exists paths, paths_for_prompt runtime (map PyStr files) cwd = Ok paths.
Proof.
  intros Hrel Hcwd. induction files as [|f files [paths IH]].
  - exists []. reflexivity.
  - cbn [map paths_for_prompt]. rewrite IH.
    assert (Hp : exists p, path_for_prompt runtime (PyStr f) cwd = Ok p).
    { unfold path_for_prompt.
      assert (Hr : exists d, os_path_relpath runtime (PyStr f) cwd
                             = relpath runtime f d).
      { destruct Hcwd as [-> | [d ->]]; eexists; reflexivity. }
      destruct Hr as [d ->].
      destruct (relpath runtime f d) as [rel_path|e] eqn:E.
      - destruct (_ && _); eexists; reflexivity.
      - destruct (Hrel f d e E) as [msg ->]. eexists. reflexivity. }
    destruct Hp as [p ->]. eexists. reflexivity.
Qed.

(** X26. On a system context of the announced types
    [_format_file_context] raises nothing: when the detected files are
    absent, None or a list of strings, the current directory is absent,
    None or a string, and [os.path.relpath] raises nothing but
    ValueError, it returns. *)
Theorem format_file_context_returns system_context :
  (forall f d e, relpath runtime f d = Raise e -> exists msg, e = ValueError msg) ->
  (get system_context "detected_files_in_directory" = PyNone \/
   exists files, get system_context "detected_files_in_directory" = PyList files) ->
  (get_default system_context "current_directory" (PyStr (py ".")) = PyNone \/
   exists d, get_default system_context "current_directory" (PyStr (py "."))
             = PyStr d) ->
  exists r, _format_file_context runtime system_context = Ok r.
Proof.
  intros Hrel Hfiles Hcwd. unfold _format_file_context. cbv zeta.
  destruct Hfiles as [-> | [files ->]].
  - cbn [truthy]. cbv beta iota delta [bind]. eexists. reflexivity.
  - destruct files as [|f files].
    + cbn [truthy]. cbv beta iota delta [bind]. eexists. reflexivity.
    + cbn [truthy py_iter]. cbv beta iota delta [bind].
      destruct (paths_for_prompt_returns (f :: files) _ Hrel Hcwd) as [paths ->].
      eexists. reflexivity.
Qed.

Lemma format_unknown_field template kwargs pre name post :
  template = pre ++ Field name :: post ->
  Forall (names_only (map fst kwargs)) pre ->
  ~ In (keyword_name name) (map fst kwargs) ->
  format runtime template kwargs = Raise (KeyError (py (keyword_name name))).
Proof.
  intros -> Hpre Hname. induction Hpre as [|item pre Hitem _ IH].
  - cbn [app format].
    destruct (List.find _ kwargs) as [[k v]|] eqn:E; [|reflexivity].
    exfalso. apply Hname. apply find_some in E as [Hin Hk].
    simpl in Hk. apply String.eqb_eq in Hk. subst.
    apply in_map_iff. exists (keyword_name name, v).
    split; [reflexivity | exact Hin].
  - cbn [app format]. destruct item as [text|field].
    + rewrite IH. reflexivity.
    + destruct (List.find _ kwargs) as [[k v]|] eqn:E.
      * rewrite IH. reflexivity.
      * exfalso. simpl in Hitem. apply in_map_iff in Hitem as [[k v] [Hk Hin]].
        apply (find_none _ _ E) in Hin. simpl in *. subst.
        rewrite String.eqb_refl in Hin. discriminate Hin.
Qed.

Section WithModel.

Context {Session : Type} (llm : LLM Session).

(** X27. ValueError is raised for the template, not for the context:
    when the first field of the template that is none of the seven
    passed to it is the keyword field [name], and the file context can
    be built, [generate_command] raises the ValueError that names
    [name] as a missing key, whatever the system context holds; no
    request is sent and the session is untouched. *)
Theorem generate_command_unknown_field self history system_context s
    pre name post :
  system_prompt_template self = pre ++ Field name :: post ->
  Forall (names_only prompt_fields) pre ->
  ~ In (keyword_name name) prompt_fields ->
  (exists file_context, _format_file_context runtime system_context = Ok file_context) ->
  generate_command runtime llm self history system_context s
  = (Raise (ValueError
              (py "System context dictionary is missing required key: '"
               ++ py (keyword_name name) ++ [SQUOTE])), s, []).
Proof.
  intros Htemplate Hpre Hname [file_context Hfc].
  unfold generate_command, _prepare_llm_messages. rewrite Hfc.
  cbv beta iota delta [bind].
  rewrite (format_unknown_field _ _ pre name post Htemplate); [reflexivity | |];
    assumption.
Qed.

(** X28. [generate_command] never returns an empty string: what it
    returns is the content of the answer to the one request it sent,
    or, when that content is None or empty, the JSON text of the
    failure, which the sanitizer returns as it is. *)
Theorem generate_command_never_empty self history system_context s r s' requests :
  generate_command runtime llm self history system_context s
  = (Ok r, s', requests) ->
  r <> [] /\
  exists messages content,
    requests = [messages] /\
    _prepare_llm_messages runtime self history system_context = Ok messages /\
    chat_completions_create llm s (model self) messages = (Responds content, s') /\
    (content = Some r \/
     ((content = None \/ content = Some []) /\ r = empty_content_json /\
      clean_json_response (PyStr r) = Ok r)).
Proof.
  unfold generate_command, _call_llm_api.
  destruct (_prepare_llm_messages runtime self history system_context)
    as [messages|e]; [|discriminate].
  assert (Hempty : empty_content_json <> [] /\
                   clean_json_response (PyStr empty_content_json)
                   = Ok empty_content_json)
    by (split; [discriminate | reflexivity]).
  destruct Hempty as [Hne Hclean].
  destruct (chat_completions_create llm s (model self) messages)
    as [[[[|c content]|]|e] s1] eqn:E; intros [= <- <- <-].
  - split; [exact Hne|]. exists messages, (Some []).
    split; [reflexivity|]. split; [reflexivity|]. split; [exact E|].
    right. split; [right; reflexivity|]. split; [reflexivity | exact Hclean].
  - split; [discriminate|]. exists messages, (Some (c :: content)).
    split; [reflexivity|]. split; [reflexivity|]. split; [exact E|].
    left. reflexivity.
  - split; [exact Hne|]. exists messages, None.
    split; [reflexivity|]. split; [reflexivity|]. split; [exact E|].
    right. split; [left; reflexivity|]. split; [reflexivity | exact Hclean].
Qed.

(** X29. An exception of [generate_command] has one of two origins:
    the preparation of the messages, and then no request was sent and
    the session is untouched, or the one request that was sent, whose
    exception is raised as it is. *)
Theorem generate_command_raise_origin self history system_context s e s' requests :
  generate_command runtime llm self history system_context s
  = (Raise e, s', requests) ->
  (requests = [] /\ s' = s /\
   _prepare_llm_messages runtime self history system_context = Raise e) \/
  (exists messages,
     requests = [messages] /\
     _prepare_llm_messages runtime self history system_context = Ok messages /\
     chat_completions_create llm s (model self) messages = (Fails e, s')).
Proof.
  unfold generate_command, _call_llm_api.
  destruct (_prepare_llm_messages runtime self history system_context)
    as [messages|e0].
  - destruct (chat_completions_create llm s (model self) messages)
      as [[[[|c content]|]|e1] s1] eqn:E; intros [= <- <- <-].
    right. exists messages.
    split; [reflexivity|]. split; [reflexivity | exact E].
  - intros [= <- <- <-]. left.
    split; [reflexivity|]. split; reflexivity.
Qed.

End WithModel.

End PromptProperties.

Section PromptPropertiesExamples.

Import AppCommandGenerator Scenario MoreScenarios.

Lemma format_file_context_header_witness :
  exists rest,
    [LF] ++ py "FILE CONTEXT:" ++ [LF]
    ++ py "- Media files found in directory '/v': 'a.mp4', '/w/b.mp4'" ++ [LF]
    ++ py "- Note: In the generated command, use full absolute paths for these files where necessary (e.g., '/v/a.mp4' ...)."
    = [LF] ++ py "FILE CONTEXT:" ++ [LF] ++ py "- " ++ rest.
Proof.
  apply (format_file_context_header drive_runtime detected_context).
  vm_compute. reflexivity.
Defined.

Lemma path_for_prompt_not_longer_witness :
  (length (render drive_runtime (PyStr (py "a.mp4")))
   <= length (render drive_runtime (PyStr (py "/v/a.mp4"))))%nat /\
  (PyStr (py "a.mp4") = PyStr (py "/v/a.mp4") \/
   exists rel_path,
     PyStr (py "a.mp4") = PyStr rel_path /\
     os_path_relpath drive_runtime (PyStr (py "/v/a.mp4")) (PyStr (py "/v"))
     = Ok rel_path /\
     contains (py "../") (drop 3 rel_path) = false).
Proof.
  apply (path_for_prompt_not_longer drive_runtime (PyStr (py "/v/a.mp4"))
           (PyStr (py "/v")) (PyStr (py "a.mp4"))).
  reflexivity.
Defined.

Lemma format_file_context_ignores_message_witness :
  _format_file_context drive_runtime
    (<["file_context_message" := PyStr (py "another note")]> explicit_context)
  = _format_file_context drive_runtime explicit_context.
Proof.
  apply (format_file_context_ignores_message drive_runtime explicit_context
           (PyStr (py "another note"))).
  vm_compute. reflexivity.
Defined.

Lemma format_file_context_returns_witness :
  exists r, _format_file_context drive_runtime detected_context = Ok r.
Proof.
  apply (format_file_context_returns drive_runtime detected_context).
  - intros f d e. unfold drive_runtime. cbn [relpath].
    destruct (startswith (d ++ py "/") f); [discriminate|].
    intros [= <-]. eexists. reflexivity.
  - right. exists [py "/v/a.mp4"; py "/w/b.mp4"]. vm_compute. reflexivity.
  - right. exists (py "/v"). vm_compute. reflexivity.
Defined.

Lemma generate_command_unknown_field_witness :
  generate_command plain_runtime counting_llm odd_generator [user_turn]
    (∅ : context) 0%nat
  = (Raise (ValueError
              (py "System context dictionary is missing required key: '"
               ++ py "user_name" ++ [SQUOTE])), 0%nat, []).
Proof.
  apply (generate_command_unknown_field plain_runtime counting_llm odd_generator
           [user_turn] (∅ : context) 0%nat
           [Literal (py "OS: "); Field (Keyword "os_info" I);
            Literal (py ", user ")]
           (Keyword "user_name" I) [Field (Keyword "file_context" I)]).
  - reflexivity.
  - repeat constructor.
  - intros H. repeat (destruct H as [H|H]; [discriminate H|]). exact H.
  - eexists. vm_compute. reflexivity.
Defined.

Lemma generate_command_never_empty_witness :
  empty_content_json <> [] /\
  exists messages content,
    [[system_message default_prompt; user_turn]] = [messages] /\
    _prepare_llm_messages plain_runtime a_generator [user_turn] (∅ : context)
    = Ok messages /\
    chat_completions_create silent_llm 0%nat (model a_generator) messages
    = (Responds content, 1%nat) /\
    (content = Some empty_content_json \/
     ((content = None \/ content = Some []) /\
      empty_content_json = empty_content_json /\
      clean_json_response (PyStr empty_content_json) = Ok empty_content_json)).
Proof.
  apply (generate_command_never_empty plain_runtime silent_llm a_generator
           [user_turn] (∅ : context) 0%nat empty_content_json 1%nat
           [[system_message default_prompt; user_turn]]).
  vm_compute. reflexivity.
Defined.

Lemma generate_command_raise_origin_witness :
  ([[system_message default_prompt; user_turn]] = [] /\ 1%nat = 0%nat /\
   _prepare_llm_messages plain_runtime a_generator [user_turn] (∅ : context)
   = Raise (OtherException (py "rate limit reached"))) \/
  (exists messages,
     [[system_message default_prompt; user_turn]] = [messages] /\
     _prepare_llm_messages plain_runtime a_generator [user_turn] (∅ : context)
     = Ok messages /\
     chat_completions_create refusing_llm 0%nat (model a_generator) messages
     = (Fails (OtherException (py "rate limit reached")), 1%nat)).
Proof.
  apply (generate_command_raise_origin plain_runtime refusing_llm a_generator
           [user_turn] (∅ : context) 0%nat
           (OtherException (py "rate limit reached")) 1%nat
           [[system_message default_prompt; user_turn]]).
  vm_compute. reflexivity.
Defined.

End PromptPropertiesExamples.
